(** * Fortudon: the fortune index and the weighted selection engine

    A shallow embedding of [fortudon.py] (the corpus parser, the
    percentage resolver, the weight calculator, the selector and the text
    extractor) together with the properties of its specification.

    Conventions of the embedding.
    - A Python [str] is a list of Unicode code points ([text], code points
      as [Z]); [len] is its number of code points.
    - A file on disk is a list of bytes ([Z] in [0, 256)); text mode with
      [encoding='utf8'] is modelled by [utf8_encode] and [utf8_decode].
    - Python [int] is [Z]. Python [float] is IEEE 754 binary64
      ([spec_float] at precision 53): every sum, product and quotient is
      rounded to the nearest representable number, a tie to the even one,
      as the interpreter does; [round] is Python 3's round-half-to-even.
      Exact rationals ([Q]) appear only where a property compares the
      code with a formula read over the reals.
    - Exceptions and [sys.exit] are values of [exn]; effectful functions
      run in the monad [M] that threads the random source's draw counter
      and what has been printed on standard error. *)

From Corelib Require Import SpecFloat.
From Stdlib Require Import String Ascii ZArith QArith Qabs Qround List Bool Lia.
Import ListNotations.

#[local] Open Scope Z_scope.

(** ** Text, bytes and UTF-8 *)

Definition text := list Z.
Definition bytes := list Z.

Definition LF : Z := 10.
Definition CR : Z := 13.

Definition text_of_string (s : string) : text :=
  map (fun a => Z.of_N (N_of_ascii a)) (list_ascii_of_string s).

Fixpoint text_eqb (a b : text) : bool :=
  match a, b with
  | [], [] => true
  | x :: a', y :: b' => (x =? y) && text_eqb a' b'
  | _, _ => false
  end.

(** Python's [len(s)]. *)
Definition len {A} (l : list A) : Z := Z.of_nat (List.length l).

(** The code points a UTF-8 decoded stream can hold: Unicode scalar
    values (no surrogates). *)
Definition valid_cp (c : Z) : Prop :=
  (0 <= c < 55296) \/ (57344 <= c < 1114112).

(** [ch.encode('utf8')] for one code point. *)
Definition utf8_encode_cp (c : Z) : bytes :=
  if c <? 128 then [c]
  else if c <? 2048 then [192 + c / 64; 128 + c mod 64]
  else if c <? 65536 then
    [224 + c / 4096; 128 + (c / 64) mod 64; 128 + c mod 64]
  else
    [240 + c / 262144; 128 + (c / 4096) mod 64;
     128 + (c / 64) mod 64; 128 + c mod 64].

(** [s.encode('utf8')]. *)
Definition utf8_encode (s : text) : bytes := flat_map utf8_encode_cp s.

Definition is_cont (b : Z) : bool := (128 <=? b) && (b <? 192).

(** The strict UTF-8 decoder of a text-mode file: [None] stands for
    [UnicodeDecodeError] (stray continuation byte, truncated or overlong
    sequence, surrogate, value above U+10FFFF). *)
Fixpoint utf8_decode (bs : bytes) : option text :=
  match bs with
  | [] => Some []
  | b0 :: r0 =>
    if (0 <=? b0) && (b0 <? 128) then option_map (cons b0) (utf8_decode r0)
    else if (192 <=? b0) && (b0 <? 224) then
      match r0 with
      | b1 :: r1 =>
        let c := (b0 - 192) * 64 + (b1 - 128) in
        if is_cont b1 && (128 <=? c)
        then option_map (cons c) (utf8_decode r1) else None
      | _ => None
      end
    else if (224 <=? b0) && (b0 <? 240) then
      match r0 with
      | b1 :: b2 :: r2 =>
        let c := (b0 - 224) * 4096 + (b1 - 128) * 64 + (b2 - 128) in
        if is_cont b1 && is_cont b2 && (2048 <=? c)
           && negb ((55296 <=? c) && (c <? 57344))
        then option_map (cons c) (utf8_decode r2) else None
      | _ => None
      end
    else if (240 <=? b0) && (b0 <? 248) then
      match r0 with
      | b1 :: b2 :: b3 :: r3 =>
        let c := (b0 - 240) * 262144 + (b1 - 128) * 4096
                 + (b2 - 128) * 64 + (b3 - 128) in
        if is_cont b1 && is_cont b2 && is_cont b3
           && (65536 <=? c) && (c <? 1114112)
        then option_map (cons c) (utf8_decode r3) else None
      | _ => None
      end
    else None
  end.

(** Universal newlines of text mode ([newline=None]): on input, [\r\n]
    and a lone [\r] are both handed to the program as [\n]. *)
Fixpoint translate_newlines (s : text) : text :=
  match s with
  | [] => []
  | c :: r =>
    if c =? CR then
      match r with
      | d :: r' => if d =? LF then LF :: translate_newlines r'
                   else LF :: translate_newlines r
      | [] => [LF]
      end
    else c :: translate_newlines r
  end.

(** Iterating over a text stream: the lines, each with its newline (the
    last one may lack it). *)
Fixpoint splitlines (s : text) : list text :=
  match s with
  | [] => []
  | c :: r =>
    if c =? LF then [c] :: splitlines r
    else match splitlines r with
         | [] => [[c]]
         | l :: ls => (c :: l) :: ls
         end
  end.

(** ** The rotation cipher ([codecs.encode(s, 'rot13')]) *)

Definition rot13_cp (c : Z) : Z :=
  if (65 <=? c) && (c <=? 90) then 65 + (c - 65 + 13) mod 26
  else if (97 <=? c) && (c <=? 122) then 97 + (c - 97 + 13) mod 26
  else c.

Definition rot13 (s : text) : text := map rot13_cp s.

(** ** The corpus parser ([read_fortunes]) *)

(** The delimiter line ["%\n"]. *)
Definition delimiter_line : text := [37; LF].

(** A record as the generator yields it: [(start, length, fortune)]. *)
Definition fortune_triple : Type := (Z * Z * text)%type.

(** The [for line in fortune_file] loop with its three variables
    [fortune_lines], [start] and [pos], followed by the code after the
    loop; the yielded triples are collected in order. *)
Fixpoint read_fortunes_loop (lines : list text) (fortune_lines : list text)
         (start pos : Z) : list fortune_triple :=
  match lines with
  | [] =>
    let fortune := concat fortune_lines in
    if text_eqb fortune [] then [] else [(start, pos - start, fortune)]
  | line :: rest =>
    if text_eqb line delimiter_line then
      if pos =? 0 then
        (* "%" at top of file: [continue], [pos] is left as it is *)
        read_fortunes_loop rest fortune_lines start pos
      else
        let fortune := concat fortune_lines in
        (if text_eqb fortune [] then [] else [(start, len fortune, fortune)])
        ++ read_fortunes_loop rest [] (-1) (pos + len (utf8_encode line))
    else
      let start' := if start =? -1 then pos else start in
      read_fortunes_loop rest (fortune_lines ++ [line]) start'
                         (pos + len (utf8_encode line))
  end.

Definition read_fortunes (fortune_file : text) : list fortune_triple :=
  read_fortunes_loop (splitlines fortune_file) [] (-1) 0.

(** What [make_fortune_data_file] stores in the index: the
    [(start, length)] pairs, in order. *)
Definition index_of_text (fortune_file : text) : list (Z * Z) :=
  map (fun t => (fst (fst t), snd (fst t))) (read_fortunes fortune_file).


(** ** Exceptions, the process state and the monad of effects *)

Inductive exn : Type :=
| SystemExit (status : Z)              (* [sys.exit(status)] *)
| IndexFileNotFound (index_file : string)
      (* the [ValueError] of [fortune_file_data]: "Can't find file ..." *)
| ValueError                           (* any other [ValueError] *)
| ZeroDivisionError
| IndexError
| TypeError
| OverflowError
| UnicodeDecodeError.

(** The outcome of a call: a value, an exception, or a loop of the model
    that was stopped for lack of fuel (no Python outcome). *)
Inductive result (A : Type) : Type :=
| Ok (a : A)
| Raise (e : exn)
| OutOfFuel.
Arguments Ok {A} a.
Arguments Raise {A} e.
Arguments OutOfFuel {A}.

(** What a run changes outside its own variables: how many numbers have
    been drawn from the random source, and the lines on standard error. *)
Record world : Type := mkWorld {
  draws : nat;
  stderr : list string
}.

Definition initial_world : world := mkWorld 0 [].

Definition M (A : Type) : Type := world -> result A * world.

Definition ret {A} (a : A) : M A := fun w => (Ok a, w).

Definition raise {A} (e : exn) : M A := fun w => (Raise e, w).

Definition bind {A B} (c : M A) (k : A -> M B) : M B :=
  fun w =>
    match c w with
    | (Ok a, w') => k a w'
    | (Raise e, w') => (Raise e, w')
    | (OutOfFuel, w') => (OutOfFuel, w')
    end.

Definition lift {A} (r : result A) : M A := fun w => (r, w).

(** [print(msg, file=sys.stderr)]. *)
Definition eprint (msg : string) : M unit :=
  fun w => (Ok tt, mkWorld (draws w) (stderr w ++ [msg])).

Declare Scope monad_scope.
Delimit Scope monad_scope with monad.
Notation "x <- c1 ;; c2" := (bind c1 (fun x => c2))
  (at level 61, c1 at next level, right associativity) : monad_scope.
Notation "' pat <- c1 ;; c2" := (bind c1 (fun x => match x with pat => c2 end))
  (at level 61, pat pattern, c1 at next level, right associativity)
  : monad_scope.
Notation "c1 ;; c2" := (bind c1 (fun _ => c2))
  (at level 61, right associativity) : monad_scope.
#[local] Open Scope monad_scope.

Fixpoint mapM {A B} (f : A -> M B) (l : list A) : M (list B) :=
  match l with
  | [] => ret []
  | a :: l' => b <- f a ;; bs <- mapM f l' ;; ret (b :: bs)
  end.

(** The same for functions that only compute or raise. *)
Definition rbind {A B} (r : result A) (k : A -> result B) : result B :=
  match r with
  | Ok a => k a
  | Raise e => Raise e
  | OutOfFuel => OutOfFuel
  end.

Fixpoint rmap {A B} (f : A -> result B) (l : list A) : result (list B) :=
  match l with
  | [] => Ok []
  | a :: l' => rbind (f a) (fun b => rbind (rmap f l') (fun bs => Ok (b :: bs)))
  end.

(** ** Module constants *)

Definition INDEX_EXT : string := ".p4dat".
Definition ATTEMPTS : Z := 10000.

(** ** Numbers

    A Python [float] is a binary64 number; the operations are those of
    IEEE 754 with rounding to nearest, ties to even. *)

Definition float : Type := spec_float.
Definition prec : Z := 53.
Definition emax : Z := 1024.

Definition float_add : float -> float -> float := SFadd prec emax.
Definition float_sub : float -> float -> float := SFsub prec emax.
Definition float_mul : float -> float -> float := SFmul prec emax.
Definition float_div : float -> float -> float := SFdiv prec emax.
Definition float_abs : float -> float := SFabs.

(** The binary64 number nearest to an integer (an infinity when the
    integer is out of range). *)
Definition Z2F (z : Z) : float := binary_normalize prec emax z 0 false.

(** [float(z)] of an [int]: [OverflowError] when it is too large. *)
Definition float_of_int (z : Z) : result float :=
  match Z2F z with
  | S754_infinity _ => Raise OverflowError
  | x => Ok x
  end.

(** The literal [100.0]. *)
Definition float_100 : float := Z2F 100.

(** [x == 0.0]. *)
Definition is_float_zero (x : float) : bool :=
  match x with
  | S754_zero _ => true
  | _ => false
  end.

(** The exact value of a finite binary64 number ([0] for the others). *)
Definition F2Q (x : float) : Q :=
  match x with
  | S754_finite s m e =>
    let v := match e with
             | Zneg p => Zpos m # Pos.pow 2 p
             | _ => inject_Z (Zpos m * 2 ^ e)
             end in
    if s then Qopp v else v
  | _ => 0%Q
  end.

(** A number of the program: an [int] or a [float]. *)
Inductive num : Type :=
| Int (z : Z)
| Float (x : float).

(** The conversion of an operand of mixed arithmetic. *)
Definition to_float (a : num) : result float :=
  match a with
  | Int z => float_of_int z
  | Float x => Ok x
  end.

(** [a + b], [a - b], [a * b]: integer arithmetic on two [int]s, binary64
    arithmetic as soon as one operand is a [float]. *)
Definition py_arith (int_op : Z -> Z -> Z)
           (float_op : float -> float -> float) (a b : num) : result num :=
  match a, b with
  | Int x, Int y => Ok (Int (int_op x y))
  | _, _ =>
    rbind (to_float a) (fun x =>
    rbind (to_float b) (fun y => Ok (Float (float_op x y))))
  end.

Definition py_add : num -> num -> result num := py_arith Z.add float_add.
Definition py_sub : num -> num -> result num := py_arith Z.sub float_sub.
Definition py_mul : num -> num -> result num := py_arith Z.mul float_mul.

(** True division [a / b] by a [float]: both operands are converted, then
    a zero divisor raises [ZeroDivisionError]. *)
Definition py_div (a : num) (b : float) : result float :=
  rbind (to_float a) (fun x =>
  if is_float_zero b then Raise ZeroDivisionError else Ok (float_div x b)).

(** True division [a / b] of a [float] by a number. *)
Definition py_rdiv (a : float) (b : num) : result float :=
  rbind (to_float b) (fun y =>
  if is_float_zero y then Raise ZeroDivisionError else Ok (float_div a y)).

(** [a > b] for a [float] [b]; an [int] is compared by its exact value. *)
Definition py_gt (a : num) (b : float) : bool :=
  match a with
  | Float x => SFltb b x
  | Int z =>
    match b with
    | S754_nan => false
    | S754_infinity s => s
    | _ => negb (Qle_bool (inject_Z z) (F2Q b))
    end
  end.

(** The quotient [m / d] of two positive integers, rounded to the nearest
    integer, a tie to the even one. *)
Definition round_half_even (m d : Z) : Z :=
  let q := m / d in
  let r := m mod d in
  match 2 * r ?= d with
  | Lt => q
  | Gt => q + 1
  | Eq => if Z.even q then q else q + 1
  end.

(** Python 3's [round(x)] of a float: to the nearest integer, a tie to the
    even one; [ValueError] on a NaN, [OverflowError] on an infinity. *)
Definition py_round (x : float) : result Z :=
  match x with
  | S754_nan => Raise ValueError
  | S754_infinity _ => Raise OverflowError
  | S754_zero _ => Ok 0
  | S754_finite s m e =>
    let n := match e with
             | Zneg p => round_half_even (Zpos m) (Z.pow_pos 2 p)
             | _ => Zpos m * 2 ^ e
             end in
    Ok (if s then - n else n)
  end.

(** ** The weight calculator ([adjust_weights_with_percentages]) *)

(** The first loop: [(sum_of_weights, sum_of_free_weights,
    sum_of_percentages)] after the pairs of [zip(weights, percentages)].
    [sum_of_percentages] starts as the [int] [0] and becomes a [float]
    with the first percentage added. *)
Definition weight_sums_step (acc : result (Z * Z * num))
           (wp : Z * option float) : result (Z * Z * num) :=
  rbind acc (fun '(sum_of_weights, sum_of_free_weights, sum_of_percentages) =>
  match snd wp with
  | None =>
    Ok (sum_of_weights + fst wp, sum_of_free_weights + fst wp,
        sum_of_percentages)
  | Some percentage =>
    rbind (py_add sum_of_percentages (Float percentage))
          (fun sum_of_percentages =>
             Ok (sum_of_weights + fst wp, sum_of_free_weights,
                 sum_of_percentages))
  end).

Definition weight_sums (weights : list Z) (percentages : list (option float))
  : result (Z * Z * num) :=
  fold_left weight_sums_step (combine weights percentages)
            (Ok (0, 0, Int 0)).

(** The body of the second loop, for one pair. *)
Definition adjusted_weight (sums : Z * Z * num) (wp : Z * option float)
  : result Z :=
  let '(sum_of_weights, sum_of_free_weights, sum_of_percentages) := sums in
  match snd wp with
  | None =>
    (* round((weight * (100 - sum_of_percentages) * sum_of_weights)
             / float(100 * sum_of_free_weights)) *)
    rbind (py_sub (Int 100) sum_of_percentages) (fun rest =>
    rbind (py_mul (Int (fst wp)) rest) (fun scaled =>
    rbind (py_mul scaled (Int sum_of_weights)) (fun numerator =>
    rbind (float_of_int (100 * sum_of_free_weights)) (fun denominator =>
    rbind (py_div numerator denominator) py_round))))
  | Some percentage =>
    (* round((percentage * sum_of_weights) / 100.0) *)
    rbind (py_mul (Float percentage) (Int sum_of_weights)) (fun numerator =>
    rbind (py_div numerator float_100) py_round)
  end.

Definition adjust_weights_with_percentages
           (weights : list Z) (percentages : list (option float))
  : result (list Z) :=
  rbind (weight_sums weights percentages) (fun sums =>
  rmap (adjusted_weight sums) (combine weights percentages)).

(** ** Validation of the percentages ([check_percentages]) *)

Definition given_values (percentages : list (option float)) : list float :=
  flat_map (fun value => match value with
                         | Some v => [float_abs v]
                         | None => []
                         end) percentages.

(** [sum(values)]: from the [int] [0], left to right, one binary64
    addition for each value, as Python does up to version 3.11 (later
    versions compensate the rounding errors of the partial sums). *)
Definition py_sum (values : list float) : result num :=
  fold_left (fun acc v => rbind acc (fun a => py_add a (Float v)))
            values (Ok (Int 0)).

Definition MSG_TOO_MUCH : string :=
  "ERROR: Percentages add up to more than a hundred!".

(** The percentages are floats or [None], as the resolver builds them;
    on these neither [abs], [sum] nor [float] raises the [ValueError] of
    the three handlers, which are left out. *)
Definition check_percentages (percentages : list (option float))
  : M (list (option float)) :=
  percentage_sum <- lift (py_sum (given_values percentages)) ;;
  if py_gt percentage_sum float_100 then
    eprint MSG_TOO_MUCH ;; raise (SystemExit 2)
  else if (List.length percentages =? List.length (given_values percentages))%nat
  then
    (* no None-values: rescale *)
    lift (rmap (fun percentage =>
                  match percentage with
                  | Some p =>
                    rbind (py_rdiv float_100 percentage_sum)
                          (fun f => Ok (Some (float_abs (float_mul p f))))
                  | None => Raise TypeError
                  end) percentages)
  else
    ret (map (option_map float_abs) percentages).

(** ** Path names *)

#[local] Open Scope string_scope.

(** [s.endswith(suffix)]. *)
Definition endswith (s suffix : string) : bool :=
  (String.length suffix <=? String.length s)%nat
  && String.eqb (substring (String.length s - String.length suffix)
                           (String.length suffix) s) suffix.

(** [filename[:-len(INDEX_EXT)]]. *)
Definition strip_index_ext (filename : string) : string :=
  substring 0 (String.length filename - String.length INDEX_EXT) filename.

(** [os.path.join(path, name)] for a relative [name]. *)
Definition os_path_join (path name : string) : string :=
  if String.eqb path "" then name
  else if endswith path "/" then path ++ name
  else path ++ "/" ++ name.

Definition is_digit (a : ascii) : bool :=
  (48 <=? nat_of_ascii a)%nat && (nat_of_ascii a <=? 57)%nat.

Definition is_percent (a : ascii) : bool := Ascii.eqb a "%"%char.

(** [re.compile('([0-9]{1,2})%').match(path)]: the match is anchored at
    the start of [path] only; the result is [group(1)], the digits. *)
Definition percentage_pattern_match (path : string) : option string :=
  match path with
  | String a (String b rest) =>
    if is_digit a then
      if is_digit b then
        match rest with
        | String c _ =>
          if is_percent c then Some (String a (String b "")) else None
        | EmptyString => None
        end
      else if is_percent b then Some (String a "") else None
    else None
  | _ => None
  end.

(** [int(digits)] for a string of decimal digits. *)
Definition int_of_digits (digits : string) : Z :=
  fold_left (fun n a => (10 * n + Z.of_nat (nat_of_ascii a - 48))%Z)
            (list_ascii_of_string digits) 0%Z.

(** [xor(bool_a, bool_b)]. *)
Definition xor (bool_a bool_b : bool) : bool :=
  (bool_a && negb bool_b) || (bool_b && negb bool_a).

(** ** The file system *)

Record filesystem : Type := mkFS {
  isdir : string -> bool;                 (* [os.path.isdir] *)
  glob : string -> list string;           (* [glob.glob(pattern)] *)
  index_data : string -> option (list (Z * Z));
      (* the unpickled content of an index file, [None] when
         [os.path.exists] is false *)
  corpus : string -> option bytes;
      (* the bytes of a file, [None] when [open] raises [OSError] *)
  oserror : string -> string
      (* the text of the [OSError] that [open] raises on a path *)
}.

#[local] Close Scope string_scope.

Section Fortudon.

Variable fs : filesystem.

(** The system's random source, seen from the program: [entropy k]
    decides the answer to the [k]-th call of [secrets.randbelow] (calls
    are counted from zero, those made by [secrets.choice] included). How
    the library gets its answer from the operating system's random bits
    is not part of the model; the properties below hold for every
    [entropy], so for every sequence of answers. *)
Variable entropy : nat -> Z.

(** [secrets.randbelow(n)]: [ValueError] unless [n] is positive, else a
    number of [range(n)], the one [entropy] decides for this call. *)
Definition randbelow (n : Z) : M Z :=
  fun w =>
    if n <=? 0 then (Raise ValueError, w)
    else (Ok (entropy (draws w) mod n), mkWorld (S (draws w)) (stderr w)).

(** [secrets.choice(seq)]. *)
Definition choice {A} (seq : list A) : M A :=
  match seq with
  | [] => raise IndexError
  | _ =>
    i <- randbelow (len seq) ;;
    match nth_error seq (Z.to_nat i) with
    | Some a => ret a
    | None => raise IndexError
    end
  end.

(** ** The corpus resolver ([fortune_files_from_paths]) *)

(** The variables of the loop over [fortunepaths]. *)
Record resolver_state : Type := mkResolver {
  fortune_files : list string;
  percentages : list (option float);
  percentage : option string
}.

Definition resolver_step (offensive : option bool) (st : resolver_state)
           (path : string) : resolver_state :=
  match percentage_pattern_match path with
  | Some digits =>
    (* a percentage marker: remember it, [continue] *)
    mkResolver (fortune_files st) (percentages st) (Some digits)
  | None =>
    if isdir fs path then
      let files_in_path :=
          map strip_index_ext
              (glob fs (os_path_join path (String "*" INDEX_EXT))) in
      let files_in_path :=
          match offensive with
          | Some o =>
            filter (fun fortune_file =>
                      negb (xor (endswith fortune_file "-o") o)) files_in_path
          | None => files_in_path
          end in
      let fortune_files' := fortune_files st ++ files_in_path in
      let number_of_added_files :=
          Z2F (len fortune_files' - len (percentages st)) in
      let added :=
          repeat (match percentage st with
                  | Some digits =>
                    Some (float_div (Z2F (int_of_digits digits))
                                    number_of_added_files)
                  | None => None
                  end)
                 (List.length fortune_files' - List.length (percentages st)) in
      mkResolver fortune_files' (percentages st ++ added) None
    else
      let keep :=
          match offensive with
          | Some o => negb (xor (endswith path "-o") o)
          | None => true
          end in
      if keep then
        mkResolver (fortune_files st ++ [path])
                   (percentages st
                    ++ [option_map (fun digits => Z2F (int_of_digits digits))
                                   (percentage st)])
                   None
      else mkResolver (fortune_files st) (percentages st) None
  end.

Definition fortune_files_from_paths (fortunepaths : list string)
           (offensive : option bool)
  : M (list (option float) * list string) :=
  let st := fold_left (resolver_step offensive) fortunepaths
                      (mkResolver [] [] None) in
  checked <- check_percentages (percentages st) ;;
  ret (checked, fortune_files st).

(** ** The index store, read side ([fortune_file_data])

    The file system of the model holds, for an index file that exists,
    the list that unpickling it gives. An index file that exists but
    cannot be opened or unpickled is not part of the model. *)

Definition fortune_file_data (fortune_file : string) : M (list (Z * Z)) :=
  let fortune_index_file := (fortune_file ++ INDEX_EXT)%string in
  match index_data fs fortune_index_file with
  | None => raise (IndexFileNotFound fortune_index_file)
  | Some data => ret data
  end.

(** ** The selector ([rselect_fortune_file], [get_random_fortune]) *)

(** The second loop of [rselect_fortune_file]: the running [total] and
    the position [i]; the statement after the loop raises a tuple, which
    Python 3 answers with [TypeError]. *)
Fixpoint rselect_scan (fortune_files : list string) (rand_limit : Z)
         (weights : list Z) (total : Z) (i : nat) : result string :=
  match weights with
  | [] => Raise TypeError
  | weight :: rest =>
    let total := total + weight in
    if rand_limit <=? total then
      match nth_error fortune_files i with
      | Some fortune_file => Ok fortune_file
      | None => Raise IndexError
      end
    else rselect_scan fortune_files rand_limit rest total (S i)
  end.

Definition rselect_fortune_file (fortune_files : list string)
           (weights : option (list Z)) : M string :=
  match weights with
  | None => choice fortune_files
  | Some weights =>
    let total := fold_left Z.add weights 0 in
    r <- randbelow total ;;
    let rand_limit := r + 1 in
    lift (rselect_scan fortune_files rand_limit weights 0 0)
  end.

(** [ffh.seek(start); ffh.read(length)] on a file opened in text mode
    with [encoding='utf8']: the position is a byte offset, the count is a
    number of characters (a negative count reads to the end). The whole
    rest of the file is decoded, where Python decodes it chunk by chunk
    and stops at the chunk that completes the count: the two agree on a
    file that is valid UTF-8 from [start] on. *)
Definition seek_read (content : bytes) (start length : Z) : result text :=
  if start <? 0 then Raise ValueError
  else
    match utf8_decode (skipn (Z.to_nat start) content) with
    | None => Raise UnicodeDecodeError
    | Some decoded =>
      let chars := translate_newlines decoded in
      Ok (if length <? 0 then chars else firstn (Z.to_nat length) chars)
    end.

(** The line of [print("ERROR: ", err, file=sys.stderr)]: the two
    arguments with a space between them. *)
Definition MSG_OSERROR (err : string) : string :=
  String.append "ERROR:  " err.
Definition MSG_GIVEN_UP : string :=
  "I've given up on finding a fortune that matches your criteria. They are too strict.".

(** The last part of the loop body of [get_random_fortune]: open, seek,
    read, close, and the rotation of an offensive file. *)
Definition extract_fortune (fortune_file : string) (start length : Z)
  : M text :=
  match corpus fs fortune_file with
  | None => eprint (MSG_OSERROR (oserror fs fortune_file)) ;;
            raise (SystemExit 1)
  | Some content =>
    fortunecookie <- lift (seek_read content start length) ;;
    if endswith fortune_file "-o" then ret (rot13 fortunecookie)
    else ret fortunecookie
  end.

(** The test that rejects a drawn record. *)
Definition out_of_bounds (length min_length : Z) (max_length : option Z)
  : bool :=
  (length <? min_length)
  || match max_length with
     | Some m => m <? length
     | None => false
     end.

(** The [while True] loop of [get_random_fortune]; [fuel] bounds the
    number of iterations the model runs. *)
Fixpoint search_loop (fuel : nat) (fortune_files : list string)
         (weights : option (list Z)) (min_length : Z) (max_length : option Z)
         (attempt : Z) : M text :=
  match fuel with
  | O => lift OutOfFuel
  | S fuel' =>
    fortune_file <- rselect_fortune_file fortune_files weights ;;
    data <- fortune_file_data fortune_file ;;
    ' (start, length) <- choice data ;;
    if out_of_bounds length min_length max_length then
      let attempt := attempt + 1 in
      if ATTEMPTS <? attempt then
        eprint MSG_GIVEN_UP ;; ret []
      else search_loop fuel' fortune_files weights min_length max_length
                       attempt
    else extract_fortune fortune_file start length
  end.

Definition initial_weights (weighted : bool) (fortune_files : list string)
           (percentages : list (option float)) : M (option (list Z)) :=
  if weighted then
    weights <- mapM (fun fortune_file =>
                       data <- fortune_file_data fortune_file ;;
                       ret (len data)) fortune_files ;;
    weights <- lift (adjust_weights_with_percentages weights percentages) ;;
    ret (Some weights)
  else ret None.

Definition get_random_fortune (fuel : nat) (fortunepaths : list string)
           (weighted : bool) (offensive : option bool)
           (min_length : Z) (max_length : option Z) : M text :=
  ' (percentages, fortune_files) <-
      fortune_files_from_paths fortunepaths offensive ;;
  weights <- initial_weights weighted fortune_files percentages ;;
  search_loop fuel fortune_files weights min_length max_length 0.

End Fortudon.

(** * The specification's own formulations

    Definitions that follow the words of the specification, to be
    compared with the functions above. *)

(** ** Weight calculator *)

(** Rounding of an exact value to the nearest integer, a tie to the even
    one. *)
Definition exact_round (x : Q) : Z :=
  let f := Qfloor x in
  match (x - inject_Z f ?= 1 # 2)%Q with
  | Lt => f
  | Gt => f + 1
  | Eq => if Z.even f then f else f + 1
  end.

(** The exact values of a list of percentages. *)
Definition exact_values (percentages : list (option float))
  : list (option Q) :=
  map (option_map F2Q) percentages.

(** [totalRawWeight]. *)
Definition spec_total_raw_weight (rawWeights : list Z) : Z :=
  fold_right Z.add 0 rawWeights.

(** [sumOfSetPercentages]. *)
Fixpoint spec_sum_of_set_percentages (percentages : list (option Q)) : Q :=
  match percentages with
  | [] => 0
  | Some p :: rest => p + spec_sum_of_set_percentages rest
  | None :: rest => spec_sum_of_set_percentages rest
  end.

(** [sumOfRawWeightsOfUnsetFiles]. *)
Fixpoint spec_sum_of_unset_raw_weights {A} (rawWeights : list Z)
         (percentages : list (option A)) : Z :=
  match rawWeights, percentages with
  | w :: ws, None :: ps => w + spec_sum_of_unset_raw_weights ws ps
  | _ :: ws, Some _ :: ps => spec_sum_of_unset_raw_weights ws ps
  | _, _ => 0
  end.

(** The two formulas of [applyWeights]. *)
Definition spec_final_weight (totalRawWeight sumOfUnset : Z) (sumOfSet : Q)
           (rawWeight : Z) (percentage : option Q) : Z :=
  match percentage with
  | Some p => exact_round (p * inject_Z totalRawWeight / 100)
  | None =>
    exact_round (inject_Z rawWeight * inject_Z totalRawWeight
                 * (100 - sumOfSet) / (100 * inject_Z sumOfUnset))
  end.

Fixpoint spec_apply_weights_from (totalRawWeight sumOfUnset : Z)
         (sumOfSet : Q) (rawWeights : list Z) (percentages : list (option Q))
  : list Z :=
  match rawWeights, percentages with
  | w :: ws, p :: ps =>
    spec_final_weight totalRawWeight sumOfUnset sumOfSet w p
    :: spec_apply_weights_from totalRawWeight sumOfUnset sumOfSet ws ps
  | _, _ => []
  end.

Definition spec_apply_weights (rawWeights : list Z)
           (percentages : list (option Q)) : list Z :=
  spec_apply_weights_from (spec_total_raw_weight rawWeights)
                          (spec_sum_of_unset_raw_weights rawWeights percentages)
                          (spec_sum_of_set_percentages percentages)
                          rawWeights percentages.

(** Whether some entry is unset. *)
Definition has_unset {A} (percentages : list (option A)) : bool :=
  existsb (fun p => match p with None => true | Some _ => false end)
          percentages.

(** The set entries, in order. *)
Definition set_values (percentages : list (option float)) : list float :=
  flat_map (fun p => match p with Some v => [v] | None => [] end)
           percentages.

(** The sum of binary64 numbers as the program forms it: the integer [0]
    of an empty list, else the numbers added one by one, from the left,
    to the binary64 zero, each partial sum rounded to binary64. *)
Definition binary64_sum (values : list float) : num :=
  match values with
  | [] => Int 0
  | v :: rest => Float (fold_left float_add rest (float_add (Z2F 0) v))
  end.

(** The two formulas of the weight calculator in binary64 arithmetic,
    from the three totals: every product and quotient is rounded to
    binary64 before the next operation, an integer is converted when it
    meets a binary64 number, and the quotient is rounded to the nearest
    integer, a tie to the even one. An outcome is an integer or the
    exception of a zero divisor or of a number out of range. *)
Definition binary64_final_weight (totalRawWeight sumOfUnset : Z)
           (sumOfSet : num) (rawWeight : Z) (percentage : option float)
  : result Z :=
  match percentage with
  | Some p =>
    rbind (float_of_int totalRawWeight) (fun total =>
    py_round (float_div (float_mul p total) float_100))
  | None =>
    rbind (match sumOfSet with
           | Int s => float_of_int (rawWeight * (100 - s) * totalRawWeight)
           | Float s =>
             rbind (float_of_int rawWeight) (fun w =>
             rbind (float_of_int totalRawWeight) (fun total =>
             Ok (float_mul (float_mul w (float_sub float_100 s)) total)))
           end) (fun numerator =>
    rbind (float_of_int (100 * sumOfUnset)) (fun denominator =>
    if is_float_zero denominator then Raise ZeroDivisionError
    else py_round (float_div numerator denominator)))
  end.

(** The sum of the set entries, each taken as its absolute value, as the
    program forms it. *)
Definition binary64_abs_sum (percentages : list (option float)) : num :=
  binary64_sum (map float_abs (set_values percentages)).

(** ** Resolver *)

(** The sum of the set entries, each taken as its absolute value. *)
Fixpoint spec_abs_sum (percentages : list (option Q)) : Q :=
  match percentages with
  | [] => 0
  | Some p :: rest => Qabs p + spec_abs_sum rest
  | None :: rest => spec_abs_sum rest
  end.

(** An entry that matches [^[0-9]{1,2}%$]: one or two digits and a
    percent sign, and nothing else but an optional final newline, which
    [$] allows. *)
Definition spec_percentage_marker (entry : string) : bool :=
  let at_end (s : string) :=
      match s with
      | EmptyString => true
      | String c EmptyString => Ascii.eqb c (ascii_of_nat 10)
      | _ => false
      end in
  match entry with
  | String a (String b rest) =>
    is_digit a
    && ((is_percent b && at_end rest)
        || (is_digit b
            && match rest with
               | String c rest' => is_percent c && at_end rest'
               | EmptyString => false
               end))
  | _ => false
  end.

(** ** Text extractor *)

(** Seek to the byte offset, read exactly [length] bytes, decode them as
    UTF-8. *)
Definition spec_read_bytes (content : bytes) (offset length : Z)
  : option text :=
  utf8_decode (firstn (Z.to_nat length) (skipn (Z.to_nat offset) content)).

(** The UTF-8 byte length of a text. *)
Definition byte_length (s : text) : Z := len (utf8_encode s).

(** ** Selector *)

(** The cumulative weight of the first [k] positions. *)
Definition cumulative_weight (weights : list Z) (k : nat) : Z :=
  fold_right Z.add 0 (firstn k weights).

(** ** The parser's invariant

    [done] is the text of the lines consumed so far. While no leading
    delimiter line has been skipped, [pos] is the byte length of [done],
    and the pending lines are a suffix of it that starts at byte
    [start]. Every triple yielded later then sits at its byte offset; its
    length is its number of characters, or, for the triple yielded after
    the loop, its number of bytes. *)

Definition pending_ok (done : text) (fortune_lines : list text) (start : Z)
  : Prop :=
  (fortune_lines = [] /\ start = -1)
  \/ (fortune_lines <> [] /\
      exists pre, done = pre ++ List.concat fortune_lines
                  /\ start = byte_length pre).

Definition yields_record (stream : text) (t : fortune_triple) : Prop :=
  let '(start, length, fortune) := t in
  exists pre post,
    stream = pre ++ fortune ++ post
    /\ start = byte_length pre
    /\ (length = len fortune \/ (post = [] /\ length = byte_length fortune)).

(** ** Inputs on which the file draw cannot fail

    A non-empty list of files, drawn uniformly or with one weight per
    file and a positive total. *)
Definition drawable (fortune_files : list string) (weights : option (list Z))
  : Prop :=
  fortune_files <> []
  /\ match weights with
     | None => True
     | Some ws =>
       List.length ws = List.length fortune_files
       /\ 0 < spec_total_raw_weight ws
     end.

(** Every record of every file's index is rejected by the bounds. *)
Definition all_rejected (fs : filesystem) (fortune_files : list string)
           (min_length : Z) (max_length : option Z) : Prop :=
  forall fortune_file,
    In fortune_file fortune_files ->
    exists data,
      index_data fs (fortune_file ++ INDEX_EXT)%string = Some data
      /\ data <> []
      /\ Forall (fun r => out_of_bounds (snd r) min_length max_length = true)
                data.

(** The world after [n] more draws from the random source. *)
Definition drawn (n : nat) (w : world) : world :=
  mkWorld (n + draws w) (stderr w).

(** ** Fixtures

    A file system that holds one corpus file and its index, for the
    concrete runs below. *)

(** The text of the error for a path that does not exist. *)
Definition no_such_file (path : string) : string :=
  String.append "[Errno 2] No such file or directory: '"
                (String.append path "'").

Definition single_file_fs (name : string) (content : bytes)
           (index : list (Z * Z)) : filesystem :=
  mkFS (fun _ => false)
       (fun _ => [])
       (fun p => if String.eqb p (name ++ INDEX_EXT)%string
                 then Some index else None)
       (fun p => if String.eqb p name then Some content else None)
       no_such_file.

(** A random source that always hands out zero. *)
Definition zero_entropy : nat -> Z := fun _ => 0.

(** ** Shapes of the parser's output *)

(** The stream's lines that are not delimiter lines. *)
Definition text_lines (stream : text) : list text :=
  filter (fun line => negb (text_eqb line delimiter_line)) (splitlines stream).

(** Triples whose reported byte ranges [start, start + bytes of the text)
    follow one another from [lo] on, two bytes (a delimiter line) or more
    apart. *)
Fixpoint ordered_from (lo : Z) (out : list fortune_triple) : Prop :=
  match out with
  | [] => True
  | (start, _, fortune) :: rest =>
    lo <= start /\ ordered_from (start + byte_length fortune + 2) rest
  end.

(** A text of ASCII characters only. *)
Definition is_ascii (s : text) : Prop := Forall (fun c => 0 <= c < 128) s.

(** What the loop of [read_fortunes] keeps true of its variables, true
    byte positions or not. *)
Definition lengths_ok (fortune_lines : list text) (start pos : Z) : Prop :=
  0 <= pos
  /\ ((fortune_lines = [] /\ start = -1)
      \/ (fortune_lines <> [] /\ 0 <= start
          /\ pos - start = byte_length (List.concat fortune_lines))).

(** ** Shapes of the resolver's output *)

(** An entry of the validated percentages against the entry it comes
    from: unset stays unset, a value becomes a value that is its own
    absolute value (its sign is not set). *)
Definition validated_entry (before after : option float) : Prop :=
  match before, after with
  | None, None => True
  | Some _, Some q => float_abs q = q
  | _, _ => False
  end.

(** The resolver's loop over the path entries. *)
Definition resolve (fs : filesystem) (offensive : option bool)
           (fortunepaths : list string) : resolver_state :=
  fold_left (resolver_step fs offensive) fortunepaths (mkResolver [] [] None).

(** A path entry that is a plain file name: no percentage marker, no
    directory. *)
Definition plain_file (fs : filesystem) (path : string) : Prop :=
  percentage_pattern_match path = None /\ isdir fs path = false.

(** The files a directory entry contributes: the index files found in it,
    without their extension, that pass the offensive filter. *)
Definition files_in_directory (fs : filesystem) (offensive : option bool)
           (path : string) : list string :=
  let found :=
      map strip_index_ext
          (glob fs (os_path_join path (String "*" INDEX_EXT))) in
  match offensive with
  | Some o => filter (fun f => negb (xor (endswith f "-o") o)) found
  | None => found
  end.

(** The plain file entries the offensive filter lets through. *)
Definition kept_files (offensive : option bool) (paths : list string)
  : list string :=
  match offensive with
  | Some o => filter (fun p => Bool.eqb (endswith p "-o") o) paths
  | None => paths
  end.


(** ** The index builder ([make_fortune_data_file])

    [sys.maxsize] is taken for a 64-bit platform. *)

Definition sys_maxsize : Z := 9223372036854775807.

(** A file opened in text mode and read to its end: the stream that
    [read_fortunes] iterates over. Python decodes it chunk by chunk while
    the lines are consumed; here a file that does not decode gives no
    stream at all. *)
Definition open_text (content : bytes) : option text :=
  option_map translate_newlines (utf8_decode content).

(** The body of the loop over the yielded triples: [data], [shortest]
    and [longest]. *)
Definition index_step (acc : list (Z * Z) * Z * Z) (t : fortune_triple)
  : list (Z * Z) * Z * Z :=
  let '(data, shortest, longest) := acc in
  let '(start, length, _) := t in
  (data ++ [(start, length)], Z.min shortest length, Z.max longest length).

Definition index_of_stream (stream : text) : list (Z * Z) * Z * Z :=
  fold_left index_step (read_fortunes stream) ([], sys_maxsize, 0).

(** The first loop of [make_fortune_data_file]: the files to index. A
    directory gives what [glob] finds in it, index files left out; any
    other entry is taken as a file. *)
Definition update_targets (fs : filesystem) (fortunepaths : list string)
  : list string :=
  flat_map (fun path =>
              if isdir fs path then
                filter (fun filename => negb (endswith filename INDEX_EXT))
                       (glob fs (os_path_join path "*"))
              else [path])
           fortunepaths.

(** What the second loop computes for one file, up to the point where
    the index file is written: the pairs to store and the two lengths of
    the report. *)
Definition index_one_file (fs : filesystem) (fortune_file : string)
  : M (list (Z * Z) * Z * Z) :=
  match corpus fs fortune_file with
  | None => eprint (MSG_OSERROR (oserror fs fortune_file)) ;;
            raise (SystemExit 1)
  | Some content =>
    match open_text content with
    | None => raise UnicodeDecodeError
    | Some stream => ret (index_of_stream stream)
    end
  end.

(** ** Filtering mode ([filter_fortunes])

    The function writes on standard output and on standard error in
    turn: the console is one list of events, in the order of the
    writes. *)

Inductive event : Type :=
| Out (t : text)     (* written on standard output *)
| Err (t : text).    (* written on standard error *)

Definition F (A : Type) : Type := list event -> result A * list event.

Definition fret {A} (a : A) : F A := fun log => (Ok a, log).

Definition fraise {A} (e : exn) : F A := fun log => (Raise e, log).

Definition fbind {A B} (c : F A) (k : A -> F B) : F B :=
  fun log =>
    match c log with
    | (Ok a, log') => k a log'
    | (Raise e, log') => (Raise e, log')
    | (OutOfFuel, log') => (OutOfFuel, log')
    end.

Definition emit (e : event) : F unit := fun log => (Ok tt, log ++ [e]).

(** A computation of [M] run from filtering mode: nothing is drawn, and
    each line it prints on standard error gets its newline. *)
Definition lift_M {A} (c : M A) : F A :=
  fun log =>
    let '(r, w) := c initial_world in
    (r, log ++ map (fun line => Err (text_of_string line ++ [LF])) (stderr w)).

Declare Scope filter_scope.
Delimit Scope filter_scope with filter.
Notation "x <- c1 ;; c2" := (fbind c1 (fun x => c2))
  (at level 61, c1 at next level, right associativity) : filter_scope.
Notation "' pat <- c1 ;; c2" := (fbind c1 (fun x => match x with pat => c2 end))
  (at level 61, pat pattern, c1 at next level, right associativity)
  : filter_scope.
Notation "c1 ;; c2" := (fbind c1 (fun _ => c2))
  (at level 61, right associativity) : filter_scope.

(** [os.path.split(path)[1]]: what follows the last slash. *)
Fixpoint basename_from (acc path : string) : string :=
  match path with
  | EmptyString => acc
  | String c rest =>
    if Ascii.eqb c "/"%char then basename_from EmptyString rest
    else basename_from (acc ++ String c EmptyString)%string rest
  end.

Definition basename (path : string) : string := basename_from EmptyString path.

(** What is printed on standard error in front of the first file, in
    front of a later file, and when nothing matches. *)
Definition header_first (fortune_file : string) : text :=
  text_of_string ("(" ++ basename fortune_file ++ ")")%string ++ [LF; 37; LF].

Definition header_next (fortune_file : string) : text :=
  [37; LF] ++ text_of_string ("(" ++ basename fortune_file ++ ")")%string
           ++ [LF].

Definition MSG_NOTHING_FOUND : text := text_of_string "Nothing found!" ++ [LF].

(** The text under the pattern: rotated for an offensive file. *)
Definition rotfortune (fortune_file : string) (fortune : text) : text :=
  if endswith fortune_file "-o" then rot13 fortune else fortune.

Section Filter.

#[local] Close Scope monad_scope.
#[local] Open Scope filter_scope.

Variable fs : filesystem.

(** [regex_filter.search(text) is not None] for the compiled pattern. *)
Variable search : text -> bool.

Variable min_length : Z.
Variable max_length : option Z.

(** [read_fortunes(open(fortune_file, 'r', encoding='utf8'))], with the
    handler of [OSError]. *)
Definition open_fortunes (fortune_file : string) : F (list fortune_triple) :=
  match corpus fs fortune_file with
  | None => emit (Err (text_of_string
                         (MSG_OSERROR (oserror fs fortune_file)) ++ [LF])) ;;
            fraise (SystemExit 1)
  | Some content =>
    match open_text content with
    | None => fraise UnicodeDecodeError
    | Some stream => fret (read_fortunes stream)
    end
  end.

(** The inner [while] of the first loop: [next(fortunes)] until a record
    within the bounds matches; the result is the text that matched and
    what is left of the generator, or nothing at [StopIteration]. *)
Fixpoint first_match (fortune_file : string) (fortunes : list fortune_triple)
  : option (text * list fortune_triple) :=
  match fortunes with
  | [] => None
  | (_, length, fortune) :: rest =>
    if out_of_bounds length min_length max_length then
      first_match fortune_file rest
    else if search (rotfortune fortune_file fortune) then
      Some (rotfortune fortune_file fortune, rest)
    else first_match fortune_file rest
  end.

(** The first loop: files are popped until one has a match. *)
Fixpoint find_first_match (fortune_files : list string)
  : F (list fortune_triple * list string) :=
  match fortune_files with
  | [] => emit (Err MSG_NOTHING_FOUND) ;; fraise (SystemExit 1)
  | fortune_file :: rest =>
    emit (Err (header_first fortune_file)) ;;
    fortunes <- open_fortunes fortune_file ;;
    match first_match fortune_file fortunes with
    | Some (matched, fortunes') =>
      emit (Out (matched ++ [LF])) ;; fret (fortunes', rest)
    | None => find_first_match rest
    end
  end.

(** The loop over the remaining fortunes of the first file: the pattern
    is tried on the text as stored, and that text is written. *)
Fixpoint print_rest_of_first (fortunes : list fortune_triple) : F unit :=
  match fortunes with
  | [] => fret tt
  | (_, length, fortune) :: rest =>
    if out_of_bounds length min_length max_length then
      print_rest_of_first rest
    else if search fortune then
      emit (Out delimiter_line) ;; emit (Out fortune) ;;
      print_rest_of_first rest
    else print_rest_of_first rest
  end.

(** The loop over the fortunes of a later file. *)
Fixpoint print_matches (fortune_file : string)
         (fortunes : list fortune_triple) : F unit :=
  match fortunes with
  | [] => fret tt
  | (_, length, fortune) :: rest =>
    if out_of_bounds length min_length max_length then
      print_matches fortune_file rest
    else if search (rotfortune fortune_file fortune) then
      emit (Out delimiter_line) ;;
      emit (Out (rotfortune fortune_file fortune)) ;;
      print_matches fortune_file rest
    else print_matches fortune_file rest
  end.

(** The loop over the remaining files. *)
Fixpoint print_remaining_files (fortune_files : list string) : F unit :=
  match fortune_files with
  | [] => fret tt
  | fortune_file :: rest =>
    emit (Err (header_next fortune_file)) ;;
    fortunes <- open_fortunes fortune_file ;;
    print_matches fortune_file fortunes ;;
    print_remaining_files rest
  end.

Definition filter_fortunes (fortunepaths : list string)
           (offensive : option bool) : F Z :=
  ' (_, fortune_files) <-
      lift_M (fortune_files_from_paths fs fortunepaths offensive) ;;
  ' (fortunes, fortune_files) <- find_first_match fortune_files ;;
  print_rest_of_first fortunes ;;
  print_remaining_files fortune_files ;;
  fret 0.

End Filter.

(** What has been written on standard output, and on standard error. *)
Definition stdout_of (log : list event) : text :=
  flat_map (fun e => match e with Out t => t | Err _ => [] end) log.

Definition stderr_of (log : list event) : text :=
  flat_map (fun e => match e with Err t => t | Out _ => [] end) log.

(** A file that opens and decodes, with the triples of its stream. *)
Definition readable (fs : filesystem) (fortune_file : string)
           (fortunes : list fortune_triple) : Prop :=
  exists content stream,
    corpus fs fortune_file = Some content
    /\ open_text content = Some stream
    /\ fortunes = read_fortunes stream.

(** The texts of the records within the bounds that the pattern matches,
    rotated for an offensive file. *)
Definition matching_texts (search : text -> bool) (min_length : Z)
           (max_length : option Z) (fortune_file : string)
           (fortunes : list fortune_triple) : list text :=
  map (fun t => rotfortune fortune_file (snd t))
      (filter (fun t =>
                 negb (out_of_bounds (snd (fst t)) min_length max_length)
                 && search (rotfortune fortune_file (snd t)))
              fortunes).

(** The same over files, each with its triples. *)
Fixpoint all_matching_texts (search : text -> bool) (min_length : Z)
         (max_length : option Z) (fortune_files : list string)
         (fortunes : list (list fortune_triple)) : list text :=
  match fortune_files, fortunes with
  | f :: fortune_files', ts :: fortunes' =>
    matching_texts search min_length max_length f ts
    ++ all_matching_texts search min_length max_length fortune_files' fortunes'
  | _, _ => []
  end.

(** A valid fortune file made of texts: the first one, then each
    further one after a delimiter line. *)
Definition joined (texts : list text) : text :=
  match texts with
  | [] => []
  | first :: others =>
    (first ++ [LF]) ++ flat_map (fun t => delimiter_line ++ t) others
  end.

(** The texts, as stored, of the records within the bounds whose stored
    text the pattern matches. *)
Definition matching_stored_texts (search : text -> bool) (min_length : Z)
           (max_length : option Z) (fortunes : list fortune_triple)
  : list text :=
  map snd
      (filter (fun t =>
                 negb (out_of_bounds (snd (fst t)) min_length max_length)
                 && search (snd t))
              fortunes).

(** ** Fixtures for the binary64 runs *)

(** The binary64 quotient [n / 3.0]. *)
Definition third_of (n : Z) : float := float_div (Z2F n) (Z2F 3).

(** Two files with an index: [a] with five records, [b] with none. *)
Definition empty_index_fs : filesystem :=
  mkFS (fun _ => false)
       (fun _ => [])
       (fun p => if String.eqb p "a.p4dat"
                 then Some [(0, 1); (3, 1); (6, 1); (9, 1); (12, 1)]
                 else if String.eqb p "b.p4dat" then Some [] else None)
       (fun _ => None)
       no_such_file.

(** A directory [d] that holds three indexed files, next to a file [a]. *)
Definition directory_fs : filesystem :=
  mkFS (fun p => String.eqb p "d")
       (fun pattern => if String.eqb pattern "d/*.p4dat"
                       then ["d/x.p4dat"; "d/y.p4dat"; "d/z.p4dat"]%string
                       else [])
       (fun _ => Some [(0, 1)])
       (fun _ => None)
       no_such_file.

(** ** Corpus files that carry their index

    The file [fortune_file] holds the UTF-8 encoding of [stream], a text
    without carriage returns that does not begin with a delimiter line,
    and its index file holds what the index builder computes for that
    text. *)
Definition indexed_corpus (fs : filesystem) (fortune_file : string)
           (stream : text) : Prop :=
  Forall valid_cp stream
  /\ ~ In CR stream
  /\ firstn 2 stream <> delimiter_line
  /\ corpus fs fortune_file = Some (utf8_encode stream)
  /\ index_data fs (fortune_file ++ INDEX_EXT)%string
     = Some (index_of_text stream).

(** Every record of the text passes the length bounds, and there is
    one. *)
Definition all_accepted (stream : text) (min_length : Z)
           (max_length : option Z) : Prop :=
  read_fortunes stream <> []
  /\ Forall (fun r => out_of_bounds (snd r) min_length max_length = false)
            (index_of_text stream).


(** Whether a number is zero. *)
Definition num_is_zero (a : num) : bool :=
  match a with
  | Int z => z =? 0
  | Float x => is_float_zero x
  end.

(** ** Binary64 numbers that hold an integer

    [x] is the normal binary64 number of value [n]: a mantissa of 53 bits
    that is [n] shifted to the left. This is how every positive integer
    below [2 ^ 53] is held, without a rounding error. *)
Definition exact_float (n : Z) (x : float) : Prop :=
  exists (m : positive) (e : Z),
    x = S754_finite false m e
    /\ Zpos (digits2_pos m) = 53
    /\ -52 <= e <= 0
    /\ Zpos m = n * 2 ^ (- e).

(** A binary64 number that is neither a NaN nor an infinity. *)
Definition float_is_finite (x : float) : bool :=
  match x with
  | S754_zero _ | S754_finite _ _ _ => true
  | _ => false
  end.

(** ** Tactics *)

Ltac settle_tests :=
  repeat match goal with
         | |- context [?a <? ?b] =>
           first [ rewrite (proj2 (Z.ltb_lt a b)) by lia
                 | rewrite (proj2 (Z.ltb_ge a b)) by lia ]
         | |- context [?a <=? ?b] =>
           first [ rewrite (proj2 (Z.leb_le a b)) by lia
                 | rewrite (proj2 (Z.leb_gt a b)) by lia ]
         end.

(** * Properties *)

(** ** UTF-8: decoding undoes encoding *)

Lemma is_cont_true (b : Z) : 128 <= b < 192 -> is_cont b = true.
Proof.
  intros H. unfold is_cont. apply andb_true_iff.
  split; [apply Z.leb_le|apply Z.ltb_lt]; lia.
Qed.

Lemma utf8_decode_encode_cp (c : Z) (rest : bytes) :
  valid_cp c ->
  utf8_decode (utf8_encode_cp c ++ rest)
  = option_map (cons c) (utf8_decode rest).
Proof.
  intros Hc. unfold valid_cp in Hc. unfold utf8_encode_cp.
  destruct (Z.ltb_spec c 128) as [H1|H1].
  { cbn [app utf8_decode]. settle_tests. reflexivity. }
  destruct (Z.ltb_spec c 2048) as [H2|H2].
  { assert (E : (192 + c / 64 - 192) * 64 + (128 + c mod 64 - 128) = c)
      by (Z.div_mod_to_equations; lia).
    assert (B0 : 194 <= 192 + c / 64 < 224) by (Z.div_mod_to_equations; lia).
    assert (B1 : 128 <= 128 + c mod 64 < 192) by (Z.div_mod_to_equations; lia).
    remember (192 + c / 64) as b0 eqn:Q0.
    remember (128 + c mod 64) as b1 eqn:Q1. clear Q0 Q1.
    cbn [app utf8_decode]. rewrite E, (is_cont_true b1) by lia.
    settle_tests. reflexivity. }
  destruct (Z.ltb_spec c 65536) as [H3|H3].
  { assert (E : (224 + c / 4096 - 224) * 4096
                + (128 + (c / 64) mod 64 - 128) * 64
                + (128 + c mod 64 - 128) = c)
      by (Z.div_mod_to_equations; lia).
    assert (B0 : 224 <= 224 + c / 4096 < 240) by (Z.div_mod_to_equations; lia).
    assert (B1 : 128 <= 128 + (c / 64) mod 64 < 192)
      by (Z.div_mod_to_equations; lia).
    assert (B2 : 128 <= 128 + c mod 64 < 192) by (Z.div_mod_to_equations; lia).
    remember (224 + c / 4096) as b0 eqn:Q0.
    remember (128 + (c / 64) mod 64) as b1 eqn:Q1.
    remember (128 + c mod 64) as b2 eqn:Q2. clear Q0 Q1 Q2.
    cbn [app utf8_decode].
    rewrite E, (is_cont_true b1), (is_cont_true b2) by lia.
    settle_tests. cbn [andb negb].
    destruct Hc as [Hc|Hc]; settle_tests; reflexivity. }
  assert (E : (240 + c / 262144 - 240) * 262144
              + (128 + (c / 4096) mod 64 - 128) * 4096
              + (128 + (c / 64) mod 64 - 128) * 64
              + (128 + c mod 64 - 128) = c)
    by (Z.div_mod_to_equations; lia).
  assert (B0 : 240 <= 240 + c / 262144 < 245) by (Z.div_mod_to_equations; lia).
  assert (B1 : 128 <= 128 + (c / 4096) mod 64 < 192)
    by (Z.div_mod_to_equations; lia).
  assert (B2 : 128 <= 128 + (c / 64) mod 64 < 192)
    by (Z.div_mod_to_equations; lia).
  assert (B3 : 128 <= 128 + c mod 64 < 192) by (Z.div_mod_to_equations; lia).
  remember (240 + c / 262144) as b0 eqn:Q0.
  remember (128 + (c / 4096) mod 64) as b1 eqn:Q1.
  remember (128 + (c / 64) mod 64) as b2 eqn:Q2.
  remember (128 + c mod 64) as b3 eqn:Q3. clear Q0 Q1 Q2 Q3.
  cbn [app utf8_decode].
  rewrite E, (is_cont_true b1), (is_cont_true b2), (is_cont_true b3) by lia.
  settle_tests. reflexivity.
Qed.

Lemma utf8_decode_encode (s : text) :
  Forall valid_cp s -> utf8_decode (utf8_encode s) = Some s.
Proof.
  induction 1 as [|c s Hc _ IH]; [reflexivity|].
  unfold utf8_encode in *. cbn [flat_map].
  rewrite utf8_decode_encode_cp by assumption. rewrite IH. reflexivity.
Qed.

Lemma utf8_encode_app (a b : text) :
  utf8_encode (a ++ b) = utf8_encode a ++ utf8_encode b.
Proof. apply flat_map_app. Qed.

Lemma len_app {A} (a b : list A) : len (a ++ b) = len a + len b.
Proof. unfold len. rewrite length_app. lia. Qed.

Lemma byte_length_app (a b : text) :
  byte_length (a ++ b) = byte_length a + byte_length b.
Proof. unfold byte_length. rewrite utf8_encode_app. apply len_app. Qed.

Lemma utf8_encode_cp_length (c : Z) : 1 <= len (utf8_encode_cp c) <= 4.
Proof.
  unfold utf8_encode_cp, len.
  destruct (c <? 128); [cbn; lia|].
  destruct (c <? 2048); [cbn; lia|].
  destruct (c <? 65536); cbn; lia.
Qed.

Lemma byte_length_ge_len (s : text) : len s <= byte_length s.
Proof.
  induction s as [|c s IH]; [unfold byte_length, len; cbn; lia|].
  change (c :: s) with ([c] ++ s). rewrite byte_length_app, len_app.
  assert (E : byte_length [c] = len (utf8_encode_cp c)).
  { unfold byte_length. cbn [utf8_encode flat_map]. rewrite app_nil_r.
    reflexivity. }
  pose proof (utf8_encode_cp_length c) as Hc.
  replace (len [c]) with 1 by reflexivity. lia.
Qed.

Lemma skipn_byte_length (pre rest : text) :
  skipn (Z.to_nat (byte_length pre)) (utf8_encode (pre ++ rest))
  = utf8_encode rest.
Proof.
  rewrite utf8_encode_app. unfold byte_length, len. rewrite Nat2Z.id.
  rewrite skipn_app, skipn_all, Nat.sub_diag. reflexivity.
Qed.

Lemma translate_newlines_no_CR (s : text) :
  ~ In CR s -> translate_newlines s = s.
Proof.
  induction s as [|c s IH]; intros Hn; [reflexivity|].
  cbn [translate_newlines].
  destruct (Z.eqb_spec c CR) as [->|_]; [exfalso; apply Hn; left; reflexivity|].
  rewrite IH; [reflexivity|]. intros Hin. apply Hn. right. exact Hin.
Qed.

(** ** Lines *)

Lemma text_eqb_eq (a b : text) : text_eqb a b = true <-> a = b.
Proof.
  revert b. induction a as [|x a IH]; intros [|y b]; cbn;
    try (split; [discriminate|discriminate]); [tauto|].
  rewrite andb_true_iff, Z.eqb_eq, IH.
  split; [intros [-> ->]; reflexivity|intros E; inversion E; auto].
Qed.

Lemma concat_splitlines (s : text) : List.concat (splitlines s) = s.
Proof.
  induction s as [|c s IH]; [reflexivity|].
  cbn [splitlines]. destruct (c =? LF).
  - cbn. rewrite IH. reflexivity.
  - destruct (splitlines s) as [|l ls]; cbn in *; rewrite <- IH; reflexivity.
Qed.

Lemma splitlines_nonempty (s : text) :
  Forall (fun l => l <> []) (splitlines s).
Proof.
  induction s as [|c s IH]; [constructor|].
  cbn [splitlines]. destruct (c =? LF).
  - constructor; [discriminate|exact IH].
  - destruct (splitlines s) as [|l ls].
    + constructor; [discriminate|constructor].
    + inversion IH; subst. constructor; [discriminate|assumption].
Qed.

Lemma splitlines_leading_delimiter (s : text) (rest : list text) :
  splitlines s = delimiter_line :: rest -> firstn 2 s = delimiter_line.
Proof.
  unfold delimiter_line. destruct s as [|c s]; [discriminate|].
  cbn [splitlines]. destruct (Z.eqb_spec c LF) as [->|Hc]; [discriminate|].
  destruct s as [|d s]; [discriminate|].
  cbn [splitlines]. destruct (Z.eqb_spec d LF) as [->|Hd].
  - intros E. inversion E. reflexivity.
  - destruct (splitlines s); intros E; inversion E; subst; contradiction.
Qed.

Lemma byte_length_nonneg (s : text) : 0 <= byte_length s.
Proof. unfold byte_length, len. lia. Qed.

Lemma byte_length_zero (s : text) : byte_length s = 0 -> s = [].
Proof.
  destruct s as [|c s]; [reflexivity|]. intros H.
  pose proof (byte_length_ge_len (c :: s)) as G.
  unfold len in G. cbn [List.length] in G. lia.
Qed.

(** ** The parser keeps its invariant *)

Lemma read_fortunes_loop_sound (lines : list text) :
  forall (done : text) (fortune_lines : list text) (start pos : Z),
    Forall (fun l => l <> []) lines ->
    Forall (fun l => l <> []) fortune_lines ->
    pos = byte_length done ->
    (done <> [] \/ forall rest, lines <> delimiter_line :: rest) ->
    pending_ok done fortune_lines start ->
    forall t, In t (read_fortunes_loop lines fortune_lines start pos) ->
              yields_record (done ++ List.concat lines) t.
Proof.
  induction lines as [|line rest IH];
    intros done fl start pos Hne Hfl Hpos Hlead Hpend t Hin.
  - cbn [read_fortunes_loop] in Hin.
    destruct (text_eqb (List.concat fl) []) eqn:E; [destruct Hin|].
    destruct Hin as [<-|[]]. cbn [List.concat]. rewrite app_nil_r.
    destruct Hpend as [[-> _]|[_ (pre & Hd & Hs)]]; [discriminate|].
    exists pre, []. rewrite app_nil_r. split; [exact Hd|]. split; [exact Hs|].
    right. split; [reflexivity|].
    subst. rewrite byte_length_app. lia.
  - inversion Hne as [|? ? Hline Hrest]; subst.
    cbn [read_fortunes_loop] in Hin. cbn [List.concat].
    destruct (text_eqb line delimiter_line) eqn:Ed.
    + apply text_eqb_eq in Ed. subst line.
      destruct (Z.eqb_spec (byte_length done) 0) as [Hz|Hz].
      { exfalso. apply byte_length_zero in Hz.
        destruct Hlead as [Hd|Hd]; [contradiction|].
        apply (Hd rest). reflexivity. }
      apply in_app_or in Hin. destruct Hin as [Hin|Hin].
      * destruct (text_eqb (List.concat fl) []) eqn:E; [destruct Hin|].
        destruct Hin as [<-|[]].
        destruct Hpend as [[-> _]|[_ (pre & Hd & Hs)]]; [discriminate|].
        exists pre, (delimiter_line ++ List.concat rest).
        split; [rewrite Hd, <- app_assoc; reflexivity|].
        split; [exact Hs|]. left. reflexivity.
      * rewrite app_assoc.
        apply (IH (done ++ delimiter_line) [] (-1)
                  (byte_length done + len (utf8_encode delimiter_line)));
          try assumption.
        -- constructor.
        -- rewrite byte_length_app. reflexivity.
        -- left. intros H. apply app_eq_nil in H. destruct H; discriminate.
        -- left. split; reflexivity.
    + rewrite app_assoc.
      apply (IH (done ++ line) (fl ++ [line])
                (if start =? -1 then byte_length done else start)
                (byte_length done + len (utf8_encode line)));
        try assumption.
      * apply Forall_app. split; [assumption|]. constructor; [assumption|constructor].
      * rewrite byte_length_app. reflexivity.
      * left. intros H. apply app_eq_nil in H. destruct H; contradiction.
      * right. split.
        { intros H. apply app_eq_nil in H. destruct H; discriminate. }
        destruct Hpend as [[-> ->]|[_ (pre & Hd & Hs)]].
        -- exists done. cbn. rewrite app_nil_r. split; reflexivity.
        -- exists pre. rewrite concat_app. cbn [List.concat].
           rewrite app_nil_r, app_assoc, <- Hd. split; [reflexivity|].
           pose proof (byte_length_nonneg pre).
           destruct (Z.eqb_spec start (-1)); [lia|exact Hs].
Qed.

(** Without a delimiter line at the top of the stream, every triple the
    parser yields sits at the byte offset it reports. *)
Lemma read_fortunes_sound (stream : text) (t : fortune_triple) :
  firstn 2 stream <> delimiter_line ->
  In t (read_fortunes stream) -> yields_record stream t.
Proof.
  intros Hlead Hin. unfold read_fortunes in Hin.
  rewrite <- (concat_splitlines stream) at 1.
  change (List.concat (splitlines stream))
    with ([] ++ List.concat (splitlines stream)).
  apply (read_fortunes_loop_sound (splitlines stream) [] [] (-1) 0);
    try assumption.
  - apply splitlines_nonempty.
  - constructor.
  - reflexivity.
  - right. intros rest E. apply Hlead.
    apply (splitlines_leading_delimiter _ _ E).
  - left. split; reflexivity.
Qed.

(** ** Byte lengths and offsets of the records (C1, C5) *)

(** C1 (fails on the code). The claim: every yielded triple carries the
    UTF-8 byte length of its text. The stream ["é\n%\n"] yields one
    record, closed by a delimiter line; its text ["é\n"] is three bytes
    long, and the triple carries [2], the number of characters
    ([len(fortune)]). The same text as the last record of a stream, with
    no delimiter line after it, is yielded with [pos - start = 3]. *)
Theorem read_fortunes_length_counts_characters :
  read_fortunes [233; LF; 37; LF] = [(0, 2, [233; LF])]
  /\ byte_length [233; LF] = 3
  /\ read_fortunes [233; LF] = [(0, 3, [233; LF])].
Proof. repeat split. Qed.

(** The example of the specification: ["A\n%\nB\nC\n%\nD\n"]. *)
Lemma read_fortunes_example :
  read_fortunes [65; LF; 37; LF; 66; LF; 67; LF; 37; LF; 68; LF]
  = [(0, 2, [65; LF]); (4, 4, [66; LF; 67; LF]); (10, 2, [68; LF])].
Proof. reflexivity. Qed.

(** C5 (fails on the code). The claim: a delimiter line at byte 0 is
    skipped and the offsets stay the true byte positions, the skipped line
    being counted. The leading line is skipped, but [continue] also skips
    [pos += ...]: a stream with a delimiter line on top yields the very
    triples of the stream without it, two bytes below the true positions.
    On ["%\nA\n%\nB\n"] the records at bytes 2 and 6 are reported at 0 and
    4, and reading two characters at offset 0 gives the delimiter line, not
    the first record. *)
Theorem read_fortunes_leading_delimiter_not_counted :
  (forall stream : text,
      read_fortunes (delimiter_line ++ stream) = read_fortunes stream)
  /\ let stream := delimiter_line ++ [65; LF] ++ delimiter_line ++ [66; LF] in
     read_fortunes stream = [(0, 2, [65; LF]); (4, 2, [66; LF])]
     /\ firstn 2 (skipn 2 (utf8_encode stream)) = utf8_encode [65; LF]
     /\ firstn 2 (skipn 6 (utf8_encode stream)) = utf8_encode [66; LF]
     /\ seek_read (utf8_encode stream) 0 2 = Ok delimiter_line.
Proof. split; [reflexivity|repeat split]. Qed.

(** ** The text extractor (C6) *)

Lemma seek_read_record (stream : text) (t : fortune_triple) :
  Forall valid_cp stream ->
  ~ In CR stream ->
  yields_record stream t ->
  seek_read (utf8_encode stream) (fst (fst t)) (snd (fst t)) = Ok (snd t).
Proof.
  destruct t as [[start length] fortune]. cbn [fst snd].
  intros Hv Hcr (pre & post & Hs & Hstart & Hlen).
  unfold seek_read. subst start.
  pose proof (byte_length_nonneg pre) as Hp.
  rewrite (proj2 (Z.ltb_ge _ _)) by lia.
  rewrite Hs at 1. rewrite skipn_byte_length.
  assert (Hv' : Forall valid_cp (fortune ++ post)).
  { rewrite Hs in Hv. apply Forall_app in Hv. tauto. }
  rewrite (utf8_decode_encode _ Hv').
  rewrite translate_newlines_no_CR.
  2: { intros Hin. apply Hcr. rewrite Hs. apply in_or_app. right. exact Hin. }
  assert (0 <= length).
  { destruct Hlen as [->|[_ ->]]; [unfold len; lia|apply byte_length_nonneg]. }
  rewrite (proj2 (Z.ltb_ge _ _)) by lia. f_equal.
  destruct Hlen as [->|[-> ->]].
  - unfold len. rewrite Nat2Z.id, firstn_app, Nat.sub_diag, firstn_all.
    cbn. apply app_nil_r.
  - rewrite app_nil_r. apply firstn_all2.
    pose proof (byte_length_ge_len fortune). unfold len in *. lia.
Qed.

(** C6 (counterexample). The file holds ["éa\n%\nb\n"]; its index holds
    [(0, 3)] for the record ["éa\n"]. The extraction returns the three
    characters ["éa\n"] (four bytes), where reading exactly three bytes
    and decoding them gives ["éa"]. *)
Lemma extract_fortune_reads_characters_not_bytes :
  let stream := [233; 97; LF; 37; LF; 98; LF] in
  let fs := single_file_fs "f" (utf8_encode stream) (index_of_text stream) in
  In (0, 3, [233; 97; LF]) (read_fortunes stream)
  /\ extract_fortune fs "f" 0 3 initial_world
     = (Ok [233; 97; LF], initial_world)
  /\ spec_read_bytes (utf8_encode stream) 0 3 = Some [233; 97]
  /\ spec_read_bytes (utf8_encode stream) 0 3 <> Some [233; 97; LF].
Proof.
  cbv zeta. split; [left; reflexivity|].
  split; [reflexivity|]. split; [reflexivity|]. discriminate.
Qed.

(** C6 (amended). The extraction step opens the corpus file, seeks to
    the record's byte offset and reads up to [length] characters of the
    UTF-8 decoded text. When the file holds the UTF-8 encoding of a text
    without carriage returns that does not begin with a delimiter line,
    and the record is one the parser yields for that text, the result is
    exactly the record's text (rotated once when the file name ends in
    ["-o"]). *)
Theorem extract_fortune_yields_record
        (fs : filesystem) (fortune_file : string) (stream : text)
        (start length : Z) (fortune : text) (w : world) :
  Forall valid_cp stream ->
  ~ In CR stream ->
  firstn 2 stream <> delimiter_line ->
  corpus fs fortune_file = Some (utf8_encode stream) ->
  In (start, length, fortune) (read_fortunes stream) ->
  extract_fortune fs fortune_file start length w
  = (Ok (if endswith fortune_file "-o" then rot13 fortune else fortune), w).
Proof.
  intros Hv Hcr Hlead Hfile Hin.
  unfold extract_fortune. rewrite Hfile.
  pose proof (seek_read_record stream (start, length, fortune) Hv Hcr
                               (read_fortunes_sound _ _ Hlead Hin)) as E.
  cbn [fst snd] in E. unfold bind, lift. rewrite E.
  destruct (endswith fortune_file "-o"); reflexivity.
Qed.

Lemma extract_fortune_yields_record_witness :
  extract_fortune
    (single_file_fs "f" (utf8_encode [233; 97; LF; 37; LF; 98; LF])
                    (index_of_text [233; 97; LF; 37; LF; 98; LF]))
    "f" 0 3 initial_world
  = (Ok [233; 97; LF], initial_world).
Proof.
  apply (extract_fortune_yields_record
           (single_file_fs "f" (utf8_encode [233; 97; LF; 37; LF; 98; LF])
                           (index_of_text [233; 97; LF; 37; LF; 98; LF]))
           "f" [233; 97; LF; 37; LF; 98; LF] 0 3 [233; 97; LF]
           initial_world).
  - repeat constructor; unfold valid_cp, LF; lia.
  - unfold CR, LF. cbn. intuition lia.
  - discriminate.
  - reflexivity.
  - left. reflexivity.
Defined.

(** ** The rotation cipher (C9) *)

Lemma rot13_cp_upper (c : Z) :
  65 <= c <= 90 -> rot13_cp c = 65 + (c - 65 + 13) mod 26.
Proof. intros H. unfold rot13_cp. settle_tests. reflexivity. Qed.

Lemma rot13_cp_lower (c : Z) :
  97 <= c <= 122 -> rot13_cp c = 97 + (c - 97 + 13) mod 26.
Proof. intros H. unfold rot13_cp. settle_tests. reflexivity. Qed.

Lemma rot13_cp_other (c : Z) :
  ~ 65 <= c <= 90 -> ~ 97 <= c <= 122 -> rot13_cp c = c.
Proof.
  intros H1 H2. unfold rot13_cp.
  destruct (Z.leb_spec 65 c), (Z.leb_spec c 90); cbn [andb];
    try (exfalso; lia);
    destruct (Z.leb_spec 97 c), (Z.leb_spec c 122); cbn [andb];
      try (exfalso; lia); reflexivity.
Qed.

Lemma rot13_cp_involutive (c : Z) : rot13_cp (rot13_cp c) = c.
Proof.
  destruct (Z_le_dec 65 c) as [L1|L1], (Z_le_dec c 90) as [U1|U1];
    [ rewrite (rot13_cp_upper c) by lia;
      rewrite rot13_cp_upper; Z.div_mod_to_equations; lia | | | ];
    (destruct (Z_le_dec 97 c) as [L2|L2], (Z_le_dec c 122) as [U2|U2];
     [ rewrite (rot13_cp_lower c) by lia;
       rewrite rot13_cp_lower; Z.div_mod_to_equations; lia
     | rewrite (rot13_cp_other c) by lia;
       apply rot13_cp_other; lia ..]).
Qed.

Lemma rot13_involutive (s : text) : rot13 (rot13 s) = s.
Proof.
  unfold rot13. rewrite map_map.
  induction s as [|c s IH]; [reflexivity|].
  cbn [map]. rewrite rot13_cp_involutive, IH. reflexivity.
Qed.

(** ** The monad *)

Lemma bind_ok {A B} (c : M A) (k : A -> M B) (w w' : world) (a : A) :
  c w = (Ok a, w') -> bind c k w = k a w'.
Proof. intros E. unfold bind. rewrite E. reflexivity. Qed.

Lemma bind_raise {A B} (c : M A) (k : A -> M B) (w w' : world) (e : exn) :
  c w = (Raise e, w') -> bind c k w = (Raise e, w').
Proof. intros E. unfold bind. rewrite E. reflexivity. Qed.

Lemma drawn_drawn (n m : nat) (w : world) :
  drawn n (drawn m w) = drawn (n + m) w.
Proof. unfold drawn. cbn. f_equal. lia. Qed.

(** ** The weighted draw of a file (C10) *)

Lemma fold_left_add (ws : list Z) (a : Z) :
  fold_left Z.add ws a = a + fold_right Z.add 0 ws.
Proof.
  revert a. induction ws as [|x ws IH]; intros a; cbn; [lia|].
  rewrite IH. lia.
Qed.

Lemma rselect_scan_finds (fortune_files : list string) (rand_limit : Z)
      (weights : list Z) :
  forall (total : Z) (i : nat),
    total < rand_limit ->
    rand_limit <= total + fold_right Z.add 0 weights ->
    (i + List.length weights <= List.length fortune_files)%nat ->
    exists (k : nat) (fortune_file : string),
      nth_error fortune_files (i + k) = Some fortune_file
      /\ rselect_scan fortune_files rand_limit weights total i
         = Ok fortune_file
      /\ rand_limit <= total + cumulative_weight weights (S k)
      /\ forall j, (j < k)%nat ->
                   total + cumulative_weight weights (S j) < rand_limit.
Proof.
  induction weights as [|weight rest IH]; intros total i Hlt Hle Hlen.
  - cbn in Hle. lia.
  - cbn [rselect_scan]. cbn [fold_right List.length] in Hle, Hlen.
    destruct (Z.leb_spec rand_limit (total + weight)) as [Hr|Hr].
    + destruct (nth_error fortune_files i) as [f|] eqn:Ef.
      * exists 0%nat, f. rewrite Nat.add_0_r.
        split; [exact Ef|]. split; [reflexivity|].
        split; [unfold cumulative_weight; cbn; lia|]. intros j Hj. lia.
      * apply nth_error_None in Ef. lia.
    + destruct (IH (total + weight) (S i)) as (k & f & Hn & Hs & Hc & Hbefore);
        [lia|lia|lia|].
      exists (S k), f. rewrite Nat.add_succ_r.
      split; [exact Hn|]. split; [exact Hs|].
      unfold cumulative_weight in *. cbn [firstn fold_right] in *.
      split; [lia|].
      intros [|j] Hj; [cbn; lia|].
      specialize (Hbefore j ltac:(lia)). cbn [firstn fold_right] in *. lia.
Qed.

Lemma randbelow_ok (entropy : nat -> Z) (n : Z) (w : world) :
  0 < n ->
  randbelow entropy n w = (Ok (entropy (draws w) mod n), drawn 1 w)
  /\ 0 <= entropy (draws w) mod n < n.
Proof.
  intros Hn. unfold randbelow.
  rewrite (proj2 (Z.leb_gt _ _)) by lia.
  split; [reflexivity|]. apply Z.mod_pos_bound. exact Hn.
Qed.

(** C10. For a non-empty list of files and as many non-negative weights
    with a positive total, [rselect_fortune_file] draws a value in
    [[1, total]] and returns the file at the first position whose
    cumulative weight reaches it; the statement after the scan loop is
    not reached. *)
Theorem rselect_fortune_file_returns_member
        (entropy : nat -> Z) (fortune_files : list string)
        (weights : list Z) (w : world) :
  fortune_files <> [] ->
  List.length weights = List.length fortune_files ->
  Forall (fun weight => 0 <= weight) weights ->
  0 < spec_total_raw_weight weights ->
  let total := spec_total_raw_weight weights in
  let rand_limit := entropy (draws w) mod total + 1 in
  1 <= rand_limit <= total
  /\ exists (i : nat) (fortune_file : string),
      nth_error fortune_files i = Some fortune_file
      /\ rselect_fortune_file entropy fortune_files (Some weights) w
         = (Ok fortune_file, drawn 1 w)
      /\ rand_limit <= cumulative_weight weights (S i)
      /\ forall j, (j < i)%nat -> cumulative_weight weights (S j) < rand_limit.
Proof.
  intros _ Hlen _ Hpos total rand_limit.
  destruct (randbelow_ok entropy total w Hpos) as [Er Hr].
  split; [subst rand_limit; lia|].
  destruct (rselect_scan_finds fortune_files rand_limit weights 0 0)
    as (k & f & Hn & Hs & Hc & Hbefore).
  - subst rand_limit. lia.
  - subst rand_limit total. unfold spec_total_raw_weight in *. lia.
  - lia.
  - exists k, f. split; [exact Hn|]. split; [|split; [lia|]].
    + unfold rselect_fortune_file.
      rewrite fold_left_add, Z.add_0_l.
      fold (spec_total_raw_weight weights). fold total.
      rewrite (bind_ok _ _ _ _ _ Er). unfold lift.
      fold rand_limit. rewrite Hs. reflexivity.
    + intros j Hj. specialize (Hbefore j Hj). lia.
Qed.

Lemma rselect_fortune_file_returns_member_witness :
  rselect_fortune_file (fun _ => 4) ["a"; "b"; "c"]%string (Some [2; 0; 5])
                       initial_world
  = (Ok "c"%string, drawn 1 initial_world).
Proof.
  destruct (rselect_fortune_file_returns_member
              (fun _ => 4) ["a"; "b"; "c"]%string [2; 0; 5] initial_world)
    as (_ & i & f & Hn & Hr & Hc & _).
  - discriminate.
  - reflexivity.
  - repeat constructor; lia.
  - reflexivity.
  - rewrite Hr. f_equal. f_equal.
    destruct i as [|[|[|i]]]; cbn in Hn, Hc.
    + unfold cumulative_weight in Hc. cbn in Hc. lia.
    + unfold cumulative_weight in Hc. cbn in Hc. lia.
    + congruence.
    + destruct i; discriminate.
Defined.

(** ** The search loop (C2, C9) *)

Lemma choice_member {A} (entropy : nat -> Z) (seq : list A) (w : world) :
  seq <> [] ->
  exists a, In a seq /\ choice entropy seq w = (Ok a, drawn 1 w).
Proof.
  intros Hne. destruct seq as [|x seq]; [contradiction|].
  unfold choice.
  set (l := x :: seq) in *.
  assert (Hl : 0 < len l) by (unfold len, l; cbn [List.length]; lia).
  destruct (randbelow_ok entropy (len l) w Hl) as [Er Hr].
  rewrite (bind_ok _ _ _ _ _ Er).
  destruct (nth_error l (Z.to_nat (entropy (draws w) mod len l)))
    as [a|] eqn:Ea.
  - exists a. split; [exact (nth_error_In _ _ Ea)|reflexivity].
  - apply nth_error_None in Ea. unfold len in *. lia.
Qed.

Lemma rselect_member (entropy : nat -> Z) (fortune_files : list string)
      (weights : option (list Z)) (w : world) :
  drawable fortune_files weights ->
  exists fortune_file,
    In fortune_file fortune_files
    /\ rselect_fortune_file entropy fortune_files weights w
       = (Ok fortune_file, drawn 1 w).
Proof.
  intros [Hne Hw]. destruct weights as [ws|].
  - destruct Hw as [Hlen Hpos].
    destruct (randbelow_ok entropy (spec_total_raw_weight ws) w Hpos)
      as [Er Hr].
    destruct (rselect_scan_finds
                fortune_files
                (entropy (draws w) mod spec_total_raw_weight ws + 1) ws 0 0)
      as (k & f & Hn & Hs & _); [lia|unfold spec_total_raw_weight in *; lia|lia|].
    exists f. split; [exact (nth_error_In _ _ Hn)|].
    unfold rselect_fortune_file. rewrite fold_left_add, Z.add_0_l.
    fold (spec_total_raw_weight ws).
    rewrite (bind_ok _ _ _ _ _ Er). unfold lift. rewrite Hs. reflexivity.
  - apply choice_member. exact Hne.
Qed.

(** One rejected draw: what an iteration of the loop does when every
    record is out of bounds. *)
Lemma search_loop_rejects (fs : filesystem) (entropy : nat -> Z)
      (fuel : nat) (fortune_files : list string) (weights : option (list Z))
      (min_length : Z) (max_length : option Z) (attempt : Z) (w : world) :
  drawable fortune_files weights ->
  all_rejected fs fortune_files min_length max_length ->
  search_loop fs entropy (S fuel) fortune_files weights min_length max_length
              attempt w
  = if ATTEMPTS <? attempt + 1
    then (Ok [], mkWorld (2 + draws w) (stderr w ++ [MSG_GIVEN_UP]))
    else search_loop fs entropy fuel fortune_files weights min_length
                     max_length (attempt + 1) (drawn 2 w).
Proof.
  intros Hd Hrej. cbn [search_loop].
  destruct (rselect_member entropy fortune_files weights w Hd)
    as (f & Hf & Es).
  rewrite (bind_ok _ _ _ _ _ Es).
  destruct (Hrej f Hf) as (data & Hdata & Hne & Hall).
  unfold fortune_file_data at 1. rewrite Hdata.
  unfold bind at 1. unfold ret at 1.
  destruct (choice_member entropy data (drawn 1 w) Hne) as ([s l] & Hin & Ec).
  rewrite (bind_ok _ _ _ _ _ Ec). rewrite drawn_drawn.
  rewrite Forall_forall in Hall. specialize (Hall _ Hin). cbn [snd] in Hall.
  rewrite Hall.
  destruct (ATTEMPTS <? attempt + 1); reflexivity.
Qed.

Lemma search_loop_gives_up_from (fs : filesystem) (entropy : nat -> Z)
      (fortune_files : list string) (weights : option (list Z))
      (min_length : Z) (max_length : option Z) :
  drawable fortune_files weights ->
  all_rejected fs fortune_files min_length max_length ->
  forall (fuel : nat) (attempt : Z) (w : world),
    0 <= attempt <= ATTEMPTS ->
    (Z.to_nat (ATTEMPTS - attempt) < fuel)%nat ->
    search_loop fs entropy fuel fortune_files weights min_length max_length
                attempt w
    = (Ok [], mkWorld (Z.to_nat (2 * (ATTEMPTS + 1 - attempt)) + draws w)
                      (stderr w ++ [MSG_GIVEN_UP])).
Proof.
  intros Hd Hrej.
  induction fuel as [|fuel IH]; intros attempt w Ha Hfuel; [lia|].
  rewrite search_loop_rejects by assumption.
  destruct (Z.ltb_spec ATTEMPTS (attempt + 1)) as [Hlast|Hmore].
  - replace attempt with ATTEMPTS by lia.
    replace (2 * (ATTEMPTS + 1 - ATTEMPTS)) with 2 by lia. reflexivity.
  - rewrite IH by lia. unfold drawn. cbn [draws stderr]. f_equal. f_equal.
    lia.
Qed.

Lemma search_loop_still_running (fs : filesystem) (entropy : nat -> Z)
      (fortune_files : list string) (weights : option (list Z))
      (min_length : Z) (max_length : option Z) :
  drawable fortune_files weights ->
  all_rejected fs fortune_files min_length max_length ->
  forall (fuel : nat) (attempt : Z) (w : world),
    0 <= attempt ->
    attempt + Z.of_nat fuel <= ATTEMPTS ->
    search_loop fs entropy fuel fortune_files weights min_length max_length
                attempt w
    = (OutOfFuel, drawn (2 * fuel) w).
Proof.
  intros Hd Hrej.
  induction fuel as [|fuel IH]; intros attempt w Ha Hfuel.
  - cbn. unfold lift, drawn. destruct w; reflexivity.
  - rewrite search_loop_rejects by assumption.
    rewrite (proj2 (Z.ltb_ge _ _)) by lia.
    rewrite IH by lia. rewrite drawn_drawn. f_equal. f_equal. lia.
Qed.

(** C2 (fails on the code by one). When every record that can be drawn
    is out of the length bounds, [get_random_fortune] ends, without an
    exception, with the empty string and the diagnostic on standard
    error. It does so at the rejected attempt number
    [ATTEMPTS + 1 = 10001] (two numbers are drawn per attempt, one for the
    file and one for the record): after 10000 rejected attempts the loop
    is still running. *)
Theorem get_random_fortune_gives_up_after_10001_attempts
        (fs : filesystem) (entropy : nat -> Z) (fuel : nat)
        (fortunepaths : list string) (weighted : bool)
        (offensive : option bool) (min_length : Z) (max_length : option Z)
        (w w1 w2 : world) (ps : list (option float)) (files : list string)
        (weights : option (list Z)) :
  fortune_files_from_paths fs fortunepaths offensive w = (Ok (ps, files), w1) ->
  initial_weights fs weighted files ps w1 = (Ok weights, w2) ->
  drawable files weights ->
  all_rejected fs files min_length max_length ->
  (Z.to_nat ATTEMPTS < fuel)%nat ->
  get_random_fortune fs entropy fuel fortunepaths weighted offensive
                     min_length max_length w
  = (Ok [], mkWorld (Z.to_nat (2 * 10001) + draws w2)
                    (stderr w2 ++ [MSG_GIVEN_UP]))
  /\ get_random_fortune fs entropy (Z.to_nat 10000) fortunepaths weighted
                        offensive min_length max_length w
     = (OutOfFuel, drawn (2 * Z.to_nat 10000) w2).
Proof.
  intros Hres Hw Hd Hrej Hfuel. unfold get_random_fortune.
  rewrite !(bind_ok _ _ _ _ _ Hres), !(bind_ok _ _ _ _ _ Hw). split.
  - rewrite (search_loop_gives_up_from fs entropy files weights
               min_length max_length Hd Hrej fuel 0 w2);
      [reflexivity|unfold ATTEMPTS; lia|].
    rewrite Z.sub_0_r. exact Hfuel.
  - apply search_loop_still_running; try assumption; [lia|].
    unfold ATTEMPTS. lia.
Qed.

Lemma get_random_fortune_gives_up_after_10001_attempts_witness :
  get_random_fortune (single_file_fs "f" [] [(0, 5)]) zero_entropy
                     (S (Z.to_nat ATTEMPTS)) ["f"%string] true None
                     1000 (Some 1000) initial_world
  = (Ok [], mkWorld (Z.to_nat (2 * 10001) + 0) [MSG_GIVEN_UP]).
Proof.
  apply (get_random_fortune_gives_up_after_10001_attempts
           (single_file_fs "f" [] [(0, 5)]) zero_entropy
           (S (Z.to_nat ATTEMPTS)) ["f"%string] true None 1000 (Some 1000)
           initial_world initial_world initial_world
           [None] ["f"%string] (Some [1])).
  - reflexivity.
  - reflexivity.
  - split; [discriminate|]. split; reflexivity.
  - intros f [<-|[]]. exists [(0, 5)].
    split; [reflexivity|]. split; [discriminate|].
    constructor; [reflexivity|constructor].
  - apply Nat.lt_succ_diag_r.
Defined.

(** ** Binary64 arithmetic *)

Lemma py_add_floats (x y : float) :
  py_add (Float x) (Float y) = Ok (Float (float_add x y)).
Proof. reflexivity. Qed.

Lemma py_add_zero_float (y : float) :
  py_add (Int 0) (Float y) = Ok (Float (float_add (Z2F 0) y)).
Proof. reflexivity. Qed.

Lemma float_of_int_cases (z : Z) :
  float_of_int z = Ok (Z2F z) \/ float_of_int z = Raise OverflowError.
Proof.
  unfold float_of_int. destruct (Z2F z); [left|right|left|left]; reflexivity.
Qed.

Lemma float_of_int_ends (z : Z) : float_of_int z <> OutOfFuel.
Proof. destruct (float_of_int_cases z) as [E|E]; rewrite E; discriminate. Qed.

Lemma to_float_ends (a : num) : to_float a <> OutOfFuel.
Proof. destruct a; [apply float_of_int_ends|discriminate]. Qed.

Lemma rbind_ends {A B} (r : result A) (k : A -> result B) :
  r <> OutOfFuel -> (forall a, k a <> OutOfFuel) -> rbind r k <> OutOfFuel.
Proof.
  intros Hr Hk. destruct r; cbn [rbind];
    [apply Hk|discriminate|contradiction].
Qed.

Lemma py_arith_ends (int_op : Z -> Z -> Z)
      (float_op : float -> float -> float) (a b : num) :
  py_arith int_op float_op a b <> OutOfFuel.
Proof.
  unfold py_arith. destruct a as [a|a], b as [b|b]; try discriminate;
    (apply rbind_ends; [apply to_float_ends|]; intros x;
     apply rbind_ends; [apply to_float_ends|]; discriminate).
Qed.

Lemma py_div_ends (a : num) (b : float) : py_div a b <> OutOfFuel.
Proof.
  unfold py_div. apply rbind_ends; [apply to_float_ends|]. intros x.
  destruct (is_float_zero b); discriminate.
Qed.

Lemma py_rdiv_ends (a : float) (b : num) : py_rdiv a b <> OutOfFuel.
Proof.
  unfold py_rdiv. apply rbind_ends; [apply to_float_ends|]. intros y.
  destruct (is_float_zero y); discriminate.
Qed.

Lemma py_round_ends (x : float) : py_round x <> OutOfFuel.
Proof. destruct x; discriminate. Qed.

Lemma float_abs_idempotent (x : float) : float_abs (float_abs x) = float_abs x.
Proof. destruct x; reflexivity. Qed.

(** The sum of a list of binary64 numbers, as [sum] forms it. *)
Lemma py_sum_from (values : list float) :
  forall acc : float,
    fold_left (fun acc v => rbind acc (fun a => py_add a (Float v)))
              values (Ok (Float acc))
    = Ok (Float (fold_left float_add values acc)).
Proof.
  induction values as [|v values IH]; intros acc; [reflexivity|].
  cbn [fold_left rbind]. rewrite py_add_floats. apply IH.
Qed.

Lemma py_sum_binary64 (values : list float) :
  py_sum values = Ok (binary64_sum values).
Proof.
  destruct values as [|v values]; [reflexivity|].
  unfold py_sum. cbn [fold_left rbind]. rewrite py_add_zero_float.
  apply py_sum_from.
Qed.

Lemma given_values_set_values (percentages : list (option float)) :
  given_values percentages = map float_abs (set_values percentages).
Proof.
  induction percentages as [|[p|] ps IH].
  - reflexivity.
  - change (given_values (Some p :: ps)) with (float_abs p :: given_values ps).
    change (set_values (Some p :: ps)) with (p :: set_values ps).
    cbn [map]. rewrite IH. reflexivity.
  - exact IH.
Qed.

Lemma py_sum_given_values (percentages : list (option float)) :
  py_sum (given_values percentages) = Ok (binary64_abs_sum percentages).
Proof.
  rewrite given_values_set_values. apply py_sum_binary64.
Qed.

(** ** The weight calculator (C3, C4) *)

Lemma weight_sums_from_float (weights : list Z) :
  forall (percentages : list (option float)) (a b : Z) (c : float),
    List.length weights = List.length percentages ->
    fold_left weight_sums_step (combine weights percentages)
              (Ok (a, b, Float c))
    = Ok (a + spec_total_raw_weight weights,
          b + spec_sum_of_unset_raw_weights weights percentages,
          Float (fold_left float_add (set_values percentages) c)).
Proof.
  induction weights as [|w ws IH]; intros [|p ps] a b c Hlen;
    try discriminate.
  - cbn. rewrite !Z.add_0_r. reflexivity.
  - cbn [List.length] in Hlen. injection Hlen as Hlen.
    cbn [combine fold_left]. unfold weight_sums_step at 2.
    cbn [rbind fst snd]. destruct p as [p|].
    + rewrite py_add_floats. cbn [rbind]. rewrite (IH ps _ _ _ Hlen).
      change (set_values (Some p :: ps)) with (p :: set_values ps).
      cbn [fold_left spec_sum_of_unset_raw_weights].
      unfold spec_total_raw_weight. cbn [fold_right].
      rewrite <- !Z.add_assoc. reflexivity.
    + rewrite (IH ps _ _ _ Hlen).
      change (set_values (None :: ps)) with (set_values ps).
      cbn [spec_sum_of_unset_raw_weights].
      unfold spec_total_raw_weight. cbn [fold_right].
      rewrite <- !Z.add_assoc. reflexivity.
Qed.

Lemma weight_sums_from_int (weights : list Z) :
  forall (percentages : list (option float)) (a b : Z),
    List.length weights = List.length percentages ->
    fold_left weight_sums_step (combine weights percentages)
              (Ok (a, b, Int 0))
    = Ok (a + spec_total_raw_weight weights,
          b + spec_sum_of_unset_raw_weights weights percentages,
          binary64_sum (set_values percentages)).
Proof.
  induction weights as [|w ws IH]; intros [|p ps] a b Hlen;
    try discriminate.
  - cbn. rewrite !Z.add_0_r. reflexivity.
  - cbn [List.length] in Hlen. injection Hlen as Hlen.
    cbn [combine fold_left]. unfold weight_sums_step at 2.
    cbn [rbind fst snd]. destruct p as [p|].
    + rewrite py_add_zero_float. cbn [rbind].
      rewrite (weight_sums_from_float ws ps _ _ _ Hlen).
      change (set_values (Some p :: ps)) with (p :: set_values ps).
      cbn [binary64_sum spec_sum_of_unset_raw_weights].
      unfold spec_total_raw_weight. cbn [fold_right].
      rewrite <- !Z.add_assoc. reflexivity.
    + rewrite (IH ps _ _ Hlen).
      change (set_values (None :: ps)) with (set_values ps).
      cbn [spec_sum_of_unset_raw_weights].
      unfold spec_total_raw_weight. cbn [fold_right].
      rewrite <- !Z.add_assoc. reflexivity.
Qed.

(** The three totals of the first loop. *)
Lemma weight_sums_spec (weights : list Z) (percentages : list (option float)) :
  List.length weights = List.length percentages ->
  weight_sums weights percentages
  = Ok (spec_total_raw_weight weights,
        spec_sum_of_unset_raw_weights weights percentages,
        binary64_sum (set_values percentages)).
Proof.
  intros Hlen. unfold weight_sums.
  rewrite (weight_sums_from_int weights percentages 0 0 Hlen).
  reflexivity.
Qed.

Lemma float_of_int_100 : float_of_int 100 = Ok float_100.
Proof. reflexivity. Qed.

(** The body of the second loop, read as the two formulas. *)
Lemma adjusted_weight_formula (T F : Z) (S : num) (w : Z)
      (p : option float) :
  adjusted_weight (T, F, S) (w, p) = binary64_final_weight T F S w p.
Proof.
  unfold adjusted_weight, binary64_final_weight. cbn [fst snd].
  destruct p as [p|].
  - unfold py_mul, py_arith. cbn [to_float rbind].
    destruct (float_of_int T) as [t| |]; cbn [rbind]; reflexivity.
  - destruct S as [s|s].
    + unfold py_sub, py_mul, py_arith. cbn [rbind].
      unfold py_div. cbn [to_float].
      destruct (float_of_int_cases (100 * F)) as [E|E],
               (float_of_int_cases (w * (100 - s) * T)) as [E'|E'];
        rewrite E, E'; cbn [rbind]; try reflexivity;
        destruct (is_float_zero (Z2F (100 * F))); reflexivity.
    + unfold py_sub, py_arith. cbn [to_float]. rewrite float_of_int_100.
      cbn [rbind]. unfold py_mul, py_arith. cbn [to_float rbind].
      destruct (float_of_int w) as [x| |]; cbn [rbind]; try reflexivity.
      destruct (float_of_int T) as [t| |]; cbn [rbind]; try reflexivity.
      unfold py_div. cbn [to_float rbind].
      destruct (float_of_int (100 * F)) as [d| |]; cbn [rbind];
        try reflexivity.
      destruct (is_float_zero d); reflexivity.
Qed.

Lemma rmap_ext {A B} (f g : A -> result B) (l : list A) :
  (forall a, f a = g a) -> rmap f l = rmap g l.
Proof.
  intros H. induction l as [|a l IH]; [reflexivity|].
  cbn [rmap]. rewrite H, IH. reflexivity.
Qed.

Lemma adjust_weights_formulas
      (rawWeights : list Z) (percentages : list (option float)) :
  List.length rawWeights = List.length percentages ->
  adjust_weights_with_percentages rawWeights percentages
  = rmap (fun wp =>
            binary64_final_weight
              (spec_total_raw_weight rawWeights)
              (spec_sum_of_unset_raw_weights rawWeights percentages)
              (binary64_sum (set_values percentages))
              (fst wp) (snd wp))
         (combine rawWeights percentages).
Proof.
  intros Hlen. unfold adjust_weights_with_percentages.
  rewrite (weight_sums_spec _ _ Hlen). cbn [rbind].
  apply rmap_ext. intros [w p]. apply adjusted_weight_formula.
Qed.

(** C4 (counterexample). Three files of three records with the binary64
    third of ten percent each and a file of six records with ninety
    percent: the program rounds [(10/3) * 15] to the binary64 number
    [50.0] and its hundredth [0.5] to the integer [0], where the value of
    the formula over the given numbers is above one half and rounds
    to [1]. *)
Lemma rounded_products_change_the_weights :
  adjust_weights_with_percentages
    [3; 3; 3; 6]
    [Some (third_of 10); Some (third_of 10); Some (third_of 10);
     Some (Z2F 90)]
  = Ok [0; 0; 0; 14]
  /\ spec_apply_weights
       [3; 3; 3; 6]
       (exact_values [Some (third_of 10); Some (third_of 10);
                      Some (third_of 10); Some (Z2F 90)])
     = [1; 1; 1; 14]
  /\ has_unset [Some (third_of 10); Some (third_of 10); Some (third_of 10);
                Some (Z2F 90)] = false.
Proof.
  split; [vm_compute; reflexivity|].
  split; [vm_compute; reflexivity|reflexivity].
Qed.

(** C4 (amended). For lists of equal length the result is, position by
    position, the value of the two formulas in binary64 arithmetic:
    [round((percentage * float(totalRawWeight)) / 100.0)] for a set
    entry and [round((rawWeight * (100 - sumOfSetPercentages)
    * totalRawWeight) / float(100 * sumOfRawWeightsOfUnsetFiles))] for an
    unset one, where [sumOfSetPercentages] is the binary64 sum of the set
    entries from left to right (the integer [0] when there is none) and
    every product and quotient is rounded to binary64 before it is used;
    the first position at which a formula has no value (a zero divisor, a
    number out of range) gives its exception to the whole call. *)
Theorem adjust_weights_matches_formulas
        (rawWeights : list Z) (percentages : list (option float)) :
  List.length rawWeights = List.length percentages ->
  adjust_weights_with_percentages rawWeights percentages
  = rmap (fun wp =>
            binary64_final_weight
              (spec_total_raw_weight rawWeights)
              (spec_sum_of_unset_raw_weights rawWeights percentages)
              (binary64_sum (set_values percentages))
              (fst wp) (snd wp))
         (combine rawWeights percentages).
Proof.
  intros Hlen. unfold adjust_weights_with_percentages.
  rewrite (weight_sums_spec _ _ Hlen). cbn [rbind].
  apply rmap_ext. intros [w p]. apply adjusted_weight_formula.
Qed.

Lemma adjust_weights_matches_formulas_witness :
  adjust_weights_with_percentages [10; 10; 10] [Some (Z2F 50); None; None]
  = Ok [15; 8; 8].
Proof.
  rewrite (adjust_weights_matches_formulas [10; 10; 10]
                                           [Some (Z2F 50); None; None]).
  - vm_compute. reflexivity.
  - reflexivity.
Defined.

Lemma binary64_final_weight_zero_divisor (T : Z) (S : num) (w : Z) :
  exists e, binary64_final_weight T 0 S w None = Raise e.
Proof.
  unfold binary64_final_weight.
  change (float_of_int (100 * 0)) with (Ok (Z2F 0)).
  change (is_float_zero (Z2F 0)) with true.
  destruct S as [s|s].
  - destruct (float_of_int_cases (w * (100 - s) * T)) as [E|E]; rewrite E;
      cbn [rbind]; eexists; reflexivity.
  - destruct (float_of_int_cases w) as [E|E]; rewrite E; cbn [rbind];
      [|eexists; reflexivity].
    destruct (float_of_int_cases T) as [E'|E']; rewrite E'; cbn [rbind];
      eexists; reflexivity.
Qed.

Lemma binary64_final_weight_ends (T F : Z) (S : num) (w : Z)
      (p : option float) :
  binary64_final_weight T F S w p <> OutOfFuel.
Proof.
  unfold binary64_final_weight. destruct p as [p|].
  - apply rbind_ends; [apply float_of_int_ends|]. intros t.
    apply py_round_ends.
  - apply rbind_ends.
    + destruct S as [s|s]; [apply float_of_int_ends|].
      apply rbind_ends; [apply float_of_int_ends|]. intros x.
      apply rbind_ends; [apply float_of_int_ends|]. discriminate.
    + intros n. apply rbind_ends; [apply float_of_int_ends|]. intros d.
      destruct (is_float_zero d); [discriminate|apply py_round_ends].
Qed.

Lemma rmap_raises {A B} (f : A -> result B) (l : list A) :
  (forall a, f a <> OutOfFuel) ->
  (exists a, In a l /\ exists e, f a = Raise e) ->
  exists e, rmap f l = Raise e.
Proof.
  intros Hends. induction l as [|a l IH]; intros (x & Hx & e & He).
  - destruct Hx.
  - cbn [rmap]. destruct (f a) as [b|e'|] eqn:Ea; cbn [rbind].
    + destruct Hx as [->|Hx]; [congruence|].
      destruct (IH (ex_intro _ x (conj Hx (ex_intro _ e He)))) as [e' E].
      rewrite E. cbn [rbind]. exists e'. reflexivity.
    + exists e'. reflexivity.
    + exfalso. exact (Hends a Ea).
Qed.

Lemma has_unset_in {A} (percentages : list (option A)) :
  has_unset percentages = true -> In None percentages.
Proof.
  unfold has_unset. intros H. apply existsb_exists in H.
  destruct H as ([p|] & Hin & Hp); [discriminate|exact Hin].
Qed.

Lemma in_combine_unset (weights : list Z) :
  forall percentages : list (option float),
    List.length weights = List.length percentages ->
    In None percentages ->
    exists w, In (w, None) (combine weights percentages).
Proof.
  induction weights as [|w ws IH]; intros [|p ps] Hlen Hin;
    try discriminate; [destruct Hin|].
  cbn [List.length] in Hlen. injection Hlen as Hlen.
  destruct Hin as [->|Hin].
  - exists w. left. reflexivity.
  - destruct (IH ps Hlen Hin) as [w' Hw']. exists w'. right. exact Hw'.
Qed.

(** C3 (fails on the code). When an entry is unset and the raw weights of
    the unset entries sum to zero, no list of weights is returned: an
    exception leaves [adjust_weights_with_percentages]. On the weights
    [5, 0] with the percentages [50.0, None] it is [ZeroDivisionError],
    and [get_random_fortune] on the path entries [50% a b], where the
    index of [b] is empty, ends with it before a number is drawn. *)
Theorem adjust_weights_zero_divisor :
  (forall (rawWeights : list Z) (percentages : list (option float)),
      List.length rawWeights = List.length percentages ->
      has_unset percentages = true ->
      spec_sum_of_unset_raw_weights rawWeights percentages = 0 ->
      exists e,
        adjust_weights_with_percentages rawWeights percentages = Raise e)
  /\ adjust_weights_with_percentages [5; 0] [Some (Z2F 50); None]
     = Raise ZeroDivisionError
  /\ forall (entropy : nat -> Z) (fuel : nat),
      get_random_fortune empty_index_fs entropy fuel
                         ["50%"; "a"; "b"]%string true None 0 None
                         initial_world
      = (Raise ZeroDivisionError, initial_world).
Proof.
  split; [|split].
  - intros rawWeights percentages Hlen Hu HF.
    rewrite (adjust_weights_formulas _ _ Hlen), HF.
    apply rmap_raises.
    + intros [w p]. apply binary64_final_weight_ends.
    + destruct (in_combine_unset rawWeights percentages Hlen
                                 (has_unset_in _ Hu)) as [w Hw].
      exists (w, None). split; [exact Hw|].
      apply binary64_final_weight_zero_divisor.
  - vm_compute. reflexivity.
  - intros entropy fuel. vm_compute. reflexivity.
Qed.

Lemma adjust_weights_zero_divisor_witness :
  exists e,
    adjust_weights_with_percentages [0; 7; 0] [None; Some (Z2F 20); None]
    = Raise e.
Proof.
  apply (proj1 adjust_weights_zero_divisor
               [0; 7; 0] [None; Some (Z2F 20); None]); reflexivity.
Defined.

(** ** Validation of the percentages (C8) *)

Lemma check_percentages_too_much (percentages : list (option float))
      (w : world) :
  py_gt (binary64_abs_sum percentages) float_100 = true ->
  check_percentages percentages w
  = (Raise (SystemExit 2), mkWorld (draws w) (stderr w ++ [MSG_TOO_MUCH])).
Proof.
  intros H. unfold check_percentages.
  rewrite py_sum_given_values. unfold bind at 1. unfold lift at 1.
  rewrite H. reflexivity.
Qed.

(** C8 (counterexample). The path entries [97% d 3% a], where the
    directory [d] holds three files: each file of [d] gets the binary64
    quotient [97 / 3.0], which lies above the third of 97, so the four
    percentages sum to more than 100; their binary64 sum from left to
    right is [100.0], and the resolver returns its percentages. *)
Lemma rounded_sum_is_accepted :
  percentages (resolve directory_fs None ["97%"; "d"; "3%"; "a"]%string)
  = [Some (third_of 97); Some (third_of 97); Some (third_of 97);
     Some (Z2F 3)]
  /\ (100 < spec_abs_sum
              (exact_values [Some (third_of 97); Some (third_of 97);
                             Some (third_of 97); Some (Z2F 3)]))%Q
  /\ check_percentages [Some (third_of 97); Some (third_of 97);
                        Some (third_of 97); Some (Z2F 3)] initial_world
     = (Ok [Some (third_of 97); Some (third_of 97); Some (third_of 97);
            Some (Z2F 3)], initial_world).
Proof.
  split; [vm_compute; reflexivity|].
  split; [vm_compute; reflexivity|vm_compute; reflexivity].
Qed.

(** C8 (amended). When the set entries of the percentages, each taken as
    its absolute value and added from left to right in binary64
    arithmetic, give a sum greater than [100.0], [check_percentages]
    prints its error message and leaves through [sys.exit(2)]; so does
    [get_random_fortune] on path entries that resolve to such
    percentages, before a single number is drawn from the random
    source. *)
Theorem percentages_above_100_are_fatal (ps : list (option float)) :
  py_gt (binary64_abs_sum ps) float_100 = true ->
  (forall w : world,
      check_percentages ps w
      = (Raise (SystemExit 2),
         mkWorld (draws w) (stderr w ++ [MSG_TOO_MUCH])))
  /\ forall (fs : filesystem) (entropy : nat -> Z) (fuel : nat)
            (fortunepaths : list string) (weighted : bool)
            (offensive : option bool) (min_length : Z)
            (max_length : option Z) (w : world),
      percentages (fold_left (resolver_step fs offensive) fortunepaths
                             (mkResolver [] [] None)) = ps ->
      get_random_fortune fs entropy fuel fortunepaths weighted offensive
                         min_length max_length w
      = (Raise (SystemExit 2),
         mkWorld (draws w) (stderr w ++ [MSG_TOO_MUCH])).
Proof.
  intros H. split.
  - intros w. apply check_percentages_too_much. exact H.
  - intros fs entropy fuel fortunepaths weighted offensive mn mx w Hps.
    unfold get_random_fortune, fortune_files_from_paths.
    rewrite Hps.
    pose proof (check_percentages_too_much ps w H) as E.
    unfold bind at 1. unfold bind at 1. rewrite E. reflexivity.
Qed.

Lemma percentages_above_100_are_fatal_witness :
  get_random_fortune (single_file_fs "a" [] [(0, 1)]) zero_entropy 1
                     ["60%"; "a"; "60%"; "b"]%string true None 0 None
                     initial_world
  = (Raise (SystemExit 2), mkWorld 0 [MSG_TOO_MUCH]).
Proof.
  apply (proj2 (percentages_above_100_are_fatal
                  [Some (Z2F 60); Some (Z2F 60)] eq_refl)).
  reflexivity.
Defined.

(** ** Percentage markers (C7) *)

(** C7 (fails on the code). The claim: an entry is a percentage marker
    if and only if it matches [^[0-9]{1,2}%$]. The pattern of the code has
    no anchor at its end and [match] only anchors the start: the entry
    ["10%abc"] does not match the claim's pattern, and the resolver takes
    it for the marker [10], adding no file for it. *)
Theorem percentage_marker_match_is_not_anchored_at_the_end :
  spec_percentage_marker "10%abc" = false
  /\ percentage_pattern_match "10%abc" = Some "10"%string
  /\ forall (fs : filesystem) (offensive : option bool) (st : resolver_state),
      resolver_step fs offensive st "10%abc"
      = mkResolver (fortune_files st) (percentages st) (Some "10"%string).
Proof. repeat split. Qed.

(** ** The search loop always ends

    Whatever is drawn, the loop of [get_random_fortune] has returned or
    raised after at most [ATTEMPTS + 1] iterations: the model never runs
    out of fuel when it is given that many. *)

Lemma rselect_scan_ends (fortune_files : list string) (rand_limit : Z)
      (weights : list Z) :
  forall (total : Z) (i : nat),
    rselect_scan fortune_files rand_limit weights total i <> OutOfFuel.
Proof.
  induction weights as [|weight rest IH]; intros total i; cbn [rselect_scan];
    [discriminate|].
  destruct (rand_limit <=? total + weight); [|apply IH].
  destruct (nth_error fortune_files i); discriminate.
Qed.

Lemma randbelow_ends (entropy : nat -> Z) (n : Z) (w : world) :
  fst (randbelow entropy n w) <> OutOfFuel.
Proof. unfold randbelow. destruct (n <=? 0); discriminate. Qed.

Lemma choice_ends {A} (entropy : nat -> Z) (seq : list A) (w : world) :
  fst (choice entropy seq w) <> OutOfFuel.
Proof.
  destruct seq as [|x seq]; [discriminate|].
  unfold choice, bind.
  pose proof (randbelow_ends entropy (len (x :: seq)) w) as H.
  destruct (randbelow entropy (len (x :: seq)) w) as [[i|e|] w1];
    [|discriminate|contradiction].
  destruct (nth_error (x :: seq) (Z.to_nat i)); discriminate.
Qed.

Lemma rselect_fortune_file_ends (entropy : nat -> Z)
      (fortune_files : list string) (weights : option (list Z)) (w : world) :
  fst (rselect_fortune_file entropy fortune_files weights w) <> OutOfFuel.
Proof.
  destruct weights as [ws|]; [|apply choice_ends].
  unfold rselect_fortune_file, bind, lift.
  pose proof (randbelow_ends entropy (fold_left Z.add ws 0) w) as H.
  destruct (randbelow entropy (fold_left Z.add ws 0) w) as [[r|e|] w1];
    [|discriminate|contradiction].
  cbn [fst]. apply rselect_scan_ends.
Qed.

Lemma extract_fortune_ends (fs : filesystem) (fortune_file : string)
      (start length : Z) (w : world) :
  fst (extract_fortune fs fortune_file start length w) <> OutOfFuel.
Proof.
  unfold extract_fortune. destruct (corpus fs fortune_file) as [content|];
    [|discriminate].
  unfold bind, lift, seek_read.
  destruct (start <? 0); [discriminate|].
  destruct (utf8_decode (skipn (Z.to_nat start) content)); [|discriminate].
  destruct (endswith fortune_file "-o"); discriminate.
Qed.

Lemma search_loop_ends (fs : filesystem) (entropy : nat -> Z)
      (fortune_files : list string) (weights : option (list Z))
      (min_length : Z) (max_length : option Z) :
  forall (fuel : nat) (attempt : Z) (w : world),
    0 <= attempt ->
    (Z.to_nat (ATTEMPTS - attempt) < fuel)%nat ->
    fst (search_loop fs entropy fuel fortune_files weights min_length
                     max_length attempt w) <> OutOfFuel.
Proof.
  induction fuel as [|fuel IH]; intros attempt w Ha Hfuel; [lia|].
  cbn [search_loop]. unfold bind at 1.
  pose proof (rselect_fortune_file_ends entropy fortune_files weights w) as H1.
  destruct (rselect_fortune_file entropy fortune_files weights w)
    as [[f|e|] w1]; [|discriminate|contradiction].
  unfold fortune_file_data, bind at 1.
  destruct (index_data fs (f ++ INDEX_EXT)) as [data|]; [|discriminate].
  unfold ret at 1. unfold bind at 1.
  pose proof (choice_ends entropy data w1) as H2.
  destruct (choice entropy data w1) as [[[start length]|e|] w2];
    [|discriminate|contradiction].
  destruct (out_of_bounds length min_length max_length);
    [|apply extract_fortune_ends].
  destruct (Z.ltb_spec ATTEMPTS (attempt + 1)); [discriminate|].
  apply IH; lia.
Qed.

(** What the loop returns is the empty string of the give-up exit, or the
    extraction of a record, within the bounds, of the index of one of the
    files. *)
Lemma choice_in {A} (entropy : nat -> Z) (seq : list A) (w w' : world)
      (a : A) :
  choice entropy seq w = (Ok a, w') -> In a seq.
Proof.
  destruct seq as [|x seq]; [discriminate|].
  unfold choice, bind.
  destruct (randbelow entropy (len (x :: seq)) w) as [[i|e|] w1];
    try discriminate.
  destruct (nth_error (x :: seq) (Z.to_nat i)) as [b|] eqn:E;
    [|discriminate].
  intros H. injection H as <- _. exact (nth_error_In _ _ E).
Qed.

Lemma search_loop_sound (fs : filesystem) (entropy : nat -> Z)
      (fortune_files : list string) (weights : option (list Z))
      (min_length : Z) (max_length : option Z) :
  forall (fuel : nat) (attempt : Z) (w w' : world) (t : text),
    search_loop fs entropy fuel fortune_files weights min_length max_length
                attempt w = (Ok t, w') ->
    (t = [] /\ exists w0, w' = mkWorld (draws w0) (stderr w0 ++ [MSG_GIVEN_UP]))
    \/ exists (f : string) (data : list (Z * Z)) (start length : Z)
              (w0 : world),
        index_data fs (f ++ INDEX_EXT)%string = Some data
        /\ In (start, length) data
        /\ out_of_bounds length min_length max_length = false
        /\ extract_fortune fs f start length w0 = (Ok t, w').
Proof.
  induction fuel as [|fuel IH]; intros attempt w w' t; [discriminate|].
  cbn [search_loop]. unfold bind at 1.
  destruct (rselect_fortune_file entropy fortune_files weights w)
    as [[f|e|] w1]; try discriminate.
  unfold fortune_file_data, bind at 1.
  destruct (index_data fs (f ++ INDEX_EXT)) as [data|] eqn:Hdata;
    [|discriminate].
  unfold ret at 1. unfold bind at 1.
  destruct (choice entropy data w1) as [[[start length]|e|] w2] eqn:Ec;
    try discriminate.
  apply choice_in in Ec.
  destruct (out_of_bounds length min_length max_length) eqn:Hb.
  - destruct (ATTEMPTS <? attempt + 1).
    + intros H. injection H as <- <-. left. split; [reflexivity|].
      exists w2. reflexivity.
    + apply IH.
  - intros H. right. exists f, data, start, length, w2. auto.
Qed.

(** * More of the code *)

(** ** The parser: what every stream gives ([read_fortunes]) *)

Lemma read_fortunes_loop_texts (lines : list text) :
  forall (fortune_lines : list text) (start pos : Z),
    List.concat (map snd (read_fortunes_loop lines fortune_lines start pos))
    = List.concat fortune_lines
      ++ List.concat
           (filter (fun line => negb (text_eqb line delimiter_line)) lines).
Proof.
  induction lines as [|line rest IH]; intros fl start pos;
    cbn [read_fortunes_loop filter].
  - destruct (text_eqb (List.concat fl) []) eqn:E.
    + apply text_eqb_eq in E. rewrite E. reflexivity.
    + cbn. rewrite !app_nil_r. reflexivity.
  - destruct (text_eqb line delimiter_line) eqn:Ed; cbn [negb].
    + destruct (pos =? 0); [apply IH|].
      rewrite map_app, concat_app, IH. cbn [List.concat app]. f_equal.
      destruct (text_eqb (List.concat fl) []) eqn:E.
      * apply text_eqb_eq in E. rewrite E. reflexivity.
      * cbn. apply app_nil_r.
    + rewrite IH, concat_app. cbn [List.concat]. rewrite app_nil_r.
      rewrite <- app_assoc. reflexivity.
Qed.

(** X1. The texts of the yielded records, one after the other, are the
    stream with its delimiter lines taken out: no line is lost, repeated
    or moved. *)
Theorem read_fortunes_keeps_every_line (stream : text) :
  List.concat (map snd (read_fortunes stream))
  = List.concat (text_lines stream).
Proof.
  unfold read_fortunes, text_lines. rewrite read_fortunes_loop_texts.
  reflexivity.
Qed.

Lemma text_eqb_neq (a b : text) : text_eqb a b = false -> a <> b.
Proof.
  intros E H. apply text_eqb_eq in H. rewrite H in E. discriminate.
Qed.

Lemma read_fortunes_loop_lengths (lines : list text) :
  forall (fortune_lines : list text) (start pos : Z),
    lengths_ok fortune_lines start pos ->
    forall (s l : Z) (f : text),
      In (s, l, f) (read_fortunes_loop lines fortune_lines start pos) ->
      f <> [] /\ 0 <= s /\ len f <= l <= byte_length f.
Proof.
  induction lines as [|line rest IH]; intros fl start pos [Hpos Hpend] s l f Hin;
    cbn [read_fortunes_loop] in Hin.
  - destruct (text_eqb (List.concat fl) []) eqn:E; [destruct Hin|].
    apply text_eqb_neq in E. destruct Hin as [H|[]]. injection H as <- <- <-.
    destruct Hpend as [[-> _]|(_ & Hs & Hl)]; [contradiction E; reflexivity|].
    pose proof (byte_length_ge_len (List.concat fl)). repeat split; try lia.
    exact E.
  - destruct (text_eqb line delimiter_line) eqn:Ed.
    + destruct (pos =? 0); [apply (IH fl start pos); [split|]; assumption|].
      apply in_app_or in Hin. destruct Hin as [Hin|Hin].
      * destruct (text_eqb (List.concat fl) []) eqn:E; [destruct Hin|].
        apply text_eqb_neq in E. destruct Hin as [H|[]].
        injection H as <- <- <-.
        destruct Hpend as [[-> _]|(_ & Hs & Hl)]; [contradiction E; reflexivity|].
        pose proof (byte_length_ge_len (List.concat fl)).
        repeat split; try lia. exact E.
      * apply (IH [] (-1) (pos + len (utf8_encode line))); [|exact Hin].
        split; [unfold len; lia|]. left. split; reflexivity.
    + apply (IH (fl ++ [line]) (if start =? -1 then pos else start)
                (pos + len (utf8_encode line))); [|exact Hin].
      split; [unfold len; lia|]. right.
      split; [intros H; apply app_eq_nil in H; destruct H; discriminate|].
      rewrite concat_app, byte_length_app. cbn [List.concat].
      rewrite app_nil_r. fold (byte_length line).
      destruct Hpend as [[-> ->]|(_ & Hs & Hl)].
      * cbn [List.concat]. change (byte_length []) with 0.
        rewrite Z.eqb_refl. lia.
      * destruct (Z.eqb_spec start (-1)); lia.
Qed.

(** X2. Whatever the stream, a yielded record has a non-empty text and a
    non-negative offset, and its length lies between the number of
    characters and the number of UTF-8 bytes of its text. *)
Theorem read_fortunes_length_bounds
        (stream : text) (start length : Z) (fortune : text) :
  In (start, length, fortune) (read_fortunes stream) ->
  fortune <> [] /\ 0 <= start
  /\ len fortune <= length <= byte_length fortune.
Proof.
  apply read_fortunes_loop_lengths.
  split; [lia|]. left. split; reflexivity.
Qed.

Lemma read_fortunes_length_bounds_witness :
  [233; LF] <> [] /\ 0 <= 0
  /\ len [233; LF] <= 2 <= byte_length [233; LF].
Proof.
  apply (read_fortunes_length_bounds [233; LF; 37; LF] 0 2 [233; LF]).
  left. reflexivity.
Defined.

Lemma is_ascii_byte_length (s : text) : is_ascii s -> byte_length s = len s.
Proof.
  induction 1 as [|c s Hc _ IH]; [reflexivity|].
  change (c :: s) with ([c] ++ s). rewrite byte_length_app, len_app, IH.
  f_equal. unfold byte_length. cbn [utf8_encode flat_map].
  unfold utf8_encode_cp. rewrite (proj2 (Z.ltb_lt c 128)) by lia.
  reflexivity.
Qed.

Lemma read_fortunes_text_in_stream (stream : text) (t : fortune_triple) :
  In t (read_fortunes stream) -> incl (snd t) stream.
Proof.
  intros Hin c Hc.
  assert (H : In c (List.concat (map snd (read_fortunes stream)))).
  { apply in_concat. exists (snd t). split; [apply in_map; exact Hin|exact Hc]. }
  unfold read_fortunes in H. rewrite read_fortunes_loop_texts in H. cbn [List.concat app] in H.
  apply in_concat in H. destruct H as (line & Hl & Hcl).
  apply filter_In in Hl. destruct Hl as [Hl _].
  rewrite <- (concat_splitlines stream). apply in_concat.
  exists line. split; assumption.
Qed.

(** X3. On a stream of ASCII characters the length of every yielded
    record is the number of bytes of its text. *)
Theorem read_fortunes_ascii_lengths
        (stream : text) (start length : Z) (fortune : text) :
  is_ascii stream ->
  In (start, length, fortune) (read_fortunes stream) ->
  length = byte_length fortune /\ length = len fortune.
Proof.
  intros Ha Hin.
  assert (Hf : is_ascii fortune).
  { unfold is_ascii in *. rewrite Forall_forall in *. intros c Hc.
    apply Ha. exact (read_fortunes_text_in_stream _ _ Hin c Hc). }
  pose proof (is_ascii_byte_length _ Hf) as E.
  destruct (read_fortunes_loop_lengths (splitlines stream) [] (-1) 0
              ltac:(split; [lia|left; split; reflexivity])
              start length fortune Hin) as (_ & _ & Hl).
  lia.
Qed.

Lemma read_fortunes_ascii_lengths_witness :
  4 = byte_length [66; LF; 67; LF] /\ 4 = len [66; LF; 67; LF].
Proof.
  apply (read_fortunes_ascii_lengths
           [65; LF; 37; LF; 66; LF; 67; LF; 37; LF; 68; LF] 4 4
           [66; LF; 67; LF]).
  - repeat constructor; unfold LF; lia.
  - right. left. reflexivity.
Defined.

Lemma ordered_from_weaken (out : list fortune_triple) (a b : Z) :
  b <= a -> ordered_from a out -> ordered_from b out.
Proof.
  destruct out as [|[[s l] f] rest]; [intros; exact I|].
  cbn [ordered_from]. intros Hab [Hs Hr]. split; [lia|exact Hr].
Qed.

Lemma read_fortunes_loop_ordered (lines : list text) :
  forall (fortune_lines : list text) (start pos : Z),
    lengths_ok fortune_lines start pos ->
    ordered_from (match fortune_lines with [] => pos | _ => start end)
                 (read_fortunes_loop lines fortune_lines start pos).
Proof.
  induction lines as [|line rest IH]; intros fl start pos [Hpos Hpend];
    cbn [read_fortunes_loop].
  - destruct (text_eqb (List.concat fl) []) eqn:E; [exact I|].
    apply text_eqb_neq in E.
    destruct Hpend as [[-> _]|(Hne & Hs & Hl)]; [contradiction E; reflexivity|].
    destruct fl; [contradiction|]. cbn [ordered_from]. split; [lia|exact I].
  - destruct (text_eqb line delimiter_line) eqn:Ed.
    + destruct (pos =? 0); [apply IH; split; assumption|].
      apply text_eqb_eq in Ed. subst line.
      assert (Hrec : ordered_from
                       (pos + 2)
                       (read_fortunes_loop
                          rest [] (-1)
                          (pos + len (utf8_encode delimiter_line)))).
      { apply (IH [] (-1) (pos + len (utf8_encode delimiter_line))).
        split; [unfold len; lia|]. left. split; reflexivity. }
      destruct (text_eqb (List.concat fl) []) eqn:E.
      * apply text_eqb_eq in E. cbn [app].
        apply (ordered_from_weaken _ (pos + 2)); [|exact Hrec].
        destruct Hpend as [[-> _]|(Hne & Hs & Hl)]; [lia|].
        rewrite E in Hl. change (byte_length []) with 0 in Hl.
        destruct fl; [contradiction|]. lia.
      * apply text_eqb_neq in E.
        destruct Hpend as [[-> _]|(Hne & Hs & Hl)];
          [contradiction E; reflexivity|].
        destruct fl as [|x fl]; [contradiction|].
        cbn [app ordered_from]. split; [lia|].
        replace (start + byte_length (List.concat (x :: fl)) + 2)
          with (pos + 2) by lia.
        exact Hrec.
    + assert (Hok : lengths_ok (fl ++ [line])
                               (if start =? -1 then pos else start)
                               (pos + len (utf8_encode line))).
      { split; [unfold len; lia|]. right.
        split; [intros H; apply app_eq_nil in H; destruct H; discriminate|].
        rewrite concat_app, byte_length_app. cbn [List.concat].
        rewrite app_nil_r. fold (byte_length line).
        destruct Hpend as [[-> ->]|(_ & Hs & Hl)].
        - cbn [List.concat]. change (byte_length []) with 0.
          rewrite Z.eqb_refl. lia.
        - destruct (Z.eqb_spec start (-1)); lia. }
      pose proof (IH _ _ _ Hok) as H.
      destruct fl as [|x fl].
      * destruct Hpend as [[_ ->]|(Hne & _)]; [|contradiction].
        rewrite Z.eqb_refl in H. exact H.
      * destruct Hpend as [[Hnil _]|(_ & Hs & _)]; [discriminate|].
        cbn [app] in H. destruct (Z.eqb_spec start (-1)); [lia|exact H].
Qed.

(** X4. The yielded records come in the order of the stream: their
    reported byte ranges start at 0 or later, do not overlap, and leave
    two bytes or more (a delimiter line) between one and the next. *)
Theorem read_fortunes_ordered (stream : text) :
  ordered_from 0 (read_fortunes stream).
Proof.
  apply (read_fortunes_loop_ordered (splitlines stream) [] (-1) 0).
  split; [lia|]. left. split; reflexivity.
Qed.

Lemma read_fortunes_drops_leading_delimiter (stream : text) :
  read_fortunes (delimiter_line ++ stream) = read_fortunes stream.
Proof. reflexivity. Qed.

Lemma read_fortunes_drops_leading_delimiters (k : nat) (rest : text) :
  read_fortunes (List.concat (repeat delimiter_line k) ++ rest)
  = read_fortunes rest.
Proof.
  induction k as [|k IH]; [reflexivity|].
  cbn [repeat List.concat]. rewrite <- app_assoc.
  rewrite read_fortunes_drops_leading_delimiter. exact IH.
Qed.

(** X5. A stream that begins with [k] delimiter lines yields every record
    with an offset [2 * k] bytes below the byte position of its text; with
    no delimiter line on top ([k = 0]) the offset is the byte position. *)
Theorem read_fortunes_offsets
        (k : nat) (rest : text) (start length : Z) (fortune : text) :
  firstn 2 rest <> delimiter_line ->
  In (start, length, fortune)
     (read_fortunes (List.concat (repeat delimiter_line k) ++ rest)) ->
  exists pre post : text,
    List.concat (repeat delimiter_line k) ++ rest = pre ++ fortune ++ post
    /\ byte_length pre = start + 2 * Z.of_nat k.
Proof.
  intros Hlead Hin. rewrite read_fortunes_drops_leading_delimiters in Hin.
  destruct (read_fortunes_sound rest _ Hlead Hin) as (pre & post & E & Hs & _).
  exists (List.concat (repeat delimiter_line k) ++ pre), post.
  split; [rewrite E, <- app_assoc; reflexivity|].
  rewrite byte_length_app, <- Hs.
  assert (Hk : byte_length (List.concat (repeat delimiter_line k))
               = 2 * Z.of_nat k).
  { clear. induction k as [|k IH]; [reflexivity|].
    cbn [repeat List.concat]. rewrite byte_length_app, IH.
    change (byte_length delimiter_line) with 2. lia. }
  lia.
Qed.

Lemma read_fortunes_offsets_witness :
  exists pre post : text,
    List.concat (repeat delimiter_line 1) ++ [233; LF; 37; LF; 66; LF]
    = pre ++ [66; LF] ++ post
    /\ byte_length pre = 5 + 2 * Z.of_nat 1.
Proof.
  apply (read_fortunes_offsets 1 [233; LF; 37; LF; 66; LF] 5 2 [66; LF]).
  - discriminate.
  - right. left. reflexivity.
Defined.

(** ** Validation and rescaling of the percentages ([check_percentages]) *)

Lemma rmap_ok {A B} (f : A -> result B) (g : A -> B) (l : list A) :
  (forall a, In a l -> f a = Ok (g a)) -> rmap f l = Ok (map g l).
Proof.
  induction l as [|a l IH]; intros H; [reflexivity|].
  cbn [rmap map]. rewrite (H a (or_introl eq_refl)). cbn [rbind].
  rewrite IH; [reflexivity|]. intros b Hb. apply H. right. exact Hb.
Qed.

Lemma rmap_raise_first {A B} (f : A -> result B) (e : exn) (a : A)
      (l : list A) :
  f a = Raise e -> rmap f (a :: l) = Raise e.
Proof. intros H. cbn [rmap]. rewrite H. reflexivity. Qed.

Lemma given_values_length (ps : list (option float)) :
  ((List.length ps =? List.length (given_values ps))%nat = negb (has_unset ps))
  /\ (List.length (given_values ps) <= List.length ps)%nat.
Proof.
  induction ps as [|[p|] ps [IH1 IH2]]; [split; [reflexivity|apply Nat.le_refl]| |].
  - change (given_values (Some p :: ps)) with (float_abs p :: given_values ps).
    cbn [List.length has_unset existsb orb].
    fold (has_unset ps). split; [exact IH1|lia].
  - change (given_values (None :: ps)) with (given_values ps).
    cbn [List.length has_unset existsb orb negb].
    split; [|lia].
    apply Nat.eqb_neq. lia.
Qed.

Lemma has_unset_false_all_set {A} (ps : list (option A)) :
  has_unset ps = false -> forall p, In p ps -> exists q, p = Some q.
Proof.
  intros H p Hp. destruct p as [q|]; [exists q; reflexivity|].
  exfalso. unfold has_unset in H.
  assert (existsb (fun p : option A =>
                     match p with None => true | Some _ => false end) ps
          = true) as E.
  { apply existsb_exists. exists None. split; [exact Hp|reflexivity]. }
  rewrite E in H. discriminate.
Qed.

Lemma num_is_zero_not_above (a : num) :
  num_is_zero a = true -> py_gt a float_100 = false.
Proof.
  destruct a as [z|x]; cbn [num_is_zero].
  - intros H. apply Z.eqb_eq in H. subst z. reflexivity.
  - destruct x as [[|]| | |]; try discriminate; reflexivity.
Qed.

Lemma num_is_zero_divisor (a : float) (b : num) :
  num_is_zero b = true -> py_rdiv a b = Raise ZeroDivisionError.
Proof.
  destruct b as [z|x]; cbn [num_is_zero].
  - intros H. apply Z.eqb_eq in H. subst z. reflexivity.
  - destruct x; try discriminate. reflexivity.
Qed.

(** X7. When every entry is set, there is at least one, and the sum of
    their absolute values is zero, the rescaling divides by a zero sum:
    [check_percentages] raises [ZeroDivisionError], which none of its
    handlers catches, and prints nothing. *)
Theorem check_percentages_zero_sum_raises
        (ps : list (option float)) (w : world) :
  ps <> [] ->
  has_unset ps = false ->
  num_is_zero (binary64_abs_sum ps) = true ->
  check_percentages ps w = (Raise ZeroDivisionError, w).
Proof.
  intros Hne Hu Hz. unfold check_percentages.
  rewrite py_sum_given_values. unfold bind at 1. unfold lift at 1.
  rewrite (num_is_zero_not_above _ Hz).
  rewrite (proj1 (given_values_length ps)), Hu. cbn [negb].
  unfold lift. f_equal.
  destruct ps as [|p ps]; [contradiction|].
  destruct (has_unset_false_all_set _ Hu p (or_introl eq_refl)) as [q ->].
  apply rmap_raise_first.
  rewrite (num_is_zero_divisor _ _ Hz). reflexivity.
Qed.

Lemma check_percentages_zero_sum_raises_witness :
  fortune_files_from_paths (single_file_fs "f" [] []) ["0%"; "f"]%string None
                           initial_world
  = (Raise ZeroDivisionError, initial_world).
Proof.
  unfold fortune_files_from_paths.
  apply bind_raise.
  apply (check_percentages_zero_sum_raises [Some (Z2F 0)] initial_world).
  - discriminate.
  - reflexivity.
  - reflexivity.
Defined.

Lemma rmap_forall2 {A B} (f : A -> result B) (l : list A) :
  forall l', rmap f l = Ok l' -> Forall2 (fun a b => f a = Ok b) l l'.
Proof.
  induction l as [|a l IH]; intros l' H; cbn [rmap] in H.
  - injection H as <-. constructor.
  - destruct (f a) as [b|e|] eqn:Ea; try discriminate. cbn [rbind] in H.
    destruct (rmap f l) as [bs|e|] eqn:El; try discriminate.
    cbn [rbind] in H. injection H as <-.
    constructor; [exact Ea|apply IH; reflexivity].
Qed.

Lemma check_percentages_shape (ps ps' : list (option float)) (w w' : world) :
  check_percentages ps w = (Ok ps', w') ->
  w' = w /\ Forall2 validated_entry ps ps'.
Proof.
  unfold check_percentages.
  rewrite py_sum_given_values. unfold bind at 1. unfold lift at 1.
  destruct (py_gt (binary64_abs_sum ps) float_100); [discriminate|].
  destruct (List.length ps =? List.length (given_values ps))%nat.
  - unfold lift. intros H. injection H as H <-. split; [reflexivity|].
    apply rmap_forall2 in H.
    induction H as [|p p' l l' Hp _ IH]; constructor; [|exact IH].
    destruct p as [q|]; [|discriminate].
    destruct (py_rdiv float_100 (binary64_abs_sum ps)) as [c|e|];
      try discriminate.
    cbn [rbind] in Hp. injection Hp as <-.
    exact (float_abs_idempotent (float_mul q c)).
  - unfold ret. intros H. injection H as <- <-. split; [reflexivity|].
    induction ps as [|[q|] ps IH]; constructor; try exact IH.
    + apply float_abs_idempotent.
    + exact I.
Qed.

(** X8. Whenever [check_percentages] succeeds, it has printed nothing and
    its result lines up with its input: as many entries, unset exactly
    where the input is unset, and, wherever the input has a value, a
    value that is its own absolute value. *)
Theorem check_percentages_keeps_shape
        (ps ps' : list (option float)) (w w' : world) :
  check_percentages ps w = (Ok ps', w') ->
  w' = w
  /\ List.length ps' = List.length ps
  /\ Forall2 validated_entry ps ps'.
Proof.
  intros H. destruct (check_percentages_shape _ _ _ _ H) as [Hw HF].
  split; [exact Hw|]. split; [|exact HF].
  symmetry. exact (Forall2_length HF).
Qed.

Lemma check_percentages_keeps_shape_witness :
  initial_world = initial_world
  /\ List.length [Some (Z2F 7); None] = List.length [Some (Z2F (-7)); None]
  /\ Forall2 validated_entry [Some (Z2F (-7)); None] [Some (Z2F 7); None].
Proof.
  apply (check_percentages_keeps_shape
           [Some (Z2F (-7)); None] [Some (Z2F 7); None]
           initial_world initial_world).
  reflexivity.
Defined.

(** ** The resolver ([fortune_files_from_paths]) *)

Lemma resolver_step_lengths (fs : filesystem) (offensive : option bool)
      (st : resolver_state) (path : string) :
  List.length (percentages st) = List.length (fortune_files st) ->
  List.length (percentages (resolver_step fs offensive st path))
  = List.length (fortune_files (resolver_step fs offensive st path)).
Proof.
  intros H. unfold resolver_step.
  destruct (percentage_pattern_match path); [exact H|].
  destruct (isdir fs path).
  - cbv zeta. cbn [percentages fortune_files].
    rewrite length_app, repeat_length, !length_app. lia.
  - cbv zeta.
    destruct (match offensive with
              | Some o => negb (xor (endswith path "-o") o)
              | None => true
              end); cbn [percentages fortune_files]; [|exact H].
    rewrite !length_app. cbn [List.length]. lia.
Qed.

Lemma resolve_lengths (fs : filesystem) (offensive : option bool)
      (paths : list string) :
  forall st : resolver_state,
    List.length (percentages st) = List.length (fortune_files st) ->
    List.length (percentages (fold_left (resolver_step fs offensive) paths st))
    = List.length
        (fortune_files (fold_left (resolver_step fs offensive) paths st)).
Proof.
  induction paths as [|path paths IH]; intros st H; [exact H|].
  cbn [fold_left]. apply IH. apply resolver_step_lengths. exact H.
Qed.

Lemma fortune_files_from_paths_ok (fs : filesystem) (paths : list string)
      (offensive : option bool) (w w' : world)
      (ps : list (option float)) (files : list string) :
  fortune_files_from_paths fs paths offensive w = (Ok (ps, files), w') ->
  w' = w
  /\ files = fortune_files (resolve fs offensive paths)
  /\ check_percentages (percentages (resolve fs offensive paths)) w
     = (Ok ps, w).
Proof.
  unfold fortune_files_from_paths, bind. fold (resolve fs offensive paths).
  destruct (check_percentages (percentages (resolve fs offensive paths)) w)
    as [[checked|e|] w1] eqn:E; try discriminate.
  unfold ret. intros H. injection H as <- <- <-.
  destruct (check_percentages_shape _ _ _ _ E) as [-> _].
  repeat split. 
Qed.

(** X9. Whenever the resolver succeeds, it has printed nothing and hands
    back one percentage entry per file: the two lists have the same
    length. *)
Theorem fortune_files_from_paths_aligned
        (fs : filesystem) (paths : list string) (offensive : option bool)
        (w w' : world) (ps : list (option float)) (files : list string) :
  fortune_files_from_paths fs paths offensive w = (Ok (ps, files), w') ->
  w' = w /\ List.length ps = List.length files.
Proof.
  intros H. destruct (fortune_files_from_paths_ok _ _ _ _ _ _ _ H)
    as (Hw & -> & Hc).
  split; [exact Hw|].
  destruct (check_percentages_shape _ _ _ _ Hc) as [_ HF].
  rewrite <- (Forall2_length HF).
  apply resolve_lengths. reflexivity.
Qed.

Lemma fortune_files_from_paths_aligned_witness :
  initial_world = initial_world
  /\ List.length [Some (Z2F 50); None] = List.length ["a"; "b"]%string.
Proof.
  apply (fortune_files_from_paths_aligned
           (single_file_fs "a" [] []) ["50%"; "a"; "b"]%string None
           initial_world initial_world
           [Some (Z2F 50); None] ["a"; "b"]%string).
  reflexivity.
Defined.

Lemma xor_negb_eqb (a b : bool) : negb (xor a b) = Bool.eqb a b.
Proof. destruct a, b; reflexivity. Qed.

Lemma resolver_step_offensive (fs : filesystem) (o : bool)
      (st : resolver_state) (path : string) :
  Forall (fun f => endswith f "-o" = o) (fortune_files st) ->
  Forall (fun f => endswith f "-o" = o)
         (fortune_files (resolver_step fs (Some o) st path)).
Proof.
  intros H. unfold resolver_step.
  destruct (percentage_pattern_match path); [exact H|].
  destruct (isdir fs path); cbv zeta.
  - cbn [fortune_files]. apply Forall_app. split; [exact H|].
    apply Forall_forall. intros f Hf. apply filter_In in Hf.
    destruct Hf as [_ Hf]. rewrite xor_negb_eqb in Hf.
    apply eqb_prop. exact Hf.
  - destruct (negb (xor (endswith path "-o") o)) eqn:E;
      cbn [fortune_files]; [|exact H].
    apply Forall_app. split; [exact H|].
    constructor; [|constructor]. rewrite xor_negb_eqb in E.
    apply eqb_prop. exact E.
Qed.

Lemma resolve_offensive (fs : filesystem) (o : bool) (paths : list string) :
  forall st : resolver_state,
    Forall (fun f => endswith f "-o" = o) (fortune_files st) ->
    Forall (fun f => endswith f "-o" = o)
           (fortune_files (fold_left (resolver_step fs (Some o)) paths st)).
Proof.
  induction paths as [|path paths IH]; intros st H; [exact H|].
  cbn [fold_left]. apply IH. apply resolver_step_offensive. exact H.
Qed.

(** X10. With the offensive filter set, every file the resolver returns is
    on the asked side: with [offensive = True] every name ends in ["-o"],
    with [offensive = False] none does, for files named directly and files
    found in directories alike. *)
Theorem fortune_files_from_paths_offensive_filter
        (fs : filesystem) (paths : list string) (o : bool)
        (w w' : world) (ps : list (option float)) (files : list string) :
  fortune_files_from_paths fs paths (Some o) w = (Ok (ps, files), w') ->
  Forall (fun f => endswith f "-o" = o) files.
Proof.
  intros H. destruct (fortune_files_from_paths_ok _ _ _ _ _ _ _ H)
    as (_ & -> & _).
  apply resolve_offensive. constructor.
Qed.

Lemma fortune_files_from_paths_offensive_filter_witness :
  Forall (fun f => endswith f "-o" = true) ["jokes-o"%string].
Proof.
  apply (fortune_files_from_paths_offensive_filter
           (single_file_fs "a" [] []) ["a"; "jokes-o"; "b"]%string true
           initial_world initial_world [None] ["jokes-o"%string]).
  reflexivity.
Defined.

Lemma resolve_plain_files (fs : filesystem) (offensive : option bool)
      (paths : list string) :
  Forall (plain_file fs) paths ->
  forall (files : list string) (ps : list (option float)),
    fold_left (resolver_step fs offensive) paths (mkResolver files ps None)
    = mkResolver (files ++ kept_files offensive paths)
                 (ps ++ map (fun _ => None) (kept_files offensive paths))
                 None.
Proof.
  induction 1 as [|path paths [Hm Hd] _ IH]; intros files ps.
  - destruct offensive; cbn; rewrite !app_nil_r; reflexivity.
  - cbn [fold_left]. unfold resolver_step at 2. rewrite Hm, Hd. cbv zeta.
    cbn [percentage fortune_files percentages option_map].
    destruct offensive as [o|].
    + rewrite xor_negb_eqb. cbn [kept_files filter].
      destruct (Bool.eqb (endswith path "-o") o).
      * rewrite IH. cbn [kept_files map]. rewrite <- !app_assoc. reflexivity.
      * rewrite IH. reflexivity.
    + rewrite IH. cbn [kept_files map]. rewrite <- !app_assoc. reflexivity.
Qed.

Lemma check_percentages_all_unset {A} (l : list A) (w : world) :
  check_percentages (map (fun _ => None) l) w
  = (Ok (map (fun _ => None) l), w).
Proof.
  unfold check_percentages.
  assert (E : given_values (map (fun _ : A => None) l) = []).
  { induction l as [|a l IH]; [reflexivity|exact IH]. }
  rewrite E. change (py_sum []) with (Ok (Int 0)).
  unfold bind at 1. unfold lift at 1.
  change (py_gt (Int 0) float_100) with false. cbv iota.
  destruct l as [|a l]; [reflexivity|].
  cbn [map List.length Nat.eqb]. unfold ret. f_equal. f_equal.
  cbn [option_map]. f_equal. rewrite map_map. reflexivity.
Qed.

Lemma fortune_files_from_paths_plain
      (fs : filesystem) (paths : list string) (offensive : option bool)
      (w : world) :
  Forall (plain_file fs) paths ->
  fortune_files_from_paths fs paths offensive w
  = (Ok (map (fun _ => None) (kept_files offensive paths),
         kept_files offensive paths), w).
Proof.
  intros H. unfold fortune_files_from_paths.
  rewrite (resolve_plain_files fs offensive paths H [] []).
  cbn [percentages fortune_files app].
  rewrite (bind_ok _ _ _ _ _ (check_percentages_all_unset _ w)).
  reflexivity.
Qed.

(** X11. Path entries that are plain file names (no percentage marker, no
    directory) are returned as they are and in their order, those the
    offensive filter refuses left out, each with an unset percentage; no
    index is looked at and nothing is printed. *)
Theorem fortune_files_from_paths_plain_files
        (fs : filesystem) (paths : list string) (offensive : option bool)
        (w : world) :
  Forall (plain_file fs) paths ->
  fortune_files_from_paths fs paths offensive w
  = (Ok (map (fun _ => None) (kept_files offensive paths),
         kept_files offensive paths), w).
Proof. exact (fortune_files_from_paths_plain fs paths offensive w). Qed.

Lemma fortune_files_from_paths_plain_files_witness :
  fortune_files_from_paths (single_file_fs "a" [] [])
                           ["a"; "jokes-o"; "b"]%string (Some false)
                           initial_world
  = (Ok ([None; None], ["a"; "b"]%string), initial_world).
Proof.
  apply (fortune_files_from_paths_plain_files
           (single_file_fs "a" [] []) ["a"; "jokes-o"; "b"]%string
           (Some false) initial_world).
  repeat constructor.
Defined.

(** X12. A directory entry adds the files found in it and as many
    percentage entries. Without a pending marker they are unset; with a
    pending marker [N%] each file gets the binary64 quotient of [N] by
    the number of files found; the marker is used up either way, also by
    a directory in which nothing is found. *)
Theorem resolver_step_directory
        (fs : filesystem) (offensive : option bool) (st : resolver_state)
        (path : string) :
  percentage_pattern_match path = None ->
  isdir fs path = true ->
  List.length (percentages st) = List.length (fortune_files st) ->
  let found := files_in_directory fs offensive path in
  let share :=
      option_map (fun digits => float_div (Z2F (int_of_digits digits))
                                          (Z2F (len found)))
                 (percentage st) in
  resolver_step fs offensive st path
  = mkResolver (fortune_files st ++ found)
               (percentages st ++ repeat share (List.length found)) None.
Proof.
  intros Hm Hd Hlen found share.
  unfold resolver_step. rewrite Hm, Hd. cbv zeta.
  fold (files_in_directory fs offensive path). fold found.
  assert (E1 : (List.length (fortune_files st ++ found)
                - List.length (percentages st))%nat = List.length found).
  { rewrite length_app. lia. }
  assert (E2 : len (fortune_files st ++ found) - len (percentages st)
               = len found).
  { unfold len. rewrite length_app. lia. }
  rewrite E1, E2. subst share. destruct (percentage st); reflexivity.
Qed.

Lemma resolver_step_directory_witness :
  resolver_step (mkFS (fun _ => true)
                      (fun _ => ["d/a.p4dat"; "d/b.p4dat"; "d/c.p4dat"]%string)
                      (fun _ => None) (fun _ => None) no_such_file)
                None (mkResolver [] [] (Some "50"%string)) "d"
  = mkResolver ["d/a"; "d/b"; "d/c"]%string
               (repeat (Some (third_of 50)) 3) None.
Proof.
  apply (resolver_step_directory
           (mkFS (fun _ => true)
                 (fun _ => ["d/a.p4dat"; "d/b.p4dat"; "d/c.p4dat"]%string)
                 (fun _ => None) (fun _ => None) no_such_file)
           None (mkResolver [] [] (Some "50"%string)) "d");
    reflexivity.
Defined.

(** ** The weight calculator without percentages

    A positive integer below [2 ^ 53] is converted without a rounding
    error, and the binary64 quotient of two such numbers is their exact
    quotient when that is an integer. *)

Lemma digits_bounds (p : positive) :
  2 ^ (Zpos (digits2_pos p) - 1) <= Zpos p < 2 ^ Zpos (digits2_pos p).
Proof.
  induction p as [p IH|p IH|].
  - cbn [digits2_pos]. rewrite Pos2Z.inj_succ.
    replace (Z.succ (Z.pos (digits2_pos p)) - 1) with (Z.pos (digits2_pos p))
      by lia.
    rewrite Z.pow_succ_r by lia.
    assert (E : 2 ^ Z.pos (digits2_pos p)
                = 2 * 2 ^ (Z.pos (digits2_pos p) - 1)).
    { rewrite <- Z.pow_succ_r by lia. f_equal. lia. }
    lia.
  - cbn [digits2_pos]. rewrite Pos2Z.inj_succ.
    replace (Z.succ (Z.pos (digits2_pos p)) - 1) with (Z.pos (digits2_pos p))
      by lia.
    rewrite Z.pow_succ_r by lia.
    assert (E : 2 ^ Z.pos (digits2_pos p)
                = 2 * 2 ^ (Z.pos (digits2_pos p) - 1)).
    { rewrite <- Z.pow_succ_r by lia. f_equal. lia. }
    lia.
  - cbn. lia.
Qed.

Lemma digits_unique (p : positive) (d : Z) :
  2 ^ (d - 1) <= Zpos p < 2 ^ d -> Zpos (digits2_pos p) = d.
Proof.
  intros [Hlo Hhi]. pose proof (digits_bounds p) as [Blo Bhi].
  destruct (Z.lt_trichotomy (Zpos (digits2_pos p)) d) as [H|[H|H]];
    [exfalso|exact H|exfalso].
  - assert (2 ^ Z.pos (digits2_pos p) <= 2 ^ (d - 1))
      by (apply Z.pow_le_mono_r; lia).
    lia.
  - destruct (Z.le_gt_cases 0 d) as [Hd|Hd].
    + assert (2 ^ d <= 2 ^ (Z.pos (digits2_pos p) - 1))
        by (apply Z.pow_le_mono_r; lia).
      lia.
    + rewrite (Z.pow_neg_r 2 d) in Hhi by lia. lia.
Qed.

Lemma iter_xO_value (p k : positive) :
  Zpos (Pos.iter xO p k) = Zpos p * 2 ^ Zpos k.
Proof.
  induction k as [|k IH] using Pos.peano_ind.
  - cbn. lia.
  - rewrite Pos.iter_succ, Pos2Z.inj_succ, Z.pow_succ_r by lia.
    rewrite Pos2Z.inj_xO, IH. lia.
Qed.

Lemma binary_round_aux_53 (s : bool) (m : positive) (e : Z) :
  Zpos (digits2_pos m) = 53 ->
  -1074 <= e <= 971 ->
  binary_round_aux prec emax s (Zpos m) e loc_Exact = S754_finite s m e.
Proof.
  intros Hd He. unfold binary_round_aux, shr_fexp.
  cbn [Zdigits2 shr_record_of_loc]. rewrite Hd.
  assert (E : fexp prec emax (53 + e) - e = 0).
  { unfold fexp, SpecFloat.emin, prec, emax. lia. }
  rewrite E. cbn [shr shr_m loc_of_shr_record round_nearest_even Zdigits2].
  rewrite Hd, E. cbn [shr shr_m].
  replace (e <=? emax - prec) with true; [reflexivity|].
  symmetry. apply Z.leb_le. unfold emax, prec. lia.
Qed.

Lemma binary_round_aux_54 (s : bool) (m : positive) (e : Z) :
  Zpos (digits2_pos m) = 53 ->
  -1075 <= e <= 970 ->
  binary_round_aux prec emax s (Zpos (xO m)) e loc_Exact
  = S754_finite s m (e + 1).
Proof.
  intros Hd He. unfold binary_round_aux, shr_fexp.
  cbn [Zdigits2 shr_record_of_loc digits2_pos]. rewrite Pos2Z.inj_succ, Hd.
  assert (E : fexp prec emax (Z.succ 53 + e) - e = 1).
  { unfold fexp, SpecFloat.emin, prec, emax. lia. }
  rewrite E.
  cbn [shr SpecFloat.iter_pos shr_1 orb shr_m loc_of_shr_record round_nearest_even
       Zdigits2].
  rewrite Hd.
  assert (E' : fexp prec emax (53 + (e + 1)) - (e + 1) = 0).
  { unfold fexp, SpecFloat.emin, prec, emax. lia. }
  rewrite E'. cbn [shr shr_m shr_record_of_loc].
  replace (e + 1 <=? emax - prec) with true; [reflexivity|].
  symmetry. apply Z.leb_le. unfold emax, prec. lia.
Qed.

Lemma Z2F_exact (n : Z) : 0 < n < 2 ^ 53 -> exact_float n (Z2F n).
Proof.
  intros [Hpos Hlt]. destruct n as [|p|p]; try lia.
  pose proof (digits_bounds p) as [Blo Bhi].
  set (d := Z.pos (digits2_pos p)) in *.
  assert (Hd : 1 <= d <= 53).
  { split; [unfold d; lia|].
    destruct (Z.le_gt_cases d 53) as [H|H]; [exact H|exfalso].
    assert (2 ^ 53 <= 2 ^ (d - 1)) by (apply Z.pow_le_mono_r; lia).
    lia. }
  unfold Z2F, binary_normalize, binary_round, shl_align.
  fold d.
  assert (E : fexp prec emax (d + 0) - 0 = d - 53).
  { unfold fexp, SpecFloat.emin, prec, emax. lia. }
  assert (E0 : fexp prec emax (d + 0) = d - 53).
  { unfold fexp, SpecFloat.emin, prec, emax. lia. }
  rewrite E. destruct (d - 53) as [|k|k] eqn:Ek; [|lia|].
  - rewrite (binary_round_aux_53 false p 0) by (fold d; lia).
    exists p, 0. split; [reflexivity|]. split; [fold d; lia|].
    split; [lia|]. cbn. lia.
  - rewrite E0. try rewrite Ek.
    assert (Hv : Z.pos (Pos.iter xO p k) = Z.pos p * 2 ^ Z.pos k)
      by apply iter_xO_value.
    assert (Hk : Z.pos k = 53 - d) by lia.
    assert (Hp : 2 ^ (d - 1) * 2 ^ Z.pos k = 2 ^ 52).
    { rewrite <- Z.pow_add_r by lia. f_equal. lia. }
    assert (Hq : 2 ^ d * 2 ^ Z.pos k = 2 ^ 53).
    { rewrite <- Z.pow_add_r by lia. f_equal. lia. }
    assert (H2k : 0 < 2 ^ Z.pos k) by (apply Z.pow_pos_nonneg; lia).
    assert (Hdig : Z.pos (digits2_pos (Pos.iter xO p k)) = 53).
    { apply digits_unique. rewrite Hv. change (53 - 1) with 52.
      rewrite <- Hp, <- Hq. split.
      - apply Z.mul_le_mono_nonneg_r; lia.
      - apply Z.mul_lt_mono_pos_r; lia. }
    rewrite (binary_round_aux_53 false _ (Z.neg k) Hdig) by lia.
    exists (Pos.iter xO p k), (Z.neg k). split; [reflexivity|].
    split; [exact Hdig|]. split; [lia|].
    rewrite Hv. reflexivity.
Qed.

Lemma div_eucl_div_mod (a b : Z) : Z.div_eucl a b = (a / b, a mod b).
Proof.
  unfold Z.div, Z.modulo. destruct (Z.div_eucl a b). reflexivity.
Qed.

Lemma new_location_exact (n : Z) : new_location n 0 = loc_Exact.
Proof.
  unfold new_location, new_location_even, new_location_odd.
  destruct (Z.even n); reflexivity.
Qed.

Lemma exact_float_lt (n : Z) (x : float) :
  exact_float n x -> 0 < n < 2 ^ 53.
Proof.
  intros (m & e & _ & Hd & He & Hm).
  pose proof (digits_bounds m) as [Blo Bhi]. rewrite Hd in Blo, Bhi.
  assert (H1 : 1 <= 2 ^ (- e)) by (apply Z.lt_pred_le, Z.pow_pos_nonneg; lia).
  split; nia.
Qed.

Lemma float_div_exact (a b w : Z) (x y : float) :
  exact_float a x -> exact_float b y -> a = w * b -> 0 < w ->
  exact_float w (float_div x y).
Proof.
  intros Hx Hy Hab Hw.
  pose proof (exact_float_lt _ _ Hx) as Ha.
  pose proof (exact_float_lt _ _ Hy) as Hb.
  destruct Hx as (ma & ea & -> & Hda & Hea & Hma).
  destruct Hy as (mb & eb & -> & Hdb & Heb & Hmb).
  pose proof (digits_bounds ma) as [Alo Ahi]. rewrite Hda in Alo, Ahi.
  pose proof (digits_bounds mb) as [Blo Bhi]. rewrite Hdb in Blo, Bhi.
  change (53 - 1) with 52 in *.
  assert (Hw53 : w < 2 ^ 53) by nia.
  set (k := 53 - ea + eb).
  assert (Hk : 1 <= k) by (unfold k; lia).
  set (Q0 := w * 2 ^ k).
  assert (HQ : Z.shiftl (Z.pos ma) 53 = Q0 * Z.pos mb).
  { rewrite Z.shiftl_mul_pow2 by lia. rewrite Hma, Hmb, Hab. unfold Q0, k.
    replace (53 - ea + eb) with (53 + (- ea) + eb) by lia.
    replace (w * b * 2 ^ (- ea) * 2 ^ 53)
      with (w * b * (2 ^ (- ea) * 2 ^ 53)) by ring.
    replace (w * 2 ^ (53 + - ea + eb) * (b * 2 ^ (- eb)))
      with (w * b * (2 ^ (53 + - ea + eb) * 2 ^ (- eb))) by ring.
    rewrite <- !Z.pow_add_r by lia. f_equal. f_equal. lia. }
  unfold float_div, SFdiv, SFdiv_core_binary. cbv zeta.
  cbn [Zdigits2 xorb]. rewrite Hda, Hdb.
  assert (Ee : Z.min (fexp prec emax (53 + ea - (53 + eb))) (ea - eb)
               = ea - eb - 53).
  { unfold fexp, SpecFloat.emin, prec, emax. lia. }
  rewrite Ee.
  replace (ea - eb - (ea - eb - 53)) with 53 by lia.
  rewrite div_eucl_div_mod, HQ.
  rewrite Z.div_mul, Z.mod_mul by discriminate.
  rewrite new_location_exact.
  assert (H2k : 2 <= 2 ^ k).
  { change 2 with (2 ^ 1) at 1. apply Z.pow_le_mono_r; lia. }
  assert (HQlo : 2 ^ 52 < Q0).
  { rewrite Z.shiftl_mul_pow2 in HQ by lia. nia. }
  assert (HQhi : Q0 < 2 ^ 54).
  { rewrite Z.shiftl_mul_pow2 in HQ by lia.
    change (2 ^ 54) with (2 * 2 ^ 53). nia. }
  destruct (Z_lt_le_dec Q0 (2 ^ 53)) as [Hsmall|Hbig].
  - destruct Q0 as [|qp|qp] eqn:EQ; try lia.
    assert (Hdq : Z.pos (digits2_pos qp) = 53).
    { apply digits_unique. change (53 - 1) with 52. lia. }
    rewrite (binary_round_aux_53 false qp _ Hdq) by lia.
    exists qp, (ea - eb - 53). split; [reflexivity|]. split; [exact Hdq|].
    assert (Hk53 : k < 53).
    { destruct (Z_lt_le_dec k 53) as [H|H]; [exact H|exfalso].
      assert (2 ^ 53 <= 2 ^ k) by (apply Z.pow_le_mono_r; lia).
      unfold Q0 in EQ. nia. }
    split; [unfold k in *; lia|].
    unfold Q0 in EQ. rewrite <- EQ. f_equal. f_equal. unfold k. lia.
  - assert (Hk2 : 2 ^ k = 2 * 2 ^ (k - 1)).
    { rewrite <- Z.pow_succ_r by lia. f_equal. lia. }
    set (Q1 := w * 2 ^ (k - 1)).
    assert (HQ1 : Q0 = 2 * Q1) by (unfold Q0, Q1; rewrite Hk2; ring).
    destruct Q1 as [|qp|qp] eqn:EQ; try lia.
    rewrite HQ1. change (2 * Z.pos qp) with (Z.pos (xO qp)).
    assert (Hdq : Z.pos (digits2_pos qp) = 53).
    { apply digits_unique. change (53 - 1) with 52.
      change (2 ^ 54) with (2 * 2 ^ 53) in HQhi.
      change (2 ^ 53) with (2 * 2 ^ 52) in Hbig at 1. lia. }
    rewrite (binary_round_aux_54 false qp _ Hdq) by lia.
    exists qp, (ea - eb - 53 + 1). split; [reflexivity|]. split; [exact Hdq|].
    assert (Hk53 : k - 1 < 53).
    { destruct (Z_lt_le_dec (k - 1) 53) as [H|H]; [exact H|exfalso].
      assert (2 ^ 53 <= 2 ^ (k - 1)) by (apply Z.pow_le_mono_r; lia).
      pose proof (digits_bounds qp) as [_ Bq]. rewrite Hdq in Bq.
      unfold Q1 in EQ. nia. }
    split; [unfold k in *; lia|].
    unfold Q1 in EQ. rewrite <- EQ. f_equal. f_equal. unfold k. lia.
Qed.

Lemma py_round_exact_float (w : Z) (x : float) :
  exact_float w x -> py_round x = Ok w.
Proof.
  intros (m & e & -> & _ & He & Hm). unfold py_round. f_equal.
  destruct e as [|p|p]; [|lia|].
  - rewrite Hm. cbn. lia.
  - change (- Z.neg p) with (Z.pos p) in Hm.
    change (Z.pow_pos 2 p) with (2 ^ Z.pos p).
    assert (H2 : 0 < 2 ^ Z.pos p) by (apply Z.pow_pos_nonneg; lia).
    unfold round_half_even. rewrite Hm.
    rewrite Z.div_mul, Z.mod_mul by lia.
    cbn [Z.mul]. destruct (Z.compare_spec 0 (2 ^ Z.pos p)); lia.
Qed.

Lemma float_of_int_exact (n : Z) :
  0 < n < 2 ^ 53 ->
  exists x, float_of_int n = Ok x /\ exact_float n x.
Proof.
  intros H. pose proof (Z2F_exact n H) as Hx.
  exists (Z2F n). split; [|exact Hx].
  unfold float_of_int. destruct Hx as (m & e & -> & _). reflexivity.
Qed.

Lemma all_unset_sums (weights : list Z) :
  spec_sum_of_unset_raw_weights weights
                                (map (fun _ => @None float) weights)
  = spec_total_raw_weight weights
  /\ set_values (map (fun _ => None) weights) = [].
Proof.
  induction weights as [|w ws [IH1 IH2]]; [split; reflexivity|].
  cbn [map spec_sum_of_unset_raw_weights].
  rewrite IH1. split; [reflexivity|exact IH2].
Qed.

Lemma weight_below_total (weights : list Z) (w : Z) :
  Forall (fun w => 0 <= w) weights ->
  In w weights -> 0 <= w <= spec_total_raw_weight weights.
Proof.
  unfold spec_total_raw_weight.
  induction 1 as [|x l Hx Hl IH]; intros Hin; [destruct Hin|].
  cbn [fold_right].
  assert (0 <= fold_right Z.add 0 l).
  { clear IH Hin. induction Hl as [|y l Hy _ IH]; cbn [fold_right]; lia. }
  destruct Hin as [->|Hin]; [lia|].
  specialize (IH Hin). lia.
Qed.

Lemma unset_weight_kept (T w : Z) :
  0 < T -> 100 * T * T < 2 ^ 53 -> 0 <= w <= T ->
  binary64_final_weight T T (Int 0) w None = Ok w.
Proof.
  intros HT Hbound Hw. unfold binary64_final_weight.
  destruct (float_of_int_exact (100 * T)) as (d & Ed & Hd); [nia|].
  rewrite Ed.
  assert (Hz : is_float_zero d = false).
  { destruct Hd as (m & e & -> & _). reflexivity. }
  destruct (Z.eq_dec w 0) as [->|Hnz].
  - change (float_of_int (0 * (100 - 0) * T)) with (Ok (S754_zero false)).
    cbn [rbind]. rewrite Hz.
    destruct Hd as (m & e & -> & _). reflexivity.
  - destruct (float_of_int_exact (w * (100 - 0) * T)) as (n & En & Hn);
      [nia|].
    rewrite En. cbn [rbind]. rewrite Hz.
    apply py_round_exact_float.
    apply (float_div_exact (w * (100 - 0) * T) (100 * T) w n d Hn Hd);
      lia.
Qed.

Lemma map_fst_combine_unset (weights : list Z) :
  map fst (combine weights (map (fun _ => @None float) weights)) = weights.
Proof.
  induction weights as [|w ws IH]; [reflexivity|].
  cbn [map combine fst]. rewrite IH. reflexivity.
Qed.

Lemma in_combine_unset_weight (weights : list Z) (wp : Z * option float) :
  In wp (combine weights (map (fun _ => None) weights)) ->
  snd wp = None /\ In (fst wp) weights.
Proof.
  induction weights as [|w ws IH]; [intros []|].
  cbn [map combine]. intros [<-|H].
  - split; [reflexivity|left; reflexivity].
  - destruct (IH H) as [H1 H2]. split; [exact H1|right; exact H2].
Qed.

Lemma adjust_weights_all_unset (weights : list Z) :
  Forall (fun w => 0 <= w) weights ->
  0 < spec_total_raw_weight weights ->
  100 * spec_total_raw_weight weights * spec_total_raw_weight weights
  < 2 ^ 53 ->
  adjust_weights_with_percentages weights (map (fun _ => None) weights)
  = Ok weights.
Proof.
  intros Hnn HT Hbound.
  rewrite adjust_weights_formulas by (symmetry; apply length_map).
  destruct (all_unset_sums weights) as [-> ->].
  cbn [binary64_sum].
  etransitivity;
    [apply (rmap_ok _ fst)|f_equal; apply map_fst_combine_unset].
  intros [w p] Hin.
  destruct (in_combine_unset_weight _ _ Hin) as [Hp Hw].
  cbn [fst snd] in *. subst p.
  apply unset_weight_kept; [exact HT|exact Hbound|].
  apply weight_below_total; assumption.
Qed.

(** X13. When no file has a percentage, the weights are not negative,
    their sum [T] is positive and [100 * T * T] is below [2 ^ 53] (so
    that every product of the first formula is held without a rounding
    error), [adjust_weights_with_percentages] returns the weights as
    they are. *)
Theorem adjust_weights_without_percentages (weights : list Z) :
  Forall (fun w => 0 <= w) weights ->
  0 < spec_total_raw_weight weights ->
  100 * spec_total_raw_weight weights * spec_total_raw_weight weights
  < 2 ^ 53 ->
  adjust_weights_with_percentages weights (map (fun _ => None) weights)
  = Ok weights.
Proof. exact (adjust_weights_all_unset weights). Qed.

Lemma adjust_weights_without_percentages_witness :
  adjust_weights_with_percentages [3; 0; 7] [None; None; None]
  = Ok [3; 0; 7].
Proof.
  apply (adjust_weights_without_percentages [3; 0; 7]).
  - repeat constructor; lia.
  - reflexivity.
  - reflexivity.
Defined.

(** A file that is alone, without a percentage, keeps its number of
    records as its weight. *)
Lemma adjust_weights_single (n : Z) :
  0 < n -> 100 * n * n < 2 ^ 53 ->
  adjust_weights_with_percentages [n] [None] = Ok [n].
Proof.
  intros Hn Hb.
  apply (adjust_weights_all_unset [n]);
    unfold spec_total_raw_weight; cbn [fold_right]; rewrite ?Z.add_0_r.
  - constructor; [lia|constructor].
  - exact Hn.
  - exact Hb.
Qed.

(** ** Draws that cannot be made ([rselect_fortune_file]) *)

(** X14. A draw among weights whose sum is zero or less raises
    [ValueError] (from [secrets.randbelow]), and a uniform draw from an
    empty list of files raises [IndexError]; in both cases nothing has
    been drawn from the random source. *)
Theorem rselect_fortune_file_cannot_draw
        (entropy : nat -> Z) (fortune_files : list string)
        (weights : list Z) (w : world) :
  spec_total_raw_weight weights <= 0 ->
  rselect_fortune_file entropy fortune_files (Some weights) w
  = (Raise ValueError, w)
  /\ rselect_fortune_file entropy [] None w = (Raise IndexError, w).
Proof.
  intros H. split; [|reflexivity].
  unfold rselect_fortune_file. rewrite fold_left_add, Z.add_0_l.
  fold (spec_total_raw_weight weights).
  apply bind_raise. unfold randbelow.
  rewrite (proj2 (Z.leb_le _ _)) by exact H. reflexivity.
Qed.

Lemma rselect_fortune_file_cannot_draw_witness :
  rselect_fortune_file zero_entropy ["a"; "b"]%string (Some [0; 0])
                       initial_world
  = (Raise ValueError, initial_world).
Proof.
  apply (rselect_fortune_file_cannot_draw
           zero_entropy ["a"; "b"]%string [0; 0] initial_world).
  discriminate.
Defined.

(** ** The whole selection ([get_random_fortune]) *)

Lemma mapM_missing_index (fs : filesystem) (pre : list string)
      (missing : string) (post : list string) (w : world) :
  Forall (fun f => index_data fs (f ++ INDEX_EXT)%string <> None) pre ->
  index_data fs (missing ++ INDEX_EXT)%string = None ->
  mapM (fun fortune_file =>
          bind (fortune_file_data fs fortune_file)
               (fun data => ret (len data)))
       (pre ++ missing :: post) w
  = (Raise (IndexFileNotFound (missing ++ INDEX_EXT)%string), w).
Proof.
  intros Hpre Hmiss. induction Hpre as [|f pre Hf _ IH].
  - cbn [app mapM]. apply bind_raise. apply bind_raise.
    unfold fortune_file_data. rewrite Hmiss. reflexivity.
  - cbn [app mapM].
    destruct (index_data fs (f ++ INDEX_EXT)) as [data|] eqn:E;
      [|contradiction].
    assert (E1 : bind (fortune_file_data fs f) (fun data => ret (len data)) w
                 = (Ok (len data), w)).
    { unfold bind, fortune_file_data. rewrite E. reflexivity. }
    rewrite (bind_ok _ _ _ _ _ E1). apply bind_raise. exact IH.
Qed.

(** X15. In weighted mode the index of every resolved file is read before
    anything is drawn: when the index file of one of them does not exist,
    [get_random_fortune] raises the [ValueError] that names the first
    missing index file, with nothing drawn and nothing printed. *)
Theorem get_random_fortune_missing_index
        (fs : filesystem) (entropy : nat -> Z) (fuel : nat)
        (fortunepaths : list string) (offensive : option bool)
        (min_length : Z) (max_length : option Z) (w w1 : world)
        (ps : list (option float)) (pre : list string) (missing : string)
        (post : list string) :
  fortune_files_from_paths fs fortunepaths offensive w
  = (Ok (ps, pre ++ missing :: post), w1) ->
  Forall (fun f => index_data fs (f ++ INDEX_EXT)%string <> None) pre ->
  index_data fs (missing ++ INDEX_EXT)%string = None ->
  get_random_fortune fs entropy fuel fortunepaths true offensive
                     min_length max_length w
  = (Raise (IndexFileNotFound (missing ++ INDEX_EXT)%string), w).
Proof.
  intros Hres Hpre Hmiss. unfold get_random_fortune.
  destruct (fortune_files_from_paths_ok _ _ _ _ _ _ _ Hres) as (-> & _ & _).
  rewrite (bind_ok _ _ _ _ _ Hres).
  apply bind_raise. unfold initial_weights. apply bind_raise.
  apply mapM_missing_index; assumption.
Qed.

Lemma get_random_fortune_missing_index_witness :
  get_random_fortune (single_file_fs "a" [] [(0, 1)]) zero_entropy 1
                     ["a"; "b"]%string true None 0 None initial_world
  = (Raise (IndexFileNotFound "b.p4dat"), initial_world).
Proof.
  apply (get_random_fortune_missing_index
           (single_file_fs "a" [] [(0, 1)]) zero_entropy 1
           ["a"; "b"]%string None 0 None initial_world initial_world
           [None; None] ["a"%string] "b" []).
  - reflexivity.
  - constructor; [discriminate|constructor].
  - reflexivity.
Defined.

Lemma rmap_ends {A B} (f : A -> result B) (l : list A) :
  (forall a, f a <> OutOfFuel) -> rmap f l <> OutOfFuel.
Proof.
  intros Hf. induction l as [|a l IH]; [discriminate|].
  cbn [rmap]. specialize (Hf a). destruct (f a); cbn [rbind];
    [|discriminate|contradiction].
  destruct (rmap f l); cbn [rbind]; [discriminate|discriminate|contradiction].
Qed.

Lemma check_percentages_ends (ps : list (option float)) (w : world) :
  fst (check_percentages ps w) <> OutOfFuel.
Proof.
  unfold check_percentages.
  rewrite py_sum_given_values. unfold bind at 1. unfold lift at 1.
  destruct (py_gt (binary64_abs_sum ps) float_100); [discriminate|].
  destruct (List.length ps =? List.length (given_values ps))%nat;
    [|discriminate].
  unfold lift. cbn [fst]. apply rmap_ends. intros [p|]; [|discriminate].
  apply rbind_ends; [apply py_rdiv_ends|discriminate].
Qed.

Lemma weight_sums_step_ends (l : list (Z * option float)) :
  forall acc : result (Z * Z * num),
    acc <> OutOfFuel -> fold_left weight_sums_step l acc <> OutOfFuel.
Proof.
  induction l as [|wp l IH]; intros acc H; [exact H|].
  cbn [fold_left]. apply IH. unfold weight_sums_step.
  apply rbind_ends; [exact H|]. intros [[sw sfw] sp].
  destruct (snd wp); [|discriminate].
  apply rbind_ends; [apply py_arith_ends|discriminate].
Qed.

Lemma adjusted_weight_ends (sums : Z * Z * num) (wp : Z * option float) :
  adjusted_weight sums wp <> OutOfFuel.
Proof.
  destruct sums as [[T F] S], wp as [w p].
  rewrite adjusted_weight_formula. apply binary64_final_weight_ends.
Qed.

Lemma adjust_weights_ends (weights : list Z) (ps : list (option float)) :
  adjust_weights_with_percentages weights ps <> OutOfFuel.
Proof.
  unfold adjust_weights_with_percentages. apply rbind_ends.
  - apply weight_sums_step_ends. discriminate.
  - intros sums. apply rmap_ends. apply adjusted_weight_ends.
Qed.

Lemma mapM_index_ends (fs : filesystem) (files : list string) (w : world) :
  fst (mapM (fun fortune_file =>
               bind (fortune_file_data fs fortune_file)
                    (fun data => ret (len data))) files w) <> OutOfFuel.
Proof.
  revert w. induction files as [|f files IH]; intros w; [discriminate|].
  cbn [mapM]. unfold bind at 1. unfold bind at 1. unfold fortune_file_data.
  destruct (index_data fs (f ++ INDEX_EXT)); [|discriminate].
  unfold ret at 1. unfold ret at 1. unfold bind.
  specialize (IH w).
  destruct (mapM _ files w) as [[ws|e|] w1]; [discriminate|discriminate|].
  contradiction.
Qed.

Lemma initial_weights_ends (fs : filesystem) (weighted : bool)
      (files : list string) (ps : list (option float)) (w : world) :
  fst (initial_weights fs weighted files ps w) <> OutOfFuel.
Proof.
  unfold initial_weights. destruct weighted; [|discriminate].
  unfold bind at 1. pose proof (mapM_index_ends fs files w) as H.
  destruct (mapM _ files w) as [[ws|e|] w1];
    [|discriminate|contradiction].
  unfold bind, lift. pose proof (adjust_weights_ends ws ps) as H2.
  destruct (adjust_weights_with_percentages ws ps);
    [discriminate|discriminate|contradiction].
Qed.

(** X16. [get_random_fortune] always comes to an end: whatever the path
    entries, the files and the numbers drawn, it has returned or raised
    after at most [ATTEMPTS + 1] rounds of its loop. *)
Theorem get_random_fortune_ends
        (fs : filesystem) (entropy : nat -> Z) (fuel : nat)
        (fortunepaths : list string) (weighted : bool)
        (offensive : option bool) (min_length : Z) (max_length : option Z)
        (w : world) :
  (Z.to_nat ATTEMPTS < fuel)%nat ->
  fst (get_random_fortune fs entropy fuel fortunepaths weighted offensive
                          min_length max_length w) <> OutOfFuel.
Proof.
  intros Hfuel. unfold get_random_fortune, fortune_files_from_paths.
  unfold bind at 1. unfold bind at 1.
  pose proof (check_percentages_ends
                (percentages
                   (fold_left (resolver_step fs offensive) fortunepaths
                              (mkResolver [] [] None))) w) as H1.
  destruct (check_percentages _ w) as [[checked|e|] w1];
    [|discriminate|contradiction].
  unfold ret at 1. unfold bind at 1.
  pose proof (initial_weights_ends
                fs weighted
                (fortune_files
                   (fold_left (resolver_step fs offensive) fortunepaths
                              (mkResolver [] [] None))) checked w1) as H2.
  destruct (initial_weights _ _ _ _ w1) as [[weights|e|] w2];
    [|discriminate|contradiction].
  apply search_loop_ends; [lia|]. rewrite Z.sub_0_r. exact Hfuel.
Qed.

Lemma get_random_fortune_ends_witness :
  fst (get_random_fortune (single_file_fs "f" [] [(0, 5)]) zero_entropy
                          (S (Z.to_nat ATTEMPTS)) ["f"%string] true None
                          1000 (Some 1000) initial_world) <> OutOfFuel.
Proof.
  apply (get_random_fortune_ends
           (single_file_fs "f" [] [(0, 5)]) zero_entropy
           (S (Z.to_nat ATTEMPTS)) ["f"%string] true None 1000 (Some 1000)
           initial_world).
  apply Nat.lt_succ_diag_r.
Defined.

Lemma rselect_scan_in (fortune_files : list string) (rand_limit : Z)
      (weights : list Z) :
  forall (total : Z) (i : nat) (f : string),
    rselect_scan fortune_files rand_limit weights total i = Ok f ->
    In f fortune_files.
Proof.
  induction weights as [|weight rest IH]; intros total i f;
    cbn [rselect_scan]; [discriminate|].
  destruct (rand_limit <=? total + weight); [|apply IH].
  destruct (nth_error fortune_files i) as [g|] eqn:E; [|discriminate].
  intros H. injection H as <-. exact (nth_error_In _ _ E).
Qed.

Lemma rselect_fortune_file_in (entropy : nat -> Z)
      (fortune_files : list string) (weights : option (list Z))
      (w w' : world) (f : string) :
  rselect_fortune_file entropy fortune_files weights w = (Ok f, w') ->
  In f fortune_files.
Proof.
  destruct weights as [ws|]; [|apply choice_in].
  unfold rselect_fortune_file, bind, lift.
  destruct (randbelow entropy (fold_left Z.add ws 0) w) as [[r|e|] w1];
    try discriminate.
  destruct (rselect_scan fortune_files (r + 1) ws 0 0) as [g|e|] eqn:E;
    try discriminate.
  intros H. injection H as <- _. exact (rselect_scan_in _ _ _ _ _ _ E).
Qed.

Lemma seek_read_length (content : bytes) (start length : Z) (t : text) :
  0 <= length -> seek_read content start length = Ok t -> len t <= length.
Proof.
  intros Hl. unfold seek_read. destruct (start <? 0); [discriminate|].
  destruct (utf8_decode (skipn (Z.to_nat start) content)) as [decoded|];
    [|discriminate].
  rewrite (proj2 (Z.ltb_ge _ _)) by lia.
  intros H. injection H as <-. unfold len.
  pose proof (firstn_le_length (Z.to_nat length) (translate_newlines decoded)).
  lia.
Qed.

Lemma extract_fortune_length (fs : filesystem) (f : string)
      (start length : Z) (w w' : world) (t : text) :
  0 <= length ->
  extract_fortune fs f start length w = (Ok t, w') -> len t <= length.
Proof.
  intros Hl. unfold extract_fortune.
  destruct (corpus fs f) as [content|]; [|discriminate].
  unfold bind, lift.
  destruct (seek_read content start length) as [stored|e|] eqn:E;
    try discriminate.
  apply (seek_read_length _ _ _ _ Hl) in E.
  destruct (endswith f "-o"); unfold ret; intros H; injection H as <- _;
    [|exact E].
  unfold rot13, len in *. rewrite length_map. exact E.
Qed.

Lemma search_loop_result (fs : filesystem) (entropy : nat -> Z)
      (fortune_files : list string) (weights : option (list Z))
      (min_length : Z) (max_length : option Z) :
  forall (fuel : nat) (attempt : Z) (w w' : world) (t : text),
    search_loop fs entropy fuel fortune_files weights min_length max_length
                attempt w = (Ok t, w') ->
    (t = [] /\ exists w0, w' = mkWorld (draws w0) (stderr w0 ++ [MSG_GIVEN_UP]))
    \/ exists (f : string) (data : list (Z * Z)) (start length : Z)
              (w0 : world),
        In f fortune_files
        /\ index_data fs (f ++ INDEX_EXT)%string = Some data
        /\ In (start, length) data
        /\ out_of_bounds length min_length max_length = false
        /\ extract_fortune fs f start length w0 = (Ok t, w').
Proof.
  induction fuel as [|fuel IH]; intros attempt w w' t; [discriminate|].
  cbn [search_loop]. unfold bind at 1.
  destruct (rselect_fortune_file entropy fortune_files weights w)
    as [[f|e|] w1] eqn:Es; try discriminate.
  apply rselect_fortune_file_in in Es.
  unfold fortune_file_data, bind at 1.
  destruct (index_data fs (f ++ INDEX_EXT)) as [data|] eqn:Hdata;
    [|discriminate].
  unfold ret at 1. unfold bind at 1.
  destruct (choice entropy data w1) as [[[start length]|e|] w2] eqn:Ec;
    try discriminate.
  apply choice_in in Ec.
  destruct (out_of_bounds length min_length max_length) eqn:Hb.
  - destruct (ATTEMPTS <? attempt + 1).
    + intros H. injection H as <- <-. left. split; [reflexivity|].
      exists w2. reflexivity.
    + apply IH.
  - intros H. right. exists f, data, start, length, w2. auto.
Qed.

Lemma out_of_bounds_false (length min_length : Z) (max_length : option Z) :
  out_of_bounds length min_length max_length = false ->
  min_length <= length /\ forall m, max_length = Some m -> length <= m.
Proof.
  unfold out_of_bounds. intros H. apply orb_false_iff in H.
  destruct H as [H1 H2]. apply Z.ltb_ge in H1. split; [exact H1|].
  intros m ->. apply Z.ltb_ge in H2. exact H2.
Qed.

(** X17. What [get_random_fortune] returns is either the empty string of
    its give-up exit, with the diagnostic last on standard error, or the
    text extracted for a record that is in the index of one of the
    resolved files and whose length is within the bounds; with a
    non-negative [min_length] the text has at most that length in
    characters. *)
Theorem get_random_fortune_result
        (fs : filesystem) (entropy : nat -> Z) (fuel : nat)
        (fortunepaths : list string) (weighted : bool)
        (offensive : option bool) (min_length : Z) (max_length : option Z)
        (w w' : world) (t : text) :
  0 <= min_length ->
  get_random_fortune fs entropy fuel fortunepaths weighted offensive
                     min_length max_length w = (Ok t, w') ->
  (t = [] /\ exists w0, w' = mkWorld (draws w0) (stderr w0 ++ [MSG_GIVEN_UP]))
  \/ exists (f : string) (data : list (Z * Z)) (start length : Z)
            (w0 : world),
      In f (fortune_files (resolve fs offensive fortunepaths))
      /\ index_data fs (f ++ INDEX_EXT)%string = Some data
      /\ In (start, length) data
      /\ min_length <= length
      /\ (forall m, max_length = Some m -> length <= m)
      /\ extract_fortune fs f start length w0 = (Ok t, w')
      /\ len t <= length.
Proof.
  intros Hmin. unfold get_random_fortune. unfold bind at 1.
  destruct (fortune_files_from_paths fs fortunepaths offensive w)
    as [[[ps files]|e|] w1] eqn:Hres; try discriminate.
  destruct (fortune_files_from_paths_ok _ _ _ _ _ _ _ Hres) as (_ & -> & _).
  unfold bind at 1.
  destruct (initial_weights fs weighted _ ps w1) as [[weights|e|] w2];
    try discriminate.
  intros H. apply search_loop_result in H.
  destruct H as [H|(f & data & start & length & w0 & Hf & Hd & Hin & Hb & He)];
    [left; exact H|right].
  apply out_of_bounds_false in Hb. destruct Hb as [Hlo Hhi].
  exists f, data, start, length, w0.
  split; [exact Hf|]. split; [exact Hd|]. split; [exact Hin|].
  split; [exact Hlo|]. split; [exact Hhi|]. split; [exact He|].
  assert (Hl : 0 <= length) by lia.
  exact (extract_fortune_length _ _ _ _ _ _ _ Hl He).
Qed.

Lemma get_random_fortune_result_witness :
  ([98; LF] = [] /\
   exists w0, drawn 2 initial_world
              = mkWorld (draws w0) (stderr w0 ++ [MSG_GIVEN_UP]))
  \/ exists (f : string) (data : list (Z * Z)) (start length : Z)
            (w0 : world),
      In f (fortune_files
              (resolve (single_file_fs "f" [98; LF] [(0, 2)]) None
                       ["f"%string]))
      /\ index_data (single_file_fs "f" [98; LF] [(0, 2)])
                    (f ++ INDEX_EXT)%string = Some data
      /\ In (start, length) data
      /\ 0 <= length
      /\ (forall m, Some 160 = Some m -> length <= m)
      /\ extract_fortune (single_file_fs "f" [98; LF] [(0, 2)])
                         f start length w0
         = (Ok [98; LF], drawn 2 initial_world)
      /\ len [98; LF] <= length.
Proof.
  apply (get_random_fortune_result
           (single_file_fs "f" [98; LF] [(0, 2)]) zero_entropy 1
           ["f"%string] true None 0 (Some 160) initial_world
           (drawn 2 initial_world) [98; LF]).
  - lia.
  - reflexivity.
Defined.

(** ** The index builder ([make_fortune_data_file]) *)

Lemma index_fold (ts : list fortune_triple) :
  forall (data : list (Z * Z)) (shortest longest : Z),
    fold_left index_step ts (data, shortest, longest)
    = (data ++ map (fun t => (fst (fst t), snd (fst t))) ts,
       fold_left Z.min (map (fun t => snd (fst t)) ts) shortest,
       fold_left Z.max (map (fun t => snd (fst t)) ts) longest).
Proof.
  induction ts as [|[[s l] f] ts IH]; intros data shortest longest.
  - cbn. rewrite app_nil_r. reflexivity.
  - cbn [fold_left map index_step fst snd]. rewrite IH, <- app_assoc.
    reflexivity.
Qed.

Lemma fold_min_le (ls : list Z) :
  forall a, fold_left Z.min ls a <= a
            /\ (forall l, In l ls -> fold_left Z.min ls a <= l)
            /\ (fold_left Z.min ls a = a \/ In (fold_left Z.min ls a) ls).
Proof.
  induction ls as [|x ls IH]; intros a; cbn [fold_left].
  - split; [lia|]. split; [intros l []|left; reflexivity].
  - destruct (IH (Z.min a x)) as (H1 & H2 & H3).
    split; [lia|]. split.
    + intros l [<-|Hl]; [lia|apply H2; exact Hl].
    + destruct H3 as [H3|H3]; [|right; right; exact H3].
      rewrite H3. destruct (Z.min_spec a x) as [[_ ->]|[_ ->]];
        [left; reflexivity|right; left; reflexivity].
Qed.

Lemma fold_max_ge (ls : list Z) :
  forall a, a <= fold_left Z.max ls a
            /\ (forall l, In l ls -> l <= fold_left Z.max ls a)
            /\ (fold_left Z.max ls a = a \/ In (fold_left Z.max ls a) ls).
Proof.
  induction ls as [|x ls IH]; intros a; cbn [fold_left].
  - split; [lia|]. split; [intros l []|left; reflexivity].
  - destruct (IH (Z.max a x)) as (H1 & H2 & H3).
    split; [lia|]. split.
    + intros l [<-|Hl]; [lia|apply H2; exact Hl].
    + destruct H3 as [H3|H3]; [|right; right; exact H3].
      rewrite H3. destruct (Z.max_spec a x) as [[_ ->]|[_ ->]];
        [right; left; reflexivity|left; reflexivity].
Qed.

(** X18. For every stream the index builder stores the [(start, length)]
    pairs of the parser in their order, and the two lengths of its report
    bound every stored length: [shortest <= length <= longest]. With no
    record at all, [longest] is 0 and [shortest] is still [sys.maxsize];
    with a record, [longest] is the length of one of them. *)
Theorem index_of_stream_report (stream : text) :
  let '(data, shortest, longest) := index_of_stream stream in
  data = index_of_text stream
  /\ (forall start length,
         In (start, length) data -> shortest <= length <= longest)
  /\ (data = [] -> shortest = sys_maxsize /\ longest = 0)
  /\ (data <> [] -> exists start, In (start, longest) data).
Proof.
  unfold index_of_stream. rewrite index_fold. cbn [app].
  fold (index_of_text stream).
  set (ls := map (fun t : fortune_triple => snd (fst t)) (read_fortunes stream)).
  destruct (fold_min_le ls sys_maxsize) as (_ & Hmin & _).
  destruct (fold_max_ge ls 0) as (_ & Hmax & Hatt).
  assert (Hls : forall start length,
             In (start, length) (index_of_text stream) -> In length ls).
  { intros start length Hin. unfold index_of_text in Hin.
    apply in_map_iff in Hin. destruct Hin as (t & E & Ht).
    injection E as _ <-. subst ls.
    exact (in_map (fun t : fortune_triple => snd (fst t)) _ _ Ht). }
  split; [reflexivity|]. split; [|split].
  - intros start length Hin. apply Hls in Hin. split; auto.
  - unfold index_of_text. intros E. apply map_eq_nil in E.
    subst ls. rewrite E. split; reflexivity.
  - intros Hne. destruct Hatt as [Hz|Hin].
    + exfalso. unfold index_of_text in Hne.
      destruct (read_fortunes stream) as [|[[s l] f] ts] eqn:Er;
        [apply Hne; reflexivity|].
      assert (Hl : In l ls) by (subst ls; left; reflexivity).
      pose proof (Hmax l Hl) as Hle.
      destruct (read_fortunes_loop_lengths (splitlines stream) [] (-1) 0
                  ltac:(split; [lia|left; split; reflexivity]) s l f)
        as (Hf & _ & Hlen & _).
      { fold (read_fortunes stream). rewrite Er. left. reflexivity. }
      destruct f as [|c f]; [contradiction|].
      unfold len in Hlen. cbn [List.length] in Hlen. lia.
    + subst ls. apply in_map_iff in Hin. destruct Hin as ([[s l] f] & E & Ht).
      cbn [fst snd] in E. exists s. unfold index_of_text.
      apply in_map_iff. exists (s, l, f). split; [cbn; rewrite E; reflexivity|].
      exact Ht.
Qed.

(** X19. In update mode an index file becomes a file to index only when
    it is named on its own: what a directory contributes never ends in
    the index extension. *)
Theorem update_targets_skip_index_files
        (fs : filesystem) (fortunepaths : list string) (target : string) :
  In target (update_targets fs fortunepaths) ->
  endswith target INDEX_EXT = true ->
  In target fortunepaths /\ isdir fs target = false.
Proof.
  unfold update_targets. intros Hin Hext.
  apply in_flat_map in Hin. destruct Hin as (path & Hp & Hin).
  destruct (isdir fs path) eqn:Hd.
  - apply filter_In in Hin. destruct Hin as [_ Hin].
    rewrite Hext in Hin. discriminate.
  - destruct Hin as [<-|[]]. split; assumption.
Qed.

Lemma update_targets_skip_index_files_witness :
  In "x.p4dat"%string ["d"; "x.p4dat"]%string
  /\ isdir (mkFS (fun p => String.eqb p "d")
                 (fun _ => ["d/a"; "d/a.p4dat"]%string)
                 (fun _ => None) (fun _ => None) no_such_file)
          "x.p4dat" = false.
Proof.
  apply (update_targets_skip_index_files
           (mkFS (fun p => String.eqb p "d")
                 (fun _ => ["d/a"; "d/a.p4dat"]%string)
                 (fun _ => None) (fun _ => None) no_such_file)
           ["d"; "x.p4dat"]%string "x.p4dat").
  - right. left. reflexivity.
  - reflexivity.
Defined.

(** ** Indexing, then selecting *)

Lemma open_text_encode (stream : text) :
  Forall valid_cp stream -> ~ In CR stream ->
  open_text (utf8_encode stream) = Some stream.
Proof.
  intros Hv Hcr. unfold open_text. rewrite (utf8_decode_encode _ Hv).
  cbn [option_map]. rewrite (translate_newlines_no_CR _ Hcr). reflexivity.
Qed.

Lemma index_of_stream_data (stream : text) :
  fst (fst (index_of_stream stream)) = index_of_text stream.
Proof. unfold index_of_stream. rewrite index_fold. reflexivity. Qed.

(** X20. Indexing a file and then selecting from it gives one of its
    records. Let a file that is named on its own hold the UTF-8 encoding
    of a text without carriage returns, which does not begin with a
    delimiter line and has a record, and let its index hold what the
    index builder computes for it. Then the builder succeeds on the file,
    and [get_random_fortune] on that file alone, without length bounds,
    not weighted, or weighted when the number [n] of its records is
    small enough for [100 * n * n] to be held in a binary64 number
    without a rounding error, returns after two draws the text of one
    record of the parser (rotated once when the name ends in ["-o"]). *)
Theorem indexed_file_gives_a_record
        (fs : filesystem) (entropy : nat -> Z) (fuel : nat) (f : string)
        (stream : text) (weighted : bool) (w : world) :
  plain_file fs f ->
  Forall valid_cp stream ->
  ~ In CR stream ->
  firstn 2 stream <> delimiter_line ->
  read_fortunes stream <> [] ->
  corpus fs f = Some (utf8_encode stream) ->
  index_data fs (f ++ INDEX_EXT)%string
  = Some (fst (fst (index_of_stream stream))) ->
  (weighted = true ->
   100 * len (read_fortunes stream) * len (read_fortunes stream) < 2 ^ 53) ->
  (0 < fuel)%nat ->
  index_one_file fs f w = (Ok (index_of_stream stream), w)
  /\ exists (start length : Z) (fortune : text),
      In (start, length, fortune) (read_fortunes stream)
      /\ get_random_fortune fs entropy fuel [f] weighted None 0 None w
         = (Ok (if endswith f "-o" then rot13 fortune else fortune),
            drawn 2 w).
Proof.
  intros Hplain Hv Hcr Hlead Hrec Hfile Hindex Hsize Hfuel. split.
  { unfold index_one_file. rewrite Hfile, (open_text_encode _ Hv Hcr).
    reflexivity. }
  rewrite index_of_stream_data in Hindex.
  set (data := index_of_text stream) in *.
  assert (Hne : data <> []).
  { subst data. unfold index_of_text. intros E. apply map_eq_nil in E.
    contradiction. }
  unfold get_random_fortune.
  rewrite (bind_ok _ _ _ _ _
             (fortune_files_from_paths_plain fs [f] None w
                (Forall_cons f Hplain (Forall_nil _)))).
  cbn [kept_files map].
  assert (Hw : exists weights,
             initial_weights fs weighted [f] [None] w = (Ok weights, w)
             /\ drawable [f] weights).
  { destruct weighted.
    - exists (Some [len data]). split.
      + assert (E1 : mapM (fun fortune_file =>
                             bind (fortune_file_data fs fortune_file)
                                  (fun d => ret (len d))) [f] w
                     = (Ok [len data], w)).
        { cbn [mapM]. unfold bind, fortune_file_data, ret.
          rewrite Hindex. reflexivity. }
        unfold initial_weights. rewrite (bind_ok _ _ _ _ _ E1).
        unfold bind, lift.
        rewrite (adjust_weights_single (len data)); [reflexivity| |].
        * unfold len. destruct data; [contradiction|]. cbn [List.length].
          lia.
        * specialize (Hsize eq_refl). subst data. unfold index_of_text.
          unfold len in *. rewrite length_map. exact Hsize.
      + split; [discriminate|]. split; [reflexivity|].
        unfold spec_total_raw_weight, len. cbn [fold_right].
        destruct data; [contradiction|]. cbn [List.length]. lia.
    - exists None. split; [reflexivity|]. split; [discriminate|exact I]. }
  destruct Hw as (weights & Ew & Hd).
  rewrite (bind_ok _ _ _ _ _ Ew).
  destruct fuel as [|fuel]; [lia|]. cbn [search_loop].
  destruct (rselect_member entropy [f] weights w Hd) as (g & Hg & Es).
  destruct Hg as [<-|[]].
  rewrite (bind_ok _ _ _ _ _ Es).
  unfold fortune_file_data at 1. rewrite Hindex.
  unfold bind at 1. unfold ret at 1.
  destruct (choice_member entropy data (drawn 1 w) Hne)
    as ([start length] & Hin & Ec).
  rewrite (bind_ok _ _ _ _ _ Ec), drawn_drawn.
  subst data. unfold index_of_text in Hin. apply in_map_iff in Hin.
  destruct Hin as ([[s l] fortune] & E & Ht). cbn [fst snd] in E.
  injection E as -> ->.
  exists start, length, fortune. split; [exact Ht|].
  destruct (read_fortunes_loop_lengths (splitlines stream) [] (-1) 0
              ltac:(split; [lia|left; split; reflexivity])
              start length fortune Ht) as (_ & _ & Hlen & _).
  assert (Hb : out_of_bounds length 0 None = false).
  { unfold out_of_bounds. rewrite orb_false_r. apply Z.ltb_ge.
    unfold len in Hlen. lia. }
  rewrite Hb. unfold extract_fortune. rewrite Hfile.
  pose proof (seek_read_record stream (start, length, fortune) Hv Hcr
                               (read_fortunes_sound _ _ Hlead Ht)) as Er.
  cbn [fst snd] in Er. unfold bind, lift. rewrite Er.
  destruct (endswith f "-o"); reflexivity.
Qed.

Lemma indexed_file_gives_a_record_witness :
  exists (start length : Z) (fortune : text),
    In (start, length, fortune) (read_fortunes [233; LF; 37; LF; 66; LF])
    /\ get_random_fortune
         (single_file_fs "f" (utf8_encode [233; LF; 37; LF; 66; LF])
                         (index_of_text [233; LF; 37; LF; 66; LF]))
         (fun _ => 1) 1 ["f"%string] true None 0 None initial_world
       = (Ok (if endswith "f" "-o" then rot13 fortune else fortune),
          drawn 2 initial_world).
Proof.
  apply (indexed_file_gives_a_record
           (single_file_fs "f" (utf8_encode [233; LF; 37; LF; 66; LF])
                           (index_of_text [233; LF; 37; LF; 66; LF]))
           (fun _ => 1) 1 "f" [233; LF; 37; LF; 66; LF] true initial_world).
  - split; reflexivity.
  - repeat constructor; unfold valid_cp, LF; lia.
  - unfold CR, LF. cbn. intuition lia.
  - discriminate.
  - discriminate.
  - reflexivity.
  - reflexivity.
  - intros _. vm_compute. reflexivity.
  - apply Nat.lt_0_1.
Defined.

(** ** The rotation of offensive files (C9) *)

Lemma extract_fortune_record
      (fs : filesystem) (f : string) (stream : text)
      (start length : Z) (fortune : text) (w : world) :
  indexed_corpus fs f stream ->
  In (start, length, fortune) (read_fortunes stream) ->
  extract_fortune fs f start length w
  = (Ok (if endswith f "-o" then rot13 fortune else fortune), w).
Proof.
  intros (Hv & Hcr & Hlead & Hfile & _) Hin.
  unfold extract_fortune. rewrite Hfile.
  pose proof (seek_read_record stream (start, length, fortune) Hv Hcr
                               (read_fortunes_sound _ _ Hlead Hin)) as E.
  cbn [fst snd] in E. unfold bind, lift. rewrite E.
  destruct (endswith f "-o"); reflexivity.
Qed.

Lemma index_of_text_in (stream : text) (start length : Z) :
  In (start, length) (index_of_text stream) ->
  exists fortune, In (start, length, fortune) (read_fortunes stream).
Proof.
  unfold index_of_text. intros H. apply in_map_iff in H.
  destruct H as ([[s l] fortune] & E & Ht). cbn [fst snd] in E.
  injection E as -> ->. exists fortune. exact Ht.
Qed.



(** ** Filtering mode ([filter_fortunes]) *)

Lemma fbind_ok {A B} (c : F A) (k : A -> F B) (log log' : list event)
      (a : A) :
  c log = (Ok a, log') -> fbind c k log = k a log'.
Proof. intros E. unfold fbind. rewrite E. reflexivity. Qed.

Lemma fbind_raise {A B} (c : F A) (k : A -> F B) (log log' : list event)
      (e : exn) :
  c log = (Raise e, log') -> fbind c k log = (Raise e, log').
Proof. intros E. unfold fbind. rewrite E. reflexivity. Qed.

Lemma stdout_of_app (a b : list event) :
  stdout_of (a ++ b) = stdout_of a ++ stdout_of b.
Proof. apply flat_map_app. Qed.

Lemma stderr_of_app (a b : list event) :
  stderr_of (a ++ b) = stderr_of a ++ stderr_of b.
Proof. apply flat_map_app. Qed.

Lemma open_fortunes_readable (fs : filesystem) (f : string)
      (ts : list fortune_triple) (log : list event) :
  readable fs f ts -> open_fortunes fs f log = (Ok ts, log).
Proof.
  intros (content & stream & Hc & Ho & ->). unfold open_fortunes.
  rewrite Hc, Ho. reflexivity.
Qed.

Section FilterFacts.

Variable fs : filesystem.
Variable search : text -> bool.
Variable min_length : Z.
Variable max_length : option Z.

Lemma first_match_none (f : string) (ts : list fortune_triple) :
  matching_texts search min_length max_length f ts = [] ->
  first_match search min_length max_length f ts = None.
Proof.
  unfold matching_texts.
  induction ts as [|[[s l] t] ts IH]; [reflexivity|].
  cbn [first_match filter fst snd].
  destruct (out_of_bounds l min_length max_length); cbn [negb andb];
    [exact IH|].
  destruct (search (rotfortune f t)); [discriminate|exact IH].
Qed.

Lemma first_match_some (f : string) (ts : list fortune_triple)
      (m : text) (ms : list text) :
  matching_texts search min_length max_length f ts = m :: ms ->
  exists rest,
    first_match search min_length max_length f ts = Some (m, rest)
    /\ ms = matching_texts search min_length max_length f rest.
Proof.
  unfold matching_texts.
  induction ts as [|[[s l] t] ts IH]; [discriminate|].
  cbn [first_match filter fst snd].
  destruct (out_of_bounds l min_length max_length); cbn [negb andb];
    [exact IH|].
  destruct (search (rotfortune f t)); [|exact IH].
  cbn [map snd]. intros H. injection H as <- <-.
  exists ts. split; reflexivity.
Qed.

Lemma print_rest_of_first_out (ts : list fortune_triple) :
  forall log : list event,
  exists ev,
    print_rest_of_first search min_length max_length ts log
    = (Ok tt, log ++ ev)
    /\ stdout_of ev
       = flat_map (fun t => delimiter_line ++ t)
                  (matching_stored_texts search min_length max_length ts)
    /\ stderr_of ev = [].
Proof.
  unfold matching_stored_texts.
  induction ts as [|[[s l] t] ts IH]; intros log.
  - exists []. rewrite app_nil_r. repeat split.
  - cbn [print_rest_of_first filter fst snd].
    destruct (out_of_bounds l min_length max_length); cbn [negb andb];
      [apply IH|].
    destruct (search t); [|apply IH].
    destruct (IH ((log ++ [Out delimiter_line]) ++ [Out t]))
      as (ev & E & Ho & He).
    exists ([Out delimiter_line; Out t] ++ ev).
    split; [|split].
    + unfold fbind, emit. rewrite E. f_equal.
      rewrite <- !app_assoc. reflexivity.
    + rewrite stdout_of_app, Ho. cbn [map flat_map stdout_of snd app].
      rewrite app_nil_r, <- app_assoc. reflexivity.
    + rewrite stderr_of_app, He. reflexivity.
Qed.

Lemma print_matches_out (f : string) (ts : list fortune_triple) :
  forall log : list event,
  exists ev,
    print_matches search min_length max_length f ts log = (Ok tt, log ++ ev)
    /\ stdout_of ev
       = flat_map (fun t => delimiter_line ++ t)
                  (matching_texts search min_length max_length f ts)
    /\ stderr_of ev = [].
Proof.
  unfold matching_texts.
  induction ts as [|[[s l] t] ts IH]; intros log.
  - exists []. rewrite app_nil_r. repeat split.
  - cbn [print_matches filter fst snd].
    destruct (out_of_bounds l min_length max_length); cbn [negb andb];
      [apply IH|].
    destruct (search (rotfortune f t)); [|apply IH].
    destruct (IH ((log ++ [Out delimiter_line]) ++ [Out (rotfortune f t)]))
      as (ev & E & Ho & He).
    exists ([Out delimiter_line; Out (rotfortune f t)] ++ ev).
    split; [|split].
    + unfold fbind, emit. rewrite E. f_equal.
      rewrite <- !app_assoc. reflexivity.
    + rewrite stdout_of_app, Ho. cbn [map flat_map stdout_of snd app].
      rewrite app_nil_r, <- app_assoc. reflexivity.
    + rewrite stderr_of_app, He. reflexivity.
Qed.

Lemma matching_texts_not_offensive (f : string) (ts : list fortune_triple) :
  endswith f "-o" = false ->
  matching_texts search min_length max_length f ts
  = matching_stored_texts search min_length max_length ts.
Proof.
  intros H. unfold matching_texts, matching_stored_texts, rotfortune.
  rewrite H. reflexivity.
Qed.

Lemma print_remaining_files_out (files : list string)
      (tss : list (list fortune_triple)) :
  Forall2 (readable fs) files tss ->
  forall log : list event,
  exists ev,
    print_remaining_files fs search min_length max_length files log
    = (Ok tt, log ++ ev)
    /\ stdout_of ev
       = flat_map (fun t => delimiter_line ++ t)
                  (all_matching_texts search min_length max_length files tss)
    /\ stderr_of ev = flat_map header_next files.
Proof.
  induction 1 as [|f ts files tss Hr _ IH]; intros log.
  - exists []. rewrite app_nil_r. repeat split.
  - cbn [print_remaining_files all_matching_texts].
    destruct (print_matches_out f ts (log ++ [Err (header_next f)]))
      as (ev1 & E1 & Ho1 & He1).
    destruct (IH ((log ++ [Err (header_next f)]) ++ ev1))
      as (ev2 & E2 & Ho2 & He2).
    exists ([Err (header_next f)] ++ ev1 ++ ev2). split; [|split].
    + unfold fbind at 1. unfold emit at 1.
      rewrite (fbind_ok _ _ _ _ _ (open_fortunes_readable _ _ _ _ Hr)).
      rewrite (fbind_ok _ _ _ _ _ E1), E2. f_equal.
      rewrite <- !app_assoc. reflexivity.
    + rewrite !stdout_of_app, Ho1, Ho2, flat_map_app. reflexivity.
    + rewrite !stderr_of_app, He1, He2. cbn [stderr_of flat_map app].
      rewrite app_nil_r. reflexivity.
Qed.

Lemma find_first_match_nothing (files : list string)
      (tss : list (list fortune_triple)) :
  Forall2 (readable fs) files tss ->
  all_matching_texts search min_length max_length files tss = [] ->
  forall log : list event,
    find_first_match fs search min_length max_length files log
    = (Raise (SystemExit 1),
       log ++ map (fun f => Err (header_first f)) files
           ++ [Err MSG_NOTHING_FOUND]).
Proof.
  induction 1 as [|f ts files tss Hr _ IH]; intros Hnone log.
  - reflexivity.
  - cbn [all_matching_texts] in Hnone. apply app_eq_nil in Hnone.
    destruct Hnone as [H1 H2].
    cbn [find_first_match]. unfold fbind at 1. unfold emit at 1.
    rewrite (fbind_ok _ _ _ _ _ (open_fortunes_readable _ _ _ _ Hr)).
    rewrite (first_match_none _ _ H1), (IH H2).
    cbn [map]. rewrite <- !app_assoc. reflexivity.
Qed.

Lemma find_first_match_found (files : list string)
      (tss : list (list fortune_triple)) (m : text) (ms : list text) :
  Forall2 (readable fs) files tss ->
  all_matching_texts search min_length max_length files tss = m :: ms ->
  forall log : list event,
  exists (f : string) (rest : list fortune_triple) (files' : list string)
         (tss' : list (list fortune_triple)) (ev : list event),
    find_first_match fs search min_length max_length files log
    = (Ok (rest, files'), log ++ ev)
    /\ stdout_of ev = m ++ [LF]
    /\ In f files
    /\ Forall2 (readable fs) files' tss'
    /\ ms = matching_texts search min_length max_length f rest
            ++ all_matching_texts search min_length max_length files' tss'.
Proof.
  induction 1 as [|f ts files tss Hr Hrs IH]; intros Hm log; [discriminate|].
  cbn [all_matching_texts] in Hm.
  cbn [find_first_match]. unfold fbind at 1. unfold emit at 1.
  rewrite (fbind_ok _ _ _ _ _ (open_fortunes_readable _ _ _ _ Hr)).
  destruct (matching_texts search min_length max_length f ts) as [|m1 ms1]
    eqn:E1.
  - rewrite (first_match_none _ _ E1). cbn [app] in Hm.
    destruct (IH Hm (log ++ [Err (header_first f)]))
      as (g & rest & files' & tss' & ev & E & Ho & Hg & Hr' & Hms).
    exists g, rest, files', tss', ([Err (header_first f)] ++ ev).
    split; [rewrite E, <- app_assoc; reflexivity|].
    split; [rewrite stdout_of_app; exact Ho|].
    split; [right; exact Hg|]. split; assumption.
  - cbn [app] in Hm. injection Hm as -> <-.
    destruct (first_match_some _ _ _ _ E1) as (rest & Ef & Hms).
    rewrite Ef.
    exists f, rest, files, tss, [Err (header_first f); Out (m ++ [LF])].
    split.
    { unfold fbind, emit, fret. rewrite <- app_assoc. reflexivity. }
    split; [cbn; rewrite app_nil_r; reflexivity|].
    split; [left; reflexivity|]. split; [exact Hrs|].
    rewrite Hms. reflexivity.
Qed.

Lemma find_first_match_first (f : string) (others : list string)
      (ts : list fortune_triple) (m : text) (rest : list fortune_triple)
      (log : list event) :
  readable fs f ts ->
  first_match search min_length max_length f ts = Some (m, rest) ->
  find_first_match fs search min_length max_length (f :: others) log
  = (Ok (rest, others), log ++ [Err (header_first f); Out (m ++ [LF])]).
Proof.
  intros Hr Hfirst.
  cbn [find_first_match]. unfold fbind at 1. unfold emit at 1.
  rewrite (fbind_ok _ _ _ _ _ (open_fortunes_readable _ _ _ _ Hr)).
  rewrite Hfirst. unfold fbind, emit, fret. rewrite <- app_assoc.
  reflexivity.
Qed.

End FilterFacts.

Lemma lift_M_resolver (fs : filesystem) (paths : list string)
      (offensive : option bool) (ps : list (option float)) (files : list string)
      (w1 : world) (log : list event) :
  fortune_files_from_paths fs paths offensive initial_world
  = (Ok (ps, files), w1) ->
  lift_M (fortune_files_from_paths fs paths offensive) log
  = (Ok (ps, files), log).
Proof.
  intros H. unfold lift_M. rewrite H.
  destruct (fortune_files_from_paths_ok _ _ _ _ _ _ _ H) as (-> & _).
  cbn. rewrite app_nil_r. reflexivity.
Qed.

(** X21. When every resolved file can be read and none has a record
    within the bounds that the pattern matches (in its rotated text for an
    offensive file), [filter_fortunes] writes nothing on standard output,
    writes the header of every file and then "Nothing found!" on standard
    error, and leaves through [sys.exit(1)]. *)
Theorem filter_fortunes_nothing_found
        (fs : filesystem) (search : text -> bool) (min_length : Z)
        (max_length : option Z) (paths : list string)
        (offensive : option bool) (ps : list (option float))
        (files : list string) (tss : list (list fortune_triple))
        (w1 : world) (log : list event) :
  fortune_files_from_paths fs paths offensive initial_world
  = (Ok (ps, files), w1) ->
  Forall2 (readable fs) files tss ->
  all_matching_texts search min_length max_length files tss = [] ->
  filter_fortunes fs search min_length max_length paths offensive log
  = (Raise (SystemExit 1),
     log ++ map (fun f => Err (header_first f)) files
         ++ [Err MSG_NOTHING_FOUND]).
Proof.
  intros Hres Hr Hnone. unfold filter_fortunes.
  rewrite (fbind_ok _ _ _ _ _ (lift_M_resolver _ _ _ _ _ _ log Hres)).
  apply fbind_raise. apply find_first_match_nothing with (tss := tss);
    assumption.
Qed.

Lemma filter_fortunes_nothing_found_witness :
  filter_fortunes (single_file_fs "d/f" [66; LF; 37; LF; 67; LF] [])
                  (fun t => text_eqb t [65; LF]) 0 None ["d/f"%string] None []
  = (Raise (SystemExit 1),
     [Err (header_first "d/f"); Err MSG_NOTHING_FOUND]).
Proof.
  apply (filter_fortunes_nothing_found
           (single_file_fs "d/f" [66; LF; 37; LF; 67; LF] [])
           (fun t => text_eqb t [65; LF]) 0 None ["d/f"%string] None
           [None] ["d/f"%string] [read_fortunes [66; LF; 37; LF; 67; LF]]
           initial_world []).
  - reflexivity.
  - constructor; [|constructor].
    exists [66; LF; 37; LF; 67; LF], [66; LF; 37; LF; 67; LF].
    repeat split.
  - reflexivity.
Defined.

(** X22. When every resolved file can be read, none is offensive and some
    record matches, [filter_fortunes] returns 0 and its standard output is
    a fortune file of the matches: the texts of all the records within
    the bounds that the pattern matches, in the order of the files and of
    their records, the first followed by a newline and each further one
    behind a delimiter line. *)
Theorem filter_fortunes_prints_the_matches
        (fs : filesystem) (search : text -> bool) (min_length : Z)
        (max_length : option Z) (paths : list string)
        (offensive : option bool) (ps : list (option float))
        (files : list string) (tss : list (list fortune_triple))
        (w1 : world) (m : text) (ms : list text) :
  fortune_files_from_paths fs paths offensive initial_world
  = (Ok (ps, files), w1) ->
  Forall2 (readable fs) files tss ->
  Forall (fun f => endswith f "-o" = false) files ->
  all_matching_texts search min_length max_length files tss = m :: ms ->
  exists log : list event,
    filter_fortunes fs search min_length max_length paths offensive []
    = (Ok 0, log)
    /\ stdout_of log = joined (m :: ms).
Proof.
  intros Hres Hr Hoff Hm. unfold filter_fortunes.
  rewrite (fbind_ok _ _ _ _ _ (lift_M_resolver _ _ _ _ _ _ [] Hres)).
  destruct (find_first_match_found fs search min_length max_length
              files tss m ms Hr Hm [])
    as (f & rest & files' & tss' & ev & E & Ho & Hf & Hr' & Hms).
  rewrite (fbind_ok _ _ _ _ _ E).
  destruct (print_rest_of_first_out search min_length max_length rest
                                    ([] ++ ev))
    as (ev1 & E1 & Ho1 & _).
  rewrite (fbind_ok _ _ _ _ _ E1).
  destruct (print_remaining_files_out fs search min_length max_length
              files' tss' Hr' (([] ++ ev) ++ ev1))
    as (ev2 & E2 & Ho2 & _).
  rewrite (fbind_ok _ _ _ _ _ E2).
  eexists. split; [reflexivity|].
  rewrite !stdout_of_app, Ho, Ho1, Ho2. cbn [stdout_of flat_map app joined].
  rewrite Hms, flat_map_app.
  rewrite Forall_forall in Hoff.
  rewrite (matching_texts_not_offensive search min_length max_length f rest
             (Hoff f Hf)).
  rewrite <- !app_assoc. reflexivity.
Qed.

Lemma filter_fortunes_prints_the_matches_witness :
  exists log : list event,
    filter_fortunes (single_file_fs "f" [97; LF; 37; LF; 98; LF; 37; LF; 97; LF]
                                    [])
                    (fun t => text_eqb t [97; LF]) 0 None ["f"%string] None []
    = (Ok 0, log)
    /\ stdout_of log = joined [[97; LF]; [97; LF]].
Proof.
  apply (filter_fortunes_prints_the_matches
           (single_file_fs "f" [97; LF; 37; LF; 98; LF; 37; LF; 97; LF] [])
           (fun t => text_eqb t [97; LF]) 0 None ["f"%string] None
           [None] ["f"%string]
           [read_fortunes [97; LF; 37; LF; 98; LF; 37; LF; 97; LF]]
           initial_world [97; LF] [[97; LF]]).
  - reflexivity.
  - constructor; [|constructor].
    exists [97; LF; 37; LF; 98; LF; 37; LF; 97; LF],
           [97; LF; 37; LF; 98; LF; 37; LF; 97; LF].
    repeat split.
  - repeat constructor.
  - reflexivity.
Defined.

(** X23. When the first resolved file can be read and has a record that
    matches, the later records of that file are tested and written as
    they are stored: for an offensive file the pattern is tried on the
    rotated text only up to the first match, which is written rotated,
    and on the stored text after it. The later files are handled with
    their rotated texts. *)
Theorem filter_fortunes_first_file
        (fs : filesystem) (search : text -> bool) (min_length : Z)
        (max_length : option Z) (paths : list string)
        (offensive : option bool) (ps : list (option float))
        (f : string) (others : list string) (ts : list fortune_triple)
        (tss : list (list fortune_triple)) (w1 : world)
        (m : text) (rest : list fortune_triple) :
  fortune_files_from_paths fs paths offensive initial_world
  = (Ok (ps, f :: others), w1) ->
  readable fs f ts ->
  Forall2 (readable fs) others tss ->
  first_match search min_length max_length f ts = Some (m, rest) ->
  exists log : list event,
    filter_fortunes fs search min_length max_length paths offensive []
    = (Ok 0, log)
    /\ stdout_of log
       = (m ++ [LF])
         ++ flat_map (fun t => delimiter_line ++ t)
                     (matching_stored_texts search min_length max_length rest)
         ++ flat_map (fun t => delimiter_line ++ t)
                     (all_matching_texts search min_length max_length
                                         others tss)
    /\ stderr_of log = header_first f ++ flat_map header_next others.
Proof.
  intros Hres Hr Hrs Hfirst. unfold filter_fortunes.
  rewrite (fbind_ok _ _ _ _ _ (lift_M_resolver _ _ _ _ _ _ [] Hres)).
  rewrite (fbind_ok _ _ _ _ _
             (find_first_match_first fs search min_length max_length
                                     f others ts m rest [] Hr Hfirst)).
  destruct (print_rest_of_first_out
              search min_length max_length rest
              ([] ++ [Err (header_first f); Out (m ++ [LF])]))
    as (ev1 & E1 & Ho1 & He1).
  rewrite (fbind_ok _ _ _ _ _ E1).
  destruct (print_remaining_files_out
              fs search min_length max_length others tss Hrs
              (([] ++ [Err (header_first f); Out (m ++ [LF])]) ++ ev1))
    as (ev2 & E2 & Ho2 & He2).
  rewrite (fbind_ok _ _ _ _ _ E2).
  eexists. split; [reflexivity|]. split.
  - rewrite !stdout_of_app, Ho1, Ho2. cbn [stdout_of flat_map app].
    rewrite app_nil_r, <- !app_assoc. reflexivity.
  - rewrite !stderr_of_app, He1, He2. cbn [stderr_of flat_map app].
    rewrite !app_nil_r, <- ?app_assoc. reflexivity.
Qed.

Lemma filter_fortunes_first_file_witness :
  exists log : list event,
    filter_fortunes
      (single_file_fs "x-o" [110; LF; 37; LF; 110; LF; 37; LF; 97; LF] [])
      (fun t => text_eqb t [97; LF]) 0 None ["x-o"%string] None []
    = (Ok 0, log)
    /\ stdout_of log
       = ([97; LF] ++ [LF])
         ++ flat_map (fun t => delimiter_line ++ t)
                     (matching_stored_texts
                        (fun t => text_eqb t [97; LF]) 0 None
                        [(4, 2, [110; LF]); (8, 2, [97; LF])])
         ++ flat_map (fun t => delimiter_line ++ t)
                     (all_matching_texts (fun t => text_eqb t [97; LF]) 0 None
                                         [] [])
    /\ stderr_of log = header_first "x-o" ++ flat_map header_next [].
Proof.
  apply (filter_fortunes_first_file
           (single_file_fs "x-o" [110; LF; 37; LF; 110; LF; 37; LF; 97; LF] [])
           (fun t => text_eqb t [97; LF]) 0 None ["x-o"%string] None
           [None] "x-o" []
           (read_fortunes [110; LF; 37; LF; 110; LF; 37; LF; 97; LF]) []
           initial_world [97; LF] [(4, 2, [110; LF]); (8, 2, [97; LF])]).
  - reflexivity.
  - exists [110; LF; 37; LF; 110; LF; 37; LF; 97; LF],
           [110; LF; 37; LF; 110; LF; 37; LF; 97; LF].
    repeat split.
  - constructor.
  - reflexivity.
Defined.

(** ** The value of a percentage marker *)

Lemma is_digit_value (a : ascii) :
  is_digit a = true -> (0 <= nat_of_ascii a - 48 <= 9)%nat.
Proof.
  unfold is_digit. intros H. apply andb_true_iff in H. destruct H as [H1 H2].
  apply Nat.leb_le in H1. apply Nat.leb_le in H2. lia.
Qed.

(** X24. The number a percentage marker stands for lies between 0 and 99:
    whatever path entry the pattern accepts, the digits it hands over are
    one or two and their value is in that range. *)
Theorem percentage_marker_value (path digits : string) :
  percentage_pattern_match path = Some digits ->
  (1 <= String.length digits <= 2)%nat
  /\ 0 <= int_of_digits digits <= 99.
Proof.
  unfold percentage_pattern_match.
  destruct path as [|a [|b rest]]; try discriminate.
  destruct (is_digit a) eqn:Ha; [|discriminate].
  pose proof (is_digit_value a Ha) as Va.
  destruct (is_digit b) eqn:Hb.
  - pose proof (is_digit_value b Hb) as Vb.
    destruct rest as [|c rest]; [discriminate|].
    destruct (is_percent c); [|discriminate].
    intros H. injection H as <-. split; [cbn; lia|].
    unfold int_of_digits. cbn [list_ascii_of_string fold_left]. lia.
  - destruct (is_percent b); [|discriminate].
    intros H. injection H as <-. split; [cbn; lia|].
    unfold int_of_digits. cbn [list_ascii_of_string fold_left]. lia.
Qed.

Lemma percentage_marker_value_witness :
  (1 <= String.length "42" <= 2)%nat /\ 0 <= int_of_digits "42" <= 99.
Proof.
  apply (percentage_marker_value "42%" "42"). reflexivity.
Defined.

(** ** Rounding, and more on the binary64 computations *)

Lemma exact_round_fraction (n : Z) (d : positive) :
  exact_round (n # d) = round_half_even n (Zpos d).
Proof.
  unfold exact_round, round_half_even.
  change (Qfloor (n # d)) with (n / Zpos d).
  assert (E : ((n # d) - inject_Z (n / Zpos d) ?= 1 # 2)%Q
              = (2 * (n mod Zpos d) ?= Zpos d)).
  { unfold Qcompare, Qminus, Qplus, Qopp, inject_Z. cbn [Qnum Qden].
    rewrite Pos.mul_1_r, Z.mod_eq by discriminate.
    f_equal; lia. }
  rewrite E. reflexivity.
Qed.

Lemma round_half_even_opp (m d : Z) :
  0 < d -> round_half_even (- m) d = - round_half_even m d.
Proof.
  intros Hd. unfold round_half_even.
  pose proof (Z.mod_pos_bound m d Hd) as Hr.
  destruct (Z.eq_dec (m mod d) 0) as [Hz|Hnz].
  - rewrite (Z.div_opp_l_z m d) by (first [exact Hz|lia]).
    rewrite (Z.mod_opp_l_z m d) by (first [exact Hz|lia]).
    rewrite Hz. cbn [Z.mul].
    destruct (Z.compare_spec 0 d); lia.
  - rewrite (Z.div_opp_l_nz m d) by (first [exact Hnz|lia]).
    rewrite (Z.mod_opp_l_nz m d) by (first [exact Hnz|lia]).
    destruct (Z.compare_spec (2 * (m mod d)) d),
             (Z.compare_spec (2 * (d - m mod d)) d); try lia.
    replace (- (m / d) - 1) with (- (m / d + 1)) by lia.
    rewrite Z.even_opp, Z.even_add. cbn.
    destruct (Z.even (m / d)); cbn; lia.
Qed.

Lemma round_half_even_whole (n : Z) : round_half_even n 1 = n.
Proof.
  unfold round_half_even. rewrite Z.mod_1_r, Z.div_1_r. reflexivity.
Qed.

Lemma exact_round_whole (n : Z) : exact_round (inject_Z n) = n.
Proof.
  unfold inject_Z. rewrite exact_round_fraction. apply round_half_even_whole.
Qed.

(** X26. [round] of a binary64 number is the rounding of its exact value
    to the nearest integer, a tie to the even one, for every finite
    number of either sign; a NaN gives [ValueError] and an infinity
    [OverflowError]. *)
Theorem py_round_rounds_the_exact_value (x : float) :
  (float_is_finite x = true -> py_round x = Ok (exact_round (F2Q x)))
  /\ (float_is_finite x = false ->
      py_round x = Raise (match x with
                          | S754_nan => ValueError
                          | _ => OverflowError
                          end)).
Proof.
  split.
  - destruct x as [s|s| |s m e]; try discriminate; intros _.
    + reflexivity.
    + unfold py_round, F2Q. f_equal. destruct e as [|p|p].
      * destruct s.
        -- change (- inject_Z (Z.pos m * 2 ^ 0))%Q
             with (inject_Z (- (Z.pos m * 2 ^ 0))).
           rewrite exact_round_whole. reflexivity.
        -- rewrite exact_round_whole. reflexivity.
      * destruct s.
        -- change (- inject_Z (Z.pos m * 2 ^ Z.pos p))%Q
             with (inject_Z (- (Z.pos m * 2 ^ Z.pos p))).
           rewrite exact_round_whole. reflexivity.
        -- rewrite exact_round_whole. reflexivity.
      * rewrite <- Pos2Z.inj_pow_pos. destruct s.
        -- change (- (Z.pos m # 2 ^ p))%Q with (- Z.pos m # 2 ^ p)%Q.
           rewrite exact_round_fraction.
           apply eq_sym, round_half_even_opp. reflexivity.
        -- rewrite exact_round_fraction. reflexivity.
  - destruct x; try discriminate; reflexivity.
Qed.

Lemma py_round_rounds_the_exact_value_witness :
  py_round (float_div (Z2F 5) (Z2F 2)) = Ok 2
  /\ py_round (float_div (Z2F (-7)) (Z2F 2)) = Ok (-4)
  /\ py_round (float_div (Z2F 1) (Z2F 0)) = Raise OverflowError.
Proof.
  split; [|split].
  - rewrite (proj1 (py_round_rounds_the_exact_value
                      (float_div (Z2F 5) (Z2F 2))) eq_refl).
    vm_compute. reflexivity.
  - rewrite (proj1 (py_round_rounds_the_exact_value
                      (float_div (Z2F (-7)) (Z2F 2))) eq_refl).
    vm_compute. reflexivity.
  - exact (proj2 (py_round_rounds_the_exact_value
                    (float_div (Z2F 1) (Z2F 0))) eq_refl).
Defined.

(** X27. Whether percentages are accepted depends on the order of the
    path entries. With three files in the directory [d], the entries
    [50% d 50% a] are accepted (the binary64 sum of the four percentages
    is [100.0]) and rescaling leaves them as they are; the entries
    [50% a 50% d] name the same files with the same percentages, sum to
    more than [100.0] in binary64 and end with the error message and
    [sys.exit(2)]. *)
Theorem percentages_depend_on_the_order :
  fortune_files_from_paths directory_fs ["50%"; "d"; "50%"; "a"]%string None
                           initial_world
  = (Ok ([Some (third_of 50); Some (third_of 50); Some (third_of 50);
          Some (Z2F 50)],
         ["d/x"; "d/y"; "d/z"; "a"]%string), initial_world)
  /\ fortune_files_from_paths directory_fs ["50%"; "a"; "50%"; "d"]%string None
                              initial_world
     = (Raise (SystemExit 2), mkWorld 0 [MSG_TOO_MUCH]).
Proof. split; vm_compute; reflexivity. Qed.

(** X28. When every entry is set and the binary64 sum [s] of their
    absolute values is neither zero nor greater than [100.0],
    [check_percentages] succeeds, prints nothing, and returns for every
    entry [p] the binary64 number [abs(p * (100.0 / s))]. *)
Theorem check_percentages_rescales
        (ps : list (option float)) (s : float) (w : world) :
  has_unset ps = false ->
  binary64_abs_sum ps = Float s ->
  is_float_zero s = false ->
  py_gt (Float s) float_100 = false ->
  check_percentages ps w
  = (Ok (map (option_map
                (fun p => float_abs (float_mul p (float_div float_100 s))))
             ps), w).
Proof.
  intros Hu Hs Hz Hle. unfold check_percentages.
  rewrite py_sum_given_values, Hs. unfold bind at 1. unfold lift at 1.
  rewrite Hle.
  rewrite (proj1 (given_values_length ps)), Hu. cbn [negb].
  unfold lift. f_equal. apply rmap_ok.
  intros p Hp. destruct (has_unset_false_all_set ps Hu p Hp) as [q ->].
  unfold py_rdiv. cbn [to_float rbind]. rewrite Hz. reflexivity.
Qed.

Lemma check_percentages_rescales_witness :
  check_percentages [Some (Z2F 10); Some (Z2F (-30))] initial_world
  = (Ok [Some (Z2F 25); Some (Z2F 75)], initial_world).
Proof.
  rewrite (check_percentages_rescales
             [Some (Z2F 10); Some (Z2F (-30))] (Z2F 40) initial_world);
    vm_compute; reflexivity.
Defined.

Lemma py_rdiv_sum_cases (a : float) (values : list float) :
  (exists c, py_rdiv a (binary64_sum values) = Ok c)
  \/ py_rdiv a (binary64_sum values) = Raise ZeroDivisionError.
Proof.
  unfold py_rdiv. destruct values as [|v values]; cbn [binary64_sum to_float].
  - right. reflexivity.
  - cbn [rbind].
    destruct (is_float_zero (fold_left float_add values (float_add (Z2F 0) v)));
      [right; reflexivity|left; eexists; reflexivity].
Qed.

(** X29. When the set entries, each taken as its absolute value and added
    from left to right in binary64 arithmetic, do not give a sum greater
    than [100.0], [check_percentages] prints nothing and does not leave
    through [sys.exit]: it returns percentages, or raises
    [ZeroDivisionError] (the rescaling of entries that sum to zero). *)
Theorem check_percentages_up_to_100 (ps : list (option float)) (w : world) :
  py_gt (binary64_abs_sum ps) float_100 = false ->
  (exists ps', check_percentages ps w = (Ok ps', w))
  \/ check_percentages ps w = (Raise ZeroDivisionError, w).
Proof.
  intros H.
  pose proof (py_rdiv_sum_cases float_100 (map float_abs (set_values ps)))
    as Hdiv.
  change (binary64_sum (map float_abs (set_values ps)))
    with (binary64_abs_sum ps) in Hdiv.
  assert (E : check_percentages ps w
              = if has_unset ps
                then (Ok (map (option_map float_abs) ps), w)
                else (rmap (fun percentage =>
                              match percentage with
                              | Some p =>
                                rbind (py_rdiv float_100 (binary64_abs_sum ps))
                                      (fun f => Ok (Some (float_abs
                                                            (float_mul p f))))
                              | None => Raise TypeError
                              end) ps, w)).
  { unfold check_percentages.
    rewrite py_sum_given_values. unfold bind at 1. unfold lift at 1.
    rewrite H, (proj1 (given_values_length ps)).
    destruct (has_unset ps); reflexivity. }
  rewrite E. clear E.
  destruct (has_unset ps) eqn:Hu.
  - left. eexists. reflexivity.
  - destruct Hdiv as [[c Hc]|Hz].
    + left. eexists. f_equal.
      apply (rmap_ok _ (option_map (fun p => float_abs (float_mul p c)))).
      intros p Hp. destruct (has_unset_false_all_set ps Hu p Hp) as [q ->].
      rewrite Hc. reflexivity.
    + destruct ps as [|p ps]; [left; eexists; reflexivity|right].
      f_equal.
      destruct (has_unset_false_all_set _ Hu p (or_introl eq_refl)) as [q ->].
      apply rmap_raise_first. rewrite Hz. reflexivity.
Qed.

Lemma check_percentages_up_to_100_witness :
  (exists ps',
      check_percentages [Some (third_of 50); Some (third_of 50);
                         Some (third_of 50); Some (Z2F 50)] initial_world
      = (Ok ps', initial_world))
  \/ check_percentages [Some (third_of 50); Some (third_of 50);
                        Some (third_of 50); Some (Z2F 50)] initial_world
     = (Raise ZeroDivisionError, initial_world).
Proof.
  apply (check_percentages_up_to_100
           [Some (third_of 50); Some (third_of 50); Some (third_of 50);
            Some (Z2F 50)] initial_world).
  vm_compute. reflexivity.
Defined.

Lemma exact_round_comp (x y : Q) : x == y -> exact_round x = exact_round y.
Proof.
  intros H. unfold exact_round.
  rewrite (Qfloor_comp _ _ H).
  assert (E : (x - inject_Z (Qfloor y) ?= 1 # 2)%Q
              = (y - inject_Z (Qfloor y) ?= 1 # 2)%Q).
  { apply Qcompare_comp; [rewrite H; reflexivity|reflexivity]. }
  rewrite E. reflexivity.
Qed.

Lemma spec_apply_weights_all_unset (T : Z) (weights : list Z) :
  T <> 0 ->
  spec_apply_weights_from T T 0 weights (map (fun _ => None) weights)
  = weights.
Proof.
  intros HT. induction weights as [|w ws IH]; [reflexivity|].
  cbn [map spec_apply_weights_from spec_final_weight]. rewrite IH. f_equal.
  rewrite <- (exact_round_whole w) at 2. apply exact_round_comp.
  field. intros E. apply HT. unfold Qeq in E. cbn in E. lia.
Qed.

Lemma exact_sums_all_unset (weights : list Z) :
  spec_sum_of_unset_raw_weights weights (map (fun _ => @None Q) weights)
  = spec_total_raw_weight weights
  /\ spec_sum_of_set_percentages (map (fun _ => None) weights) = 0%Q.
Proof.
  induction weights as [|w ws [IH1 IH2]]; [split; reflexivity|].
  cbn [map spec_sum_of_unset_raw_weights spec_sum_of_set_percentages].
  rewrite IH1. split; [reflexivity|exact IH2].
Qed.

(** X30. Without percentages the program and the formula over the reals
    agree: when no file has a percentage, the weights are not negative,
    their sum [T] is positive and [100 * T * T] is below [2 ^ 53], the
    result of [adjust_weights_with_percentages] is the list of the values
    [round(rawWeight * totalRawWeight * (100 - 0) / (100 *
    totalRawWeight))] of the exact formula. *)
Theorem weights_without_percentages_are_exact (weights : list Z) :
  Forall (fun w => 0 <= w) weights ->
  0 < spec_total_raw_weight weights ->
  100 * spec_total_raw_weight weights * spec_total_raw_weight weights
  < 2 ^ 53 ->
  adjust_weights_with_percentages weights (map (fun _ => None) weights)
  = Ok (spec_apply_weights weights
                           (exact_values (map (fun _ => None) weights))).
Proof.
  intros Hnn HT Hb. rewrite (adjust_weights_all_unset weights Hnn HT Hb).
  f_equal. unfold spec_apply_weights, exact_values. rewrite map_map.
  cbn [option_map].
  destruct (exact_sums_all_unset weights) as [-> ->].
  symmetry. apply spec_apply_weights_all_unset. lia.
Qed.

Lemma weights_without_percentages_are_exact_witness :
  adjust_weights_with_percentages [12; 0; 431] [None; None; None]
  = Ok (spec_apply_weights [12; 0; 431]
                           (exact_values [None; None; None])).
Proof.
  apply (weights_without_percentages_are_exact [12; 0; 431]).
  - repeat constructor; lia.
  - reflexivity.
  - reflexivity.
Defined.
